(** * CPQ quote form: validation, API client and submission handler

    A shallow embedding of the front end of the corrugated-box quote system
    ([cpq-frontend/src/validation.ts], its second copy, [api.ts], [App.tsx],
    [main.tsx], [components/FormPrimitives.tsx]) and of the catalogue lookup
    resolver the specification describes, with the properties the
    specification states about them.

    The client and the form come twice.  [Browser], [Api] and [App] take a
    response body at its declared type [ApiResponse] and the CSRF token as
    given.  [Page] takes the body as [JSON.parse] returns it, reads the
    token from the cookie while the request is built, starts from the
    analytics event of main.tsx, and lets calls of the submission handler
    overlap; the lemmas [typed_submission] and [typed_view] show that the
    former are the latter on bodies of the declared type. *)

From Stdlib Require Import List Bool ZArith NArith QArith Lia.
From Stdlib Require Import Strings.String Strings.Ascii.
Import ListNotations.

(* ================================================================== *)
(** * JavaScript values *)
(* ================================================================== *)

Module Js.

(** ** Strings

    A JavaScript string is a sequence of UTF-16 code units; [length] and
    the regular expressions of the schema (no [u] flag) count and match
    code units. *)

Definition code_unit := N.
Definition jsstring := list code_unit.

(** Source literals are written in UTF-8; [utf8_points] decodes the bytes
    of a literal into code points ([need] continuation bytes are pending
    for the code point accumulated in [acc]) and [utf16_units] encodes one
    code point. *)
Fixpoint bytes_of (s : string) : list N :=
  match s with
  | EmptyString => []
  | String c rest => N_of_ascii c :: bytes_of rest
  end.

Fixpoint utf8_points (bs : list N) (need : nat) (acc : N) : list N :=
  match bs with
  | [] => []
  | b :: rest =>
      match need with
      | O =>
          if (b <? 128)%N then b :: utf8_points rest 0 0%N
          else if (b <? 224)%N then utf8_points rest 1 (N.land b 31)
          else if (b <? 240)%N then utf8_points rest 2 (N.land b 15)
          else utf8_points rest 3 (N.land b 7)
      | S n =>
          let acc' := (acc * 64 + N.land b 63)%N in
          match n with
          | O => acc' :: utf8_points rest 0 0%N
          | S _ => utf8_points rest n acc'
          end
      end
  end.

Definition utf16_units (cp : N) : list code_unit :=
  if (cp <? 65536)%N then [cp]
  else
    let v := (cp - 65536)%N in
    [(55296 + N.shiftr v 10)%N; (56320 + N.land v 1023)%N].

Definition lit (s : string) : jsstring :=
  flat_map utf16_units (utf8_points (bytes_of s) 0 0%N).

Fixpoint str_eqb (a b : jsstring) : bool :=
  match a, b with
  | [], [] => true
  | x :: a', y :: b' => (x =? y)%N && str_eqb a' b'
  | _, _ => false
  end.

(** [s.length] *)
Definition str_length (s : jsstring) : Z := Z.of_nat (List.length s).

(** [s.includes(t)]: [t] occurs in [s] as a contiguous run of code units. *)
Fixpoint starts_with (t s : jsstring) : bool :=
  match t, s with
  | [], _ => true
  | x :: t', y :: s' => (x =? y)%N && starts_with t' s'
  | _ :: _, [] => false
  end.

Fixpoint includes (s t : jsstring) : bool :=
  starts_with t s ||
  match s with
  | [] => false
  | _ :: s' => includes s' t
  end.

(** ** Numbers

    A finite double is represented by the rational it denotes (comparison
    of doubles is exact, so nothing is lost for [<], [>] and
    [Number.isInteger]); the three non-finite values are constructors. *)
Inductive number :=
| NaN
| Infinity (negative : bool)
| Finite (q : Q).

Definition of_Z (n : Z) : number := Finite (inject_Z n).

(** [a < b] *)
Definition num_ltb (a b : number) : bool :=
  match a, b with
  | NaN, _ | _, NaN => false
  | Infinity true, Infinity true => false
  | Infinity true, _ => true
  | _, Infinity true => false
  | Infinity false, _ => false
  | _, Infinity false => true
  | Finite p, Finite q => negb (Qle_bool q p)
  end.

(** [Number.isInteger(a)] *)
Definition isInteger (a : number) : bool :=
  match a with
  | Finite q => (Qnum q mod Zpos (Qden q) =? 0)%Z
  | _ => false
  end.

(** ** Values

    [JObject] stands for every non-primitive value (objects, arrays,
    functions); none of the schemas below looks inside one. *)
Inductive jsval :=
| JUndefined
| JNull
| JBool (b : bool)
| JNumber (n : number)
| JString (s : jsstring)
| JObject.

(** [a || b] on strings that may be undefined: the first operand when it is
    truthy (a non-empty string), the second otherwise. *)
Definition or_else (a : option jsstring) (b : jsstring) : jsstring :=
  match a with
  | Some (c :: s) => c :: s
  | _ => b
  end.

End Js.

Import Js.

(* ================================================================== *)
(** * Regular expressions *)
(* ================================================================== *)

(** The two patterns of the schema are anchored at both ends ([^...$]) and
    use classes, concatenation, [?], [+] and [{5,}] only, so [test] is a
    whole-string match, decided here by derivatives. *)
Module Regex.

Inductive regex :=
| Rnone
| Reps
| Rclass (p : code_unit -> bool)
| Rcat (a b : regex)
| Ralt (a b : regex)
| Rstar (a : regex).

Definition Rplus (r : regex) : regex := Rcat r (Rstar r).
Definition Ropt (r : regex) : regex := Ralt Reps r.

Fixpoint Rrep (n : nat) (r : regex) : regex :=
  match n with
  | O => Reps
  | S k => Rcat r (Rrep k r)
  end.

(** [r{n,}] *)
Definition Rat_least (n : nat) (r : regex) : regex := Rcat (Rrep n r) (Rstar r).

Fixpoint Rseq (rs : list regex) : regex :=
  match rs with
  | [] => Reps
  | [r] => r
  | r :: rest => Rcat r (Rseq rest)
  end.

Fixpoint nullable (r : regex) : bool :=
  match r with
  | Rnone => false
  | Reps => true
  | Rclass _ => false
  | Rcat a b => nullable a && nullable b
  | Ralt a b => nullable a || nullable b
  | Rstar _ => true
  end.

Definition cat (a b : regex) : regex :=
  match a with
  | Rnone => Rnone
  | Reps => b
  | _ => Rcat a b
  end.

Definition alt (a b : regex) : regex :=
  match a, b with
  | Rnone, _ => b
  | _, Rnone => a
  | _, _ => Ralt a b
  end.

Fixpoint deriv (c : code_unit) (r : regex) : regex :=
  match r with
  | Rnone => Rnone
  | Reps => Rnone
  | Rclass p => if p c then Reps else Rnone
  | Rcat a b =>
      alt (cat (deriv c a) b) (if nullable a then deriv c b else Rnone)
  | Ralt a b => alt (deriv c a) (deriv c b)
  | Rstar a => cat (deriv c a) (Rstar a)
  end.

(** [/^r$/.test(s)] *)
Definition test (r : regex) (s : jsstring) : bool :=
  nullable (fold_left (fun r c => deriv c r) s r).

Definition chr (s : string) : regex :=
  Rclass (fun c => existsb (N.eqb c) (lit s)).

Definition in_range (lo hi : string) (c : code_unit) : bool :=
  match lit lo, lit hi with
  | [l], [h] => (l <=? c)%N && (c <=? h)%N
  | _, _ => false
  end.

(** [\s]: the white space and line terminator code units of ECMAScript. *)
Definition is_space (c : code_unit) : bool :=
  existsb (N.eqb c)
    [9; 10; 11; 12; 13; 32; 160; 5760; 8232; 8233; 8239; 8287; 12288; 65279]%N
  || ((8192 <=? c)%N && (c <=? 8202)%N).

End Regex.

(* ================================================================== *)
(** * The schema combinators the form uses *)
(* ================================================================== *)

(** A schema maps the value read from the input to the outcome of
    [safeParse]: [Some v] when parsing succeeds with output [v], [None] when
    it reports an issue. *)
Module Zod.

Definition Schema := jsval -> option jsval.

(** [z.enum(options)] *)
Definition z_enum (options : list jsstring) : Schema :=
  fun v =>
    match v with
    | JString s => if existsb (str_eqb s) options then Some v else None
    | _ => None
    end.

(** [z.number()]: a value of type number other than NaN. *)
Definition z_number : Schema :=
  fun v =>
    match v with
    | JNumber NaN => None
    | JNumber _ => Some v
    | _ => None
    end.

(** [z.string()] *)
Definition z_string : Schema :=
  fun v =>
    match v with
    | JString _ => Some v
    | _ => None
    end.

(** [z.literal(s)] for a string literal. *)
Definition z_literal (s : jsstring) : Schema :=
  fun v =>
    match v with
    | JString t => if str_eqb t s then Some v else None
    | _ => None
    end.

(** A check appended to a schema: the value must pass it as well. *)
Definition z_check (ok : jsval -> bool) (s : Schema) : Schema :=
  fun v =>
    match s v with
    | Some w => if ok w then Some w else None
    | None => None
    end.

Definition on_number (p : number -> bool) (v : jsval) : bool :=
  match v with
  | JNumber n => p n
  | _ => false
  end.

Definition on_string (p : jsstring -> bool) (v : jsval) : bool :=
  match v with
  | JString s => p s
  | _ => false
  end.

(** [.int()], [.min(k)] (issue when [data < k]), [.max(k)] (issue when
    [data > k]) *)
Definition z_int : Schema -> Schema := z_check (on_number isInteger).
Definition z_min (k : Z) : Schema -> Schema :=
  z_check (on_number (fun n => negb (num_ltb n (of_Z k)))).
Definition z_max (k : Z) : Schema -> Schema :=
  z_check (on_number (fun n => negb (num_ltb (of_Z k) n))).

(** [.max(k)] on a string (issue when [data.length > k]) and [.regex(r)] *)
Definition z_maxlen (k : Z) : Schema -> Schema :=
  z_check (on_string (fun s => negb (k <? str_length s)%Z)).
Definition z_regex (r : Regex.regex) : Schema -> Schema :=
  z_check (on_string (Regex.test r)).
(** A string check supplied from outside (a built-in format). *)
Definition z_format (p : jsstring -> bool) : Schema -> Schema :=
  z_check (on_string p).

(** [.optional()] *)
Definition z_optional (s : Schema) : Schema :=
  fun v =>
    match v with
    | JUndefined => Some JUndefined
    | _ => s v
    end.

(** [a.or(b)]: the first alternative that parses gives the output. *)
Definition z_or (b a : Schema) : Schema :=
  fun v =>
    match a v with
    | Some w => Some w
    | None => b v
    end.

(** [.transform(f)] *)
Definition z_transform (f : jsval -> jsval) (s : Schema) : Schema :=
  fun v =>
    match s v with
    | Some w => Some (f w)
    | None => None
    end.

End Zod.

(** Method chaining: [s |> m] is [s.m]. *)
Notation "s |> m" := (m s) (at level 45, left associativity, only parsing).

(** Sequencing of parses that may fail. *)
Notation "'let*' x ':=' e 'in' k" :=
  (match e with Some x => k | None => None end)
  (at level 10, x name, e at level 100, k at level 200, only parsing).

(* ================================================================== *)
(** * types.ts, validation.ts *)
(* ================================================================== *)

(** The fields of the form object.  A field holds what reading the property
    gives, so [JUndefined] stands both for an absent key and for a key set
    to [undefined]; keys outside the shape are stripped by [z.object] and do
    not appear.  [QuoteFormData] (the schema's output) and
    [QuoteFormPayload] have the same fields. *)
Record QuoteFields := {
  fefco : jsval;
  x_mm : jsval;
  y_mm : jsval;
  z_mm : jsval;
  material : jsval;
  print : jsval;
  qty : jsval;
  sla_type : jsval;
  company : jsval;
  contact_name : jsval;
  city : jsval;
  phone : jsval;
  email : jsval;
  tg_username : jsval
}.

Definition QuoteFormData := QuoteFields.
Definition QuoteFormPayload := QuoteFields.

Module Options.

Definition fefcoOptions : list jsstring :=
  map lit ["0201"; "0203"; "0427"; "0471"; "0501"]%string.
Definition materialOptions : list jsstring :=
  map lit ["Т23 Крафт"; "Микрогофрокартон Крафт"; "Микрогофрокартон Белый"]%string.
Definition printOptions : list jsstring :=
  map lit ["без печати"; "1+0"; "2+0"; "4+0"; "4+4"]%string.
Definition slaOptions : list jsstring :=
  map lit ["стандарт"; "срочно"; "эконом"]%string.

End Options.

Module Validation.

Import Zod Regex Options.

(** [[^\s@]] *)
Definition not_space_at : regex :=
  Rclass (fun c => negb (is_space c || existsb (N.eqb c) (lit "@"))).

(** [/^[^\s@]+@[^\s@]+\.[^\s@]+$/] *)
Definition email_re : regex :=
  Rseq [Rplus not_space_at; chr "@"; Rplus not_space_at; chr ".";
        Rplus not_space_at].

(** [[a-zA-Z0-9_]] *)
Definition word_char : regex :=
  Rclass (fun c => in_range "a" "z" c || in_range "A" "Z" c
                   || in_range "0" "9" c || existsb (N.eqb c) (lit "_")).

(** [/^@?[a-zA-Z0-9_]{5,}$/] *)
Definition tg_re : regex := Rseq [Ropt (chr "@"); Rat_least 5 word_char].

(** [z.literal('').transform(() => undefined)] *)
Definition empty_to_undefined : Schema :=
  z_literal (lit "") |> z_transform (fun _ => JUndefined).

Definition quoteSchema (data : QuoteFields) : option QuoteFormData :=
  let* v_fefco := z_enum fefcoOptions (fefco data) in
  let* v_x := (z_number |> z_int |> z_min 20 |> z_max 1200) (x_mm data) in
  let* v_y := (z_number |> z_int |> z_min 20 |> z_max 1200) (y_mm data) in
  let* v_z := (z_number |> z_int |> z_min 20 |> z_max 1200) (z_mm data) in
  let* v_material := z_enum materialOptions (material data) in
  let* v_print :=
    (z_enum printOptions |> z_optional |> z_or empty_to_undefined) (print data) in
  let* v_qty := (z_number |> z_int |> z_min 1 |> z_max 100000) (qty data) in
  let* v_sla := z_enum slaOptions (sla_type data) in
  let* v_company :=
    (z_string |> z_maxlen 120 |> z_optional |> z_or empty_to_undefined)
      (company data) in
  let* v_contact :=
    (z_string |> z_maxlen 80 |> z_optional |> z_or empty_to_undefined)
      (contact_name data) in
  let* v_city :=
    (z_string |> z_maxlen 80 |> z_optional |> z_or empty_to_undefined)
      (city data) in
  let* v_phone :=
    (z_string |> z_optional |> z_or empty_to_undefined) (phone data) in
  let* v_email :=
    (z_string |> z_regex email_re |> z_optional |> z_or empty_to_undefined)
      (email data) in
  let* v_tg :=
    (z_string |> z_regex tg_re |> z_optional |> z_or empty_to_undefined)
      (tg_username data) in
  Some {| fefco := v_fefco; x_mm := v_x; y_mm := v_y; z_mm := v_z;
          material := v_material; print := v_print; qty := v_qty;
          sla_type := v_sla; company := v_company; contact_name := v_contact;
          city := v_city; phone := v_phone; email := v_email;
          tg_username := v_tg |}.

(** [safeParse(data).success] *)
Definition accepts (data : QuoteFields) : bool :=
  match quoteSchema data with
  | Some _ => true
  | None => false
  end.

(** [toPayload] is a type cast. *)
Definition toPayload (data : QuoteFormData) : QuoteFormPayload := data.

End Validation.

(** The input of the unit tests ([__tests__/validation.test.ts], [base]). *)
Definition base : QuoteFields :=
  {| fefco := JString (lit "0201");
     x_mm := JNumber (of_Z 300);
     y_mm := JNumber (of_Z 200);
     z_mm := JNumber (of_Z 150);
     material := JString (lit "Микрогофрокартон Крафт");
     print := JUndefined;
     qty := JNumber (of_Z 1000);
     sla_type := JString (lit "стандарт");
     company := JUndefined;
     contact_name := JUndefined;
     city := JUndefined;
     phone := JUndefined;
     email := JUndefined;
     tg_username := JUndefined |}.

(* ================================================================== *)
(** * The second copy of validation.ts *)
(* ================================================================== *)

Module Part001.

Import Zod Regex Options.

Section Schema.

(** The built-in format check behind [z.string().email(...)]; it belongs to
    the schema library, so the schema is stated for any such check. *)
Variable email_format : jsstring -> bool.

Definition quoteSchema (data : QuoteFields) : option QuoteFormData :=
  let* v_fefco := z_enum fefcoOptions (fefco data) in
  let* v_x := (z_number |> z_int |> z_min 20 |> z_max 1200) (x_mm data) in
  let* v_y := (z_number |> z_int |> z_min 20 |> z_max 1200) (y_mm data) in
  let* v_z := (z_number |> z_int |> z_min 20 |> z_max 1200) (z_mm data) in
  let* v_material := z_enum materialOptions (material data) in
  let* v_print := (z_enum printOptions |> z_optional) (print data) in
  let* v_qty := (z_number |> z_int |> z_min 1 |> z_max 100000) (qty data) in
  let* v_sla := z_enum slaOptions (sla_type data) in
  let* v_company := (z_string |> z_maxlen 120 |> z_optional) (company data) in
  let* v_contact :=
    (z_string |> z_maxlen 80 |> z_optional) (contact_name data) in
  let* v_city := (z_string |> z_maxlen 80 |> z_optional) (city data) in
  let* v_phone := (z_string |> z_optional) (phone data) in
  let* v_email :=
    (z_string |> z_format email_format |> z_optional) (email data) in
  let* v_tg :=
    (z_string |> z_regex Validation.tg_re |> z_optional) (tg_username data) in
  Some {| fefco := v_fefco; x_mm := v_x; y_mm := v_y; z_mm := v_z;
          material := v_material; print := v_print; qty := v_qty;
          sla_type := v_sla; company := v_company; contact_name := v_contact;
          city := v_city; phone := v_phone; email := v_email;
          tg_username := v_tg |}.

Definition accepts (data : QuoteFields) : bool :=
  match quoteSchema data with
  | Some _ => true
  | None => false
  end.

End Schema.

(** [(v as any) === '' ? undefined : v] *)
Definition blank_to_undefined (v : jsval) : jsval :=
  match v with
  | JString [] => JUndefined
  | _ => v
  end.

Definition toPayload (data : QuoteFormData) : QuoteFormPayload :=
  {| fefco := fefco data; x_mm := x_mm data; y_mm := y_mm data;
     z_mm := z_mm data; material := material data;
     print := blank_to_undefined (print data);
     qty := qty data; sla_type := sla_type data;
     company := blank_to_undefined (company data);
     contact_name := blank_to_undefined (contact_name data);
     city := blank_to_undefined (city data);
     phone := blank_to_undefined (phone data);
     email := blank_to_undefined (email data);
     tg_username := blank_to_undefined (tg_username data) |}.

End Part001.

(* ================================================================== *)
(** * The browser: console, network, analytics and component state *)
(* ================================================================== *)

Module Browser.

(** [ApiResponse = ApiSuccess | ApiError], discriminated by [ok]. *)
Inductive ApiResponse :=
| ApiSuccess (pdf_url lead_id : jsstring)
| ApiError (error : jsstring).

Definition ok (r : ApiResponse) : bool :=
  match r with
  | ApiSuccess _ _ => true
  | ApiError _ => false
  end.

(** A thrown value, known by what [String(err)] gives for it. *)
Record Thrown := { String_of : jsstring }.

Inductive Promise (A : Type) :=
| Resolved (a : A)
| Rejected (err : Thrown).
Arguments Resolved {A} a.
Arguments Rejected {A} err.

(** What the client reads of a [Response]. *)
Record Response := {
  content_type : option jsstring;     (* headers.get('content-type') *)
  statusText : jsstring;
  text : Promise jsstring;            (* text() *)
  json : Promise ApiResponse          (* json(), cast to ApiResponse *)
}.

(** The members of a form object, in the order of the shape. *)
Definition members (p : QuoteFields) : list (jsstring * jsval) :=
  [ (lit "fefco", fefco p); (lit "x_mm", x_mm p); (lit "y_mm", y_mm p);
    (lit "z_mm", z_mm p); (lit "material", material p);
    (lit "print", print p); (lit "qty", qty p);
    (lit "sla_type", sla_type p); (lit "company", company p);
    (lit "contact_name", contact_name p); (lit "city", city p);
    (lit "phone", phone p); (lit "email", email p);
    (lit "tg_username", tg_username p) ].

Definition is_undefined (v : jsval) : bool :=
  match v with
  | JUndefined => true
  | _ => false
  end.

(** [JSON.stringify(payload)], kept as the members it writes: a member
    whose value is [undefined] is left out. *)
Definition JSON_stringify (p : QuoteFormPayload) : list (jsstring * jsval) :=
  filter (fun kv => negb (is_undefined (snd kv))) (members p).

Record Request := {
  url : jsstring;
  method : jsstring;
  headers : list (jsstring * jsstring);
  credentials : jsstring;
  body : list (jsstring * jsval)
}.

(** An argument of [console.log]: a string, or an object printed with all
    its members. *)
Inductive LogArg :=
| LogString (s : jsstring)
| LogObject (o : QuoteFields).

Definition LogRecord := list LogArg.

Inductive BodyRead := ReadText | ReadJson.

Inductive Status := idle | loading | success | error.

(** Events pushed to [window.dataLayer]. *)
Inductive Event :=
| cpq_form_submit
| cpq_api_ok (lead_id : jsstring)
| cpq_api_error (message : jsstring)
| cpq_pdf_link_click.

Record World := {
  console : list LogRecord;          (* oldest first *)
  requests : list Request;           (* calls of fetch *)
  body_reads : list BodyRead;        (* calls of text() and json() *)
  dataLayer : list Event;
  status : Status;                   (* useState<Status>('idle') *)
  result : option ApiResponse        (* useState<ApiResponse | null>(null) *)
}.

Definition initial : World :=
  {| console := []; requests := []; body_reads := []; dataLayer := [];
     status := idle; result := None |}.

(** Computations that act on the world. *)
Definition M (A : Type) := World -> A * World.

Definition ret {A} (a : A) : M A := fun w => (a, w).
Definition bind {A B} (c : M A) (k : A -> M B) : M B :=
  fun w => let (a, w') := c w in k a w'.

Definition console_log (args : LogRecord) : M unit :=
  fun w =>
    (tt, {| console := console w ++ [args]; requests := requests w;
            body_reads := body_reads w; dataLayer := dataLayer w;
            status := status w; result := result w |}).

Definition record_request (r : Request) : M unit :=
  fun w =>
    (tt, {| console := console w; requests := requests w ++ [r];
            body_reads := body_reads w; dataLayer := dataLayer w;
            status := status w; result := result w |}).

Definition record_read (r : BodyRead) : M unit :=
  fun w =>
    (tt, {| console := console w; requests := requests w;
            body_reads := body_reads w ++ [r]; dataLayer := dataLayer w;
            status := status w; result := result w |}).

Definition pushEvent (e : Event) : M unit :=
  fun w =>
    (tt, {| console := console w; requests := requests w;
            body_reads := body_reads w; dataLayer := dataLayer w ++ [e];
            status := status w; result := result w |}).

Definition setStatus (s : Status) : M unit :=
  fun w =>
    (tt, {| console := console w; requests := requests w;
            body_reads := body_reads w; dataLayer := dataLayer w;
            status := s; result := result w |}).

Definition setResult (r : option ApiResponse) : M unit :=
  fun w =>
    (tt, {| console := console w; requests := requests w;
            body_reads := body_reads w; dataLayer := dataLayer w;
            status := status w; result := r |}).

End Browser.

Notation "x <- c ;; k" := (Browser.bind c (fun x => k))
  (at level 61, c at next level, right associativity).
Notation "c ;; k" := (Browser.bind c (fun _ => k))
  (at level 61, right associativity).

(* ================================================================== *)
(** * api.ts *)
(* ================================================================== *)

Module Api.

Import Browser.

Section Client.

(** The environment of a call: [API_BASE], what [getCsrfToken()] returns
    (it reads [document.cookie]), and how the network answers a request
    ([Rejected] covers a network failure and an aborted signal). *)
Variable API_BASE : jsstring.
Variable csrfToken : option jsstring.
Variable network : Request -> Promise Response.

Definition fetch (r : Request) : M (Promise Response) :=
  record_request r ;; ret (network r).

(** [await res.text().catch(() => '')] *)
Definition text_or_empty (res : Response) : M jsstring :=
  record_read ReadText ;;
  ret (match text res with
       | Resolved t => t
       | Rejected _ => lit ""
       end).

Definition read_json (res : Response) : M (Promise ApiResponse) :=
  record_read ReadJson ;; ret (json res).

(** The request [postQuote] sends. *)
Definition quote_request (payload : QuoteFormPayload) : Request :=
  {| url := API_BASE ++ lit "/api/quote";
     method := lit "POST";
     headers :=
       [ (lit "Content-Type", lit "application/json");
         (lit "X-CSRF-Token",
          match csrfToken with Some t => t | None => lit "" end) ];
     credentials := lit "include";
     body := JSON_stringify payload |}.

Definition postQuote (payload : QuoteFormPayload) : M (Promise ApiResponse) :=
  console_log [LogString (lit "postQuote called"); LogObject payload] ;;
  fetched <- fetch (quote_request payload) ;;
  match fetched with
  | Rejected err => ret (Rejected err)
  | Resolved res =>
      let contentType := or_else (content_type res) (lit "") in
      if negb (includes contentType (lit "application/json")) then
        body_text <- text_or_empty res ;;
        ret (Resolved
               (ApiError (lit "Unexpected response: "
                          ++ or_else (Some body_text) (statusText res))))
      else
        read_json res
  end.

End Client.

End Api.

(* ================================================================== *)
(** * components/FormPrimitives.tsx, App.tsx *)
(* ================================================================== *)

Module App.

Import Browser.

(** The text of the status bar. *)
Definition StatusBar (st : Status) (message : option jsstring) : jsstring :=
  match st with
  | loading => lit "Отправляем запрос…"
  | success => lit "Готово. PDF отправлен в Telegram."
  | _ => or_else message (lit "")
  end.

(** The result card: the link target and the lead id shown beside it. *)
Record ResultCard := { href : jsstring; leadId : jsstring }.

(** What the form shows below its fields. *)
Record View := {
  status_text : jsstring;
  retry_button : bool;
  result_card : option ResultCard
}.

Definition render (w : World) : View :=
  {| status_text :=
       StatusBar (status w)
         (match result w with
          | Some (ApiError e) => Some e
          | _ => None
          end);
     retry_button :=
       match status w with
       | error => true
       | _ => false
       end;
     result_card :=
       match result w with
       | Some (ApiSuccess u l) => Some {| href := u; leadId := l |}
       | _ => None
       end |}.

Section Form.

Variable API_BASE : jsstring.
Variable csrfToken : option jsstring.
Variable network : Request -> Promise Response.

(** The callback given to [handleSubmit].  The abort controller only cancels
    an earlier request that is still in flight, whose promise then rejects;
    [network] covers that outcome. *)
Definition submit_values (values : QuoteFormData) : M unit :=
  console_log [LogString (lit "onSubmit values"); LogObject values] ;;
  pushEvent cpq_form_submit ;;
  setStatus loading ;;
  setResult None ;;
  let payload := Validation.toPayload values in
  posted <- Api.postQuote API_BASE csrfToken network payload ;;
  let res :=
    match posted with
    | Resolved r => r
    | Rejected err => ApiError (String_of err)
    end in
  match res with
  | ApiSuccess _ lead =>
      pushEvent (cpq_api_ok lead) ;;
      setResult (Some res) ;;
      setStatus success
  | ApiError e =>
      pushEvent (cpq_api_error e) ;;
      setResult (Some res) ;;
      setStatus error
  end.

(** [handleSubmit] with [zodResolver(quoteSchema)]: the callback runs on
    the parsed values, and only when the form values parse. *)
Definition onSubmit (form : QuoteFields) : M unit :=
  match Validation.quoteSchema form with
  | Some values => submit_values values
  | None => ret tt
  end.

(** The handler of the retry button. *)
Definition onRetry : M unit := setStatus idle ;; setResult None.

End Form.

End App.

(* ================================================================== *)
(** * The lookup resolver *)
(* ================================================================== *)

(** The resolver runs on the server, whose code is outside the files at
    hand; its definitions follow section 4.2 of the specification. *)
Module LookupResolver.

Local Open Scope Z_scope.

(** Modelled from the spec: the key fields and quantity of a QuoteRequest
    (section 3); the request type of the server is missing. *)
Record QuoteRequest := {
  req_fefco : string;
  req_x : Z;
  req_y : Z;
  req_z : Z;
  req_material : string;
  req_print : option string;
  req_qty : Z;
  req_sla_type : string
}.

(** Modelled from the spec: a PriceRecord (section 3), a catalogue entry
    keyed by (fefco, x, y, z, material, print, sla_type) with a quantity
    band and a SKU; the catalogue record type of the server is missing. *)
Record PriceRecord := {
  rec_fefco : string;
  rec_x : Z;
  rec_y : Z;
  rec_z : Z;
  rec_material : string;
  rec_print : option string;
  rec_sla_type : string;
  qty_min : Z;
  qty_max : Z;
  sku : string
}.

(** Modelled from the spec: equality of the optional print field of the
    key; the server's comparison is missing. *)
Definition print_eqb (a b : option string) : bool :=
  match a, b with
  | None, None => true
  | Some x, Some y => String.eqb x y
  | _, _ => false
  end.

(** Modelled from the spec: the key-field match of the missing resolver,
    "a candidate is eligible only if all of fefco, x, y, z, material,
    print, sla_type match the request exactly". *)
Definition eligible (req : QuoteRequest) (c : PriceRecord) : bool :=
  String.eqb (rec_fefco c) (req_fefco req)
  && (rec_x c =? req_x req) && (rec_y c =? req_y req)
  && (rec_z c =? req_z req)
  && String.eqb (rec_material c) (req_material req)
  && print_eqb (rec_print c) (req_print req)
  && String.eqb (rec_sla_type c) (req_sla_type req).

(** Modelled from the spec: band containment of the missing resolver,
    "[qty_min, qty_max] contains the requested quantity". *)
Definition in_band (req : QuoteRequest) (c : PriceRecord) : bool :=
  (qty_min c <=? req_qty req) && (req_qty req <=? qty_max c).

(** Modelled from the spec: the two matching policies and the outcome of
    the missing resolver, "exactly one PriceRecord ... or a NotFound
    failure". *)
Inductive Policy := strict | fallback.

Inductive Outcome :=
| Found (r : PriceRecord)
| NotFound.

(** Modelled from the spec: the strict policy of the missing resolver,
    "among eligible candidates, return the one whose [qty_min, qty_max]
    contains the requested quantity; if none, fail NotFound" (the first
    such candidate when several bands contain the quantity). *)
Definition resolve_strict (req : QuoteRequest) (cands : list PriceRecord)
  : Outcome :=
  match find (in_band req) (filter (eligible req) cands) with
  | Some r => Found r
  | None => NotFound
  end.

(** Modelled from the spec: the band midpoint "(qty_min+qty_max)/2" of the
    missing fallback policy.  Quantities and band limits are integers and
    the worked example of section 8 takes 1250 for the band [501,2000]
    ("|1000−1250|=250"), so the division is the integer one. *)
Definition midpoint (c : PriceRecord) : Z := (qty_min c + qty_max c) / 2.

(** Modelled from the spec: "the absolute distance between the requested
    quantity and the band midpoint", the measure the missing fallback
    policy minimises. *)
Definition distance (req : QuoteRequest) (c : PriceRecord) : Z :=
  Z.abs (req_qty req - midpoint c).

(** Modelled from the spec: the preference of the missing fallback policy,
    the smaller distance first, "ties broken by the smallest qty_min". *)
Definition preferred (req : QuoteRequest) (a b : PriceRecord) : bool :=
  match distance req a ?= distance req b with
  | Lt => true
  | Eq => qty_min a <? qty_min b
  | Gt => false
  end.

(** Modelled from the spec: the selection of the missing fallback policy,
    a scan that keeps the preferred candidate. *)
Definition nearest (req : QuoteRequest) (first : PriceRecord)
  (rest : list PriceRecord) : PriceRecord :=
  fold_left (fun best c => if preferred req c best then c else best)
    rest first.

(** Modelled from the spec: the fallback policy of the missing resolver,
    "among eligible candidates (regardless of band containment), select the
    one minimizing the absolute distance between the requested quantity and
    the band midpoint; ties broken by the smallest qty_min. If no eligible
    candidate exists at all, fail NotFound". *)
Definition resolve_fallback (req : QuoteRequest) (cands : list PriceRecord)
  : Outcome :=
  match filter (eligible req) cands with
  | [] => NotFound
  | c :: rest => Found (nearest req c rest)
  end.

(** Modelled from the spec: the policy switch of the missing resolver,
    "policy in {strict, fallback}". *)
Definition resolve (policy : Policy) (req : QuoteRequest)
  (cands : list PriceRecord) : Outcome :=
  match policy with
  | strict => resolve_strict req cands
  | fallback => resolve_fallback req cands
  end.

End LookupResolver.

(* ================================================================== *)
(** * Inputs and predicates used in the statements *)
(* ================================================================== *)

Definition with_numbers (x y z q : jsval) (d : QuoteFields) : QuoteFields :=
  {| fefco := fefco d; x_mm := x; y_mm := y; z_mm := z;
     material := material d; print := print d; qty := q;
     sla_type := sla_type d; company := company d;
     contact_name := contact_name d; city := city d; phone := phone d;
     email := email d; tg_username := tg_username d |}.

Definition with_print (v : jsval) (d : QuoteFields) : QuoteFields :=
  {| fefco := fefco d; x_mm := x_mm d; y_mm := y_mm d; z_mm := z_mm d;
     material := material d; print := v; qty := qty d;
     sla_type := sla_type d; company := company d;
     contact_name := contact_name d; city := city d; phone := phone d;
     email := email d; tg_username := tg_username d |}.

Definition with_contacts (c n t p e g : jsval) (d : QuoteFields) : QuoteFields :=
  {| fefco := fefco d; x_mm := x_mm d; y_mm := y_mm d; z_mm := z_mm d;
     material := material d; print := print d; qty := qty d;
     sla_type := sla_type d; company := c; contact_name := n; city := t;
     phone := p; email := e; tg_username := g |}.

Definition with_style (f m : jsval) (d : QuoteFields) : QuoteFields :=
  {| fefco := f; x_mm := x_mm d; y_mm := y_mm d; z_mm := z_mm d;
     material := m; print := print d; qty := qty d;
     sla_type := sla_type d; company := company d;
     contact_name := contact_name d; city := city d; phone := phone d;
     email := email d; tg_username := tg_username d |}.

Definition with_email (v : jsval) (d : QuoteFields) : QuoteFields :=
  with_contacts (company d) (contact_name d) (city d) (phone d) v
    (tg_username d) d.

Definition with_tg (v : jsval) (d : QuoteFields) : QuoteFields :=
  with_contacts (company d) (contact_name d) (city d) (phone d) (email d) v d.

Definition with_x (v : jsval) (d : QuoteFields) : QuoteFields :=
  with_numbers v (y_mm d) (z_mm d) (qty d) d.

Definition with_qty (v : jsval) (d : QuoteFields) : QuoteFields :=
  with_numbers (x_mm d) (y_mm d) (z_mm d) v d.

(** [v] is a number whose value is an integer between [lo] and [hi]. *)
Definition int_between (lo hi : Z) (v : jsval) : Prop :=
  exists (n : Z) (q : Q),
    v = JNumber (Finite q) /\ (q == inject_Z n)%Q /\ (lo <= n <= hi)%Z.

(** [safeParse] succeeds on a field. *)
Definition parses (s : Zod.Schema) (v : jsval) : bool :=
  match s v with
  | Some _ => true
  | None => false
  end.

(** The test input with every optional field left as the empty string. *)
Definition blank_form : QuoteFields :=
  with_print (JString (lit ""))
    (with_contacts (JString (lit "")) (JString (lit "")) (JString (lit ""))
       (JString (lit "")) (JString (lit "")) (JString (lit "")) base).

(** The test input with an empty company name only. *)
Definition blank_company_form : QuoteFields :=
  with_contacts (JString (lit "")) JUndefined JUndefined JUndefined
    JUndefined JUndefined base.

(** The input with the empty string replaced by undefined in the three
    fields whose first alternative rejects it. *)
Definition blanks_dropped (d : QuoteFields) : QuoteFields :=
  {| fefco := fefco d; x_mm := x_mm d; y_mm := y_mm d; z_mm := z_mm d;
     material := material d;
     print := Part001.blank_to_undefined (print d);
     qty := qty d; sla_type := sla_type d; company := company d;
     contact_name := contact_name d; city := city d; phone := phone d;
     email := Part001.blank_to_undefined (email d);
     tg_username := Part001.blank_to_undefined (tg_username d) |}.

(** The payloads [p1] and [p2] made from the input [data] agree in every
    field, a free-text field ([company], [contact_name], [city], [phone])
    that [data] leaves as the empty string apart: about such a field
    nothing is said. *)
Definition agree_outside_blank_text (data p1 p2 : QuoteFields) : Prop :=
  fefco p1 = fefco p2 /\ x_mm p1 = x_mm p2 /\ y_mm p1 = y_mm p2
  /\ z_mm p1 = z_mm p2 /\ material p1 = material p2
  /\ print p1 = print p2 /\ qty p1 = qty p2 /\ sla_type p1 = sla_type p2
  /\ (company data <> JString (lit "") -> company p1 = company p2)
  /\ (contact_name data <> JString (lit "") ->
      contact_name p1 = contact_name p2)
  /\ (city data <> JString (lit "") -> city p1 = city p2)
  /\ (phone data <> JString (lit "") -> phone p1 = phone p2)
  /\ email p1 = email p2 /\ tg_username p1 = tg_username p2.

(** A schema that gives back its input whenever it parses. *)
Definition preserving (s : Zod.Schema) : Prop :=
  forall v w, s v = Some w -> w = v.

(** The test input with the contact fields of the documented request. *)
Definition contact_form : QuoteFields :=
  with_print (JString (lit "1+0"))
    (with_contacts (JString (lit "ООО Ромашка")) (JString (lit "Иван"))
       (JString (lit "Уфа")) (JString (lit "+7 999 000-00-00"))
       (JString (lit "test@example.com")) (JString (lit "@client")) base).

(** A gateway error page, as a proxy in front of the server sends it. *)
Definition error_page_text : jsstring :=
  lit "<html>Traceback (most recent call last): File app/main.py, line 42, in create_quote</html>".

Definition error_page : Browser.Response :=
  {| Browser.content_type := Some (lit "text/html; charset=utf-8");
     Browser.statusText := lit "Bad Gateway";
     Browser.text := Browser.Resolved error_page_text;
     Browser.json :=
       Browser.Rejected
         {| Browser.String_of := lit "SyntaxError: Unexpected token <" |} |}.

(** The successful answer of the integration test. *)
Definition ok_response : Browser.Response :=
  {| Browser.content_type := Some (lit "application/json");
     Browser.statusText := lit "OK";
     Browser.text := Browser.Resolved (lit "");
     Browser.json :=
       Browser.Resolved
         (Browser.ApiSuccess (lit "https://x/pdf/web-123.pdf") (lit "web-123")) |}.

(** The 404 answer of the integration test. *)
Definition not_found_response : Browser.Response :=
  {| Browser.content_type := Some (lit "application/json");
     Browser.statusText := lit "Not Found";
     Browser.text := Browser.Resolved (lit "");
     Browser.json := Browser.Resolved (Browser.ApiError (lit "Прайс не найден")) |}.


(** The non-empty strings held by the fields that identify a person. *)
Definition pii_values (p : QuoteFields) : list jsstring :=
  flat_map (fun v => match v with
                     | JString (c :: s) => [c :: s]
                     | _ => []
                     end)
    [company p; contact_name p; city p; phone p; email p; tg_username p].

(** A console argument shows the string [v] as it is. *)
Definition arg_shows (v : jsstring) (a : Browser.LogArg) : bool :=
  match a with
  | Browser.LogString s => includes s v
  | Browser.LogObject o =>
      existsb (fun kv => match snd kv with
                         | JString s => includes s v
                         | _ => false
                         end)
        (Browser.members o)
  end.

Definition console_shows (v : jsstring) (w : Browser.World) : bool :=
  existsb (existsb (arg_shows v)) (Browser.console w).

(** The request of scenario A and two catalogue records for it. *)
Definition scenario_request : LookupResolver.QuoteRequest :=
  {| LookupResolver.req_fefco := "0201";
     LookupResolver.req_x := 300;
     LookupResolver.req_y := 200;
     LookupResolver.req_z := 150;
     LookupResolver.req_material := "Микрогофрокартон Крафт";
     LookupResolver.req_print := None;
     LookupResolver.req_qty := 1000;
     LookupResolver.req_sla_type := "стандарт" |}.

Definition scenario_band (lo hi : Z) (code : string)
  : LookupResolver.PriceRecord :=
  {| LookupResolver.rec_fefco := "0201";
     LookupResolver.rec_x := 300;
     LookupResolver.rec_y := 200;
     LookupResolver.rec_z := 150;
     LookupResolver.rec_material := "Микрогофрокартон Крафт";
     LookupResolver.rec_print := None;
     LookupResolver.rec_sla_type := "стандарт";
     LookupResolver.qty_min := lo;
     LookupResolver.qty_max := hi;
     LookupResolver.sku := code |}.

(** A record of another box style, not eligible for the request. *)
Definition other_style_band : LookupResolver.PriceRecord :=
  {| LookupResolver.rec_fefco := "0427";
     LookupResolver.rec_x := 300;
     LookupResolver.rec_y := 200;
     LookupResolver.rec_z := 150;
     LookupResolver.rec_material := "Микрогофрокартон Крафт";
     LookupResolver.rec_print := None;
     LookupResolver.rec_sla_type := "стандарт";
     LookupResolver.qty_min := 1;
     LookupResolver.qty_max := 100000;
     LookupResolver.sku := "X" |}.

(** [a] is at least as good a choice as [b] for a request of quantity
    [qty]: its band midpoint is nearer to [qty], or as near with a band
    that does not start later. *)
Definition no_worse (qty : Z) (a b : LookupResolver.PriceRecord) : Prop :=
  (Z.abs (qty - (LookupResolver.qty_min a + LookupResolver.qty_max a) / 2)
   < Z.abs (qty - (LookupResolver.qty_min b + LookupResolver.qty_max b) / 2)
   \/ (Z.abs (qty - (LookupResolver.qty_min a + LookupResolver.qty_max a) / 2)
       = Z.abs (qty - (LookupResolver.qty_min b + LookupResolver.qty_max b) / 2)
       /\ LookupResolver.qty_min a <= LookupResolver.qty_min b))%Z.

(* ================================================================== *)
(** * Strings and schema combinators *)
(* ================================================================== *)

Lemma str_eqb_eq (a b : jsstring) : str_eqb a b = true <-> a = b.
Proof.
  revert b; induction a as [|x a IH]; intros [|y b]; simpl;
    try (split; [discriminate | discriminate]); try tauto.
  rewrite andb_true_iff, N.eqb_eq, IH.
  split; [intros [-> ->]; reflexivity | intros H; inversion H; auto].
Qed.

Lemma str_eqb_refl (a : jsstring) : str_eqb a a = true.
Proof. now apply str_eqb_eq. Qed.

Lemma existsb_str_eqb (s : jsstring) (l : list jsstring) :
  existsb (str_eqb s) l = true <-> In s l.
Proof.
  rewrite existsb_exists; split.
  - intros [x [Hin Heq]]. apply str_eqb_eq in Heq. now subst.
  - intros Hin. exists s. split; [assumption | apply str_eqb_refl].
Qed.

Lemma starts_with_refl (s : jsstring) : starts_with s s = true.
Proof. induction s as [|c s IH]; simpl; [reflexivity|]. now rewrite N.eqb_refl. Qed.

Lemma starts_with_app (s t : jsstring) : starts_with s (s ++ t) = true.
Proof. induction s as [|c s IH]; simpl; [reflexivity|]. now rewrite N.eqb_refl. Qed.

Lemma includes_app (p s t : jsstring) : includes (p ++ s ++ t) s = true.
Proof.
  induction p as [|c p IH]; simpl.
  - destruct s; simpl.
    + destruct t; reflexivity.
    + rewrite N.eqb_refl, starts_with_app. reflexivity.
  - rewrite IH. apply orb_true_r.
Qed.

Section Combinators.

Import Zod.

Lemma z_check_Some ok s v w :
  z_check ok s v = Some w <-> s v = Some w /\ ok w = true.
Proof.
  unfold z_check. destruct (s v) as [u|]; [|split; [discriminate | intros [H _]; discriminate]].
  destruct (ok u) eqn:E; split.
  - intros H; inversion H; subst; auto.
  - intros [H _]; exact H.
  - discriminate.
  - intros [H K]; inversion H; subst. congruence.
Qed.

Lemma isInteger_spec (q : Q) :
  isInteger (Finite q) = true ->
  (q == inject_Z (Qnum q / Zpos (Qden q)))%Q.
Proof.
  simpl. intros H. apply Z.eqb_eq in H.
  unfold Qeq, inject_Z; simpl.
  rewrite Z.mul_1_r.
  rewrite (Z.div_mod (Qnum q) (Zpos (Qden q))) at 1 by discriminate.
  rewrite H. ring.
Qed.

Lemma isInteger_inject (q : Q) (n : Z) :
  (q == inject_Z n)%Q -> isInteger (Finite q) = true.
Proof.
  unfold Qeq, inject_Z; simpl. intros H. rewrite Z.mul_1_r in H.
  apply Z.eqb_eq. rewrite H. apply Z.mod_mul. discriminate.
Qed.

Lemma not_below_spec (k : Z) (q : Q) :
  negb (num_ltb (Finite q) (of_Z k)) = true <-> (inject_Z k <= q)%Q.
Proof.
  unfold num_ltb, of_Z. rewrite negb_involutive. apply Qle_bool_iff.
Qed.

Lemma not_above_spec (k : Z) (q : Q) :
  negb (num_ltb (of_Z k) (Finite q)) = true <-> (q <= inject_Z k)%Q.
Proof.
  unfold num_ltb, of_Z. rewrite negb_involutive. apply Qle_bool_iff.
Qed.

(** A number field with [.int().min(lo).max(hi)] parses exactly the integers
    of the range, and leaves them as they are. *)
Lemma bounded_int_Some (lo hi : Z) (v w : jsval) :
  (z_number |> z_int |> z_min lo |> z_max hi) v = Some w <->
  w = v /\ int_between lo hi v.
Proof.
  unfold z_max, z_min, z_int. rewrite !z_check_Some. split.
  - intros [[[Hn Hi] Hlo] Hhi].
    unfold z_number in Hn.
    destruct v as [| |b|n|s|]; try discriminate.
    destruct n as [|neg|q]; try discriminate; inversion Hn; subst w.
    + simpl in Hi. discriminate.
    + split; [reflexivity|].
      simpl in Hi, Hlo, Hhi.
      pose proof (isInteger_spec q Hi) as Hq.
      apply not_below_spec in Hlo. apply not_above_spec in Hhi.
      exists (Qnum q / Zpos (Qden q))%Z, q. split; [reflexivity|]. split; [exact Hq|].
      rewrite Hq in Hlo, Hhi. rewrite <- Zle_Qle in Hlo, Hhi. lia.
  - intros [-> (n & q & -> & Hq & Hlo & Hhi)]. simpl.
    repeat split.
    + eapply isInteger_inject; eauto.
    + apply not_below_spec. rewrite Hq, <- Zle_Qle. lia.
    + apply not_above_spec. rewrite Hq, <- Zle_Qle. lia.
Qed.

Lemma bounded_int_parses (lo hi : Z) (v : jsval) :
  parses (z_number |> z_int |> z_min lo |> z_max hi) v = true <->
  int_between lo hi v.
Proof.
  unfold parses.
  destruct ((z_number |> z_int |> z_min lo |> z_max hi) v) as [w|] eqn:E.
  - apply bounded_int_Some in E. tauto.
  - split; [discriminate|]. intros H.
    assert (K : (z_number |> z_int |> z_min lo |> z_max hi) v = Some v)
      by (apply bounded_int_Some; auto).
    congruence.
Qed.

End Combinators.

(* ================================================================== *)
(** * validation.ts: the schema field by field *)
(* ================================================================== *)

(** Splits the parse of an object on its first field that is still open. *)
Ltac split_first_field :=
  lazymatch goal with
  | |- match (match ?e with Some _ => _ | None => _ end) with
       | Some _ => _ | None => _ end = _ =>
      destruct e; cbv beta iota delta [andb]; [| reflexivity]
  end.

Section ValidationFields.

Import Zod Options Validation.

(** The object parses exactly when each of its fields does. *)
Lemma accepts_fields (data : QuoteFields) :
  accepts data =
    parses (z_enum fefcoOptions) (fefco data)
    && parses (z_number |> z_int |> z_min 20 |> z_max 1200) (x_mm data)
    && parses (z_number |> z_int |> z_min 20 |> z_max 1200) (y_mm data)
    && parses (z_number |> z_int |> z_min 20 |> z_max 1200) (z_mm data)
    && parses (z_enum materialOptions) (material data)
    && parses (z_enum printOptions |> z_optional |> z_or empty_to_undefined)
         (print data)
    && parses (z_number |> z_int |> z_min 1 |> z_max 100000) (qty data)
    && parses (z_enum slaOptions) (sla_type data)
    && parses (z_string |> z_maxlen 120 |> z_optional |> z_or empty_to_undefined)
         (company data)
    && parses (z_string |> z_maxlen 80 |> z_optional |> z_or empty_to_undefined)
         (contact_name data)
    && parses (z_string |> z_maxlen 80 |> z_optional |> z_or empty_to_undefined)
         (city data)
    && parses (z_string |> z_optional |> z_or empty_to_undefined) (phone data)
    && parses (z_string |> z_regex email_re |> z_optional |> z_or empty_to_undefined)
         (email data)
    && parses (z_string |> z_regex tg_re |> z_optional |> z_or empty_to_undefined)
         (tg_username data).
Proof.
  unfold accepts, quoteSchema, parses.
  do 14 split_first_field. reflexivity.
Qed.

(** The print field parses exactly when it is undefined, the empty string
    or one of the options. *)
Lemma print_field_parses (v : jsval) :
  parses (z_enum printOptions |> z_optional |> z_or empty_to_undefined) v
    = true <->
  v = JUndefined \/ v = JString (lit "")
  \/ exists s, In s printOptions /\ v = JString s.
Proof.
  unfold parses, z_or, z_optional, z_enum, empty_to_undefined, z_transform,
    z_literal.
  destruct v as [| |b|n|s|]; try (split; [discriminate | intros [H|[H|(x & _ & H)]]; discriminate]).
  - split; auto.
  - destruct (existsb (str_eqb s) printOptions) eqn:E.
    + split; [|reflexivity]. intros _. right; right. exists s.
      split; [now apply existsb_str_eqb | reflexivity].
    + destruct (str_eqb s (lit "")) eqn:F.
      * apply str_eqb_eq in F. subst. split; auto.
      * split; [discriminate|].
        intros [H|[H|(x & Hin & H)]]; try discriminate.
        -- inversion H. subst. rewrite str_eqb_refl in F. discriminate.
        -- inversion H. subst. apply existsb_str_eqb in Hin. congruence.
Qed.

End ValidationFields.

Ltac project_fields :=
  cbn [with_numbers with_print with_contacts
       fefco x_mm y_mm z_mm material print qty sla_type company contact_name
       city phone email tg_username].

Section ValidationClaims.

Import Zod Options Validation.

(** C3: [quoteSchema] accepts an input only if [x_mm], [y_mm] and [z_mm] are
    integers between 20 and 1200 and [qty] is an integer between 1 and
    100000; an input in which one of them is not such a number is rejected;
    and an accepted input stays accepted when the dimensions and the
    quantity are replaced by any integers of those ranges, the boundary
    values 20, 1200, 1 and 100000 included. *)
Theorem quoteSchema_number_ranges (data : QuoteFields) :
  (accepts data = true ->
     int_between 20 1200 (x_mm data) /\ int_between 20 1200 (y_mm data)
     /\ int_between 20 1200 (z_mm data) /\ int_between 1 100000 (qty data))
  /\ (~ (int_between 20 1200 (x_mm data) /\ int_between 20 1200 (y_mm data)
         /\ int_between 20 1200 (z_mm data) /\ int_between 1 100000 (qty data)) ->
      accepts data = false)
  /\ (accepts data = true ->
      forall x y z q : Z,
        (20 <= x <= 1200)%Z -> (20 <= y <= 1200)%Z -> (20 <= z <= 1200)%Z ->
        (1 <= q <= 100000)%Z ->
        accepts (with_numbers (JNumber (of_Z x)) (JNumber (of_Z y))
                   (JNumber (of_Z z)) (JNumber (of_Z q)) data) = true).
Proof.
  assert (Honly : accepts data = true ->
     int_between 20 1200 (x_mm data) /\ int_between 20 1200 (y_mm data)
     /\ int_between 20 1200 (z_mm data) /\ int_between 1 100000 (qty data)).
  { rewrite accepts_fields, !andb_true_iff, !bounded_int_parses. tauto. }
  split; [exact Honly|]. split.
  - intros Hnot. destruct (accepts data); [|reflexivity].
    exfalso. apply Hnot, Honly. reflexivity.
  - intros Hacc x y z q Hx Hy Hz Hq.
    rewrite accepts_fields in Hacc |- *. project_fields.
    rewrite !andb_true_iff in Hacc |- *. rewrite !bounded_int_parses.
    assert (Hint : forall lo hi n, (lo <= n <= hi)%Z ->
                     int_between lo hi (JNumber (of_Z n))).
    { intros lo hi n Hn. exists n, (inject_Z n). repeat split; try lia. }
    repeat split; try tauto; apply Hint; assumption.
Qed.

(** C7: [print] is an optional enum field.  An input whose [print] is
    absent or one of the five options is accepted whenever its other fields
    are (it parses like the same input without [print], and the test input
    is accepted with each of them); an input whose [print] is any other
    value than the empty string is rejected. *)
Theorem print_is_an_optional_enum (data : QuoteFields) :
  printOptions = map lit ["без печати"; "1+0"; "2+0"; "4+0"; "4+4"]%string
  /\ ((print data = JUndefined
       \/ exists s, In s printOptions /\ print data = JString s) ->
      accepts data = accepts (with_print JUndefined data))
  /\ (print data <> JUndefined -> print data <> JString (lit "") ->
      (forall s, In s printOptions -> print data <> JString s) ->
      accepts data = false)
  /\ accepts (with_print JUndefined base) = true
  /\ (forall s, In s printOptions ->
        accepts (with_print (JString s) base) = true).
Proof.
  split; [reflexivity|]. split; [|split; [|split]].
  - intros H. rewrite !accepts_fields. project_fields.
    assert (P1 : parses (z_enum printOptions |> z_optional
                         |> z_or empty_to_undefined) (print data) = true)
      by (apply print_field_parses; tauto).
    assert (P2 : parses (z_enum printOptions |> z_optional
                         |> z_or empty_to_undefined) JUndefined = true)
      by reflexivity.
    rewrite P1, P2. reflexivity.
  - intros Hu He Ho. rewrite accepts_fields.
    destruct (parses (z_enum printOptions |> z_optional
                      |> z_or empty_to_undefined) (print data)) eqn:P.
    + apply print_field_parses in P.
      destruct P as [P|[P|(s & Hin & P)]]; [tauto | tauto |].
      exfalso. exact (Ho s Hin P).
    + rewrite ?andb_false_r. reflexivity.
  - vm_compute. reflexivity.
  - intros s Hin.
    repeat (destruct Hin as [<-|Hin]; [vm_compute; reflexivity|]).
    destruct Hin.
Qed.

End ValidationClaims.

Lemma quoteSchema_number_ranges_witness :
  (int_between 20 1200 (x_mm base) /\ int_between 20 1200 (y_mm base)
   /\ int_between 20 1200 (z_mm base) /\ int_between 1 100000 (qty base))
  /\ Validation.accepts
       (with_numbers (JNumber (of_Z 20)) (JNumber (of_Z 1200))
          (JNumber (of_Z 20)) (JNumber (of_Z 1)) base) = true
  /\ Validation.accepts
       (with_numbers (JNumber (of_Z 1200)) (JNumber (of_Z 20))
          (JNumber (of_Z 1200)) (JNumber (of_Z 100000)) base) = true.
Proof.
  destruct (quoteSchema_number_ranges base) as [Honly [_ Hif]].
  assert (Hbase : Validation.accepts base = true) by (vm_compute; reflexivity).
  split; [exact (Honly Hbase)|].
  split; apply (Hif Hbase); lia.
Defined.

Lemma print_is_an_optional_enum_witness :
  Validation.accepts (with_print (JString (lit "4+4")) base)
    = Validation.accepts
        (with_print JUndefined (with_print (JString (lit "4+4")) base))
  /\ Validation.accepts (with_print (JString (lit "5+5")) base) = false.
Proof.
  destruct (print_is_an_optional_enum (with_print (JString (lit "4+4")) base))
    as (_ & Hopt & _).
  destruct (print_is_an_optional_enum (with_print (JString (lit "5+5")) base))
    as (_ & _ & Hrej & _).
  split.
  - apply Hopt. right. exists (lit "4+4"). split; [|reflexivity].
    vm_compute. tauto.
  - apply Hrej.
    + discriminate.
    + vm_compute. discriminate.
    + intros s Hin.
      repeat (destruct Hin as [<-|Hin]; [vm_compute; discriminate|]).
      destruct Hin.
Defined.

(* ================================================================== *)
(** * Empty strings in optional fields, and the two copies of the schema *)
(* ================================================================== *)

Section Preserving.

Import Zod.

Lemma preserving_enum options : preserving (z_enum options).
Proof.
  intros v w. unfold z_enum. destruct v; try discriminate.
  destruct (existsb _ _); [|discriminate]. intros H; inversion H; reflexivity.
Qed.

Lemma preserving_number : preserving z_number.
Proof.
  intros v w. unfold z_number. destruct v as [| |b|[|neg|q]|s|];
    try discriminate; intros H; inversion H; reflexivity.
Qed.

Lemma preserving_string : preserving z_string.
Proof.
  intros v w. unfold z_string. destruct v; try discriminate.
  intros H; inversion H; reflexivity.
Qed.

Lemma preserving_check ok s : preserving s -> preserving (z_check ok s).
Proof. intros P v w H. apply z_check_Some in H. apply P. tauto. Qed.

Lemma preserving_optional s : preserving s -> preserving (z_optional s).
Proof.
  intros P v w. unfold z_optional. destruct v; try apply P.
  intros H; inversion H; reflexivity.
Qed.

(** Away from the empty string the second alternative of
    [.or(z.literal('').transform(...))] never parses. *)
Lemma or_empty_skipped (a : Schema) (v : jsval) :
  v <> JString (lit "") ->
  z_or Validation.empty_to_undefined a v = a v.
Proof.
  intros Hv. unfold z_or. destruct (a v); [reflexivity|].
  unfold Validation.empty_to_undefined, z_transform, z_literal.
  destruct v; try reflexivity.
  destruct (str_eqb s (lit "")) eqn:E; [|reflexivity].
  apply str_eqb_eq in E. subst. contradiction.
Qed.

Lemma blank_to_undefined_id (v : jsval) :
  v <> JString (lit "") -> Part001.blank_to_undefined v = v.
Proof.
  intros Hv. destruct v as [| |b|n|s|]; try reflexivity.
  destruct s; [contradiction | reflexivity].
Qed.

End Preserving.

Ltac preserve :=
  unfold Zod.z_max, Zod.z_min, Zod.z_int, Zod.z_maxlen, Zod.z_regex,
    Zod.z_format;
  repeat first [apply preserving_check | apply preserving_optional];
  first [apply preserving_enum | apply preserving_number
        | apply preserving_string].

(** Opens a successful parse of the object into one equation per field. *)
Ltac open_parse H :=
  repeat lazymatch type of H with
    | match ?e with Some _ => _ | None => _ end = _ =>
        destruct e eqn:?; [|discriminate H]
    end;
  inversion H; subst; clear H.

Ltac field_unchanged :=
  repeat match goal with
    | E : ?s ?v = Some ?w |- _ =>
        let K := fresh in
        assert (K : w = v) by (revert E; generalize v, w; preserve);
        clear E; try subst w
    end.

Section Copies.

Import Zod Options.

Variable email_format : jsstring -> bool.

Lemma part001_accepts_fields (data : QuoteFields) :
  Part001.accepts email_format data =
    parses (z_enum fefcoOptions) (fefco data)
    && parses (z_number |> z_int |> z_min 20 |> z_max 1200) (x_mm data)
    && parses (z_number |> z_int |> z_min 20 |> z_max 1200) (y_mm data)
    && parses (z_number |> z_int |> z_min 20 |> z_max 1200) (z_mm data)
    && parses (z_enum materialOptions) (material data)
    && parses (z_enum printOptions |> z_optional) (print data)
    && parses (z_number |> z_int |> z_min 1 |> z_max 100000) (qty data)
    && parses (z_enum slaOptions) (sla_type data)
    && parses (z_string |> z_maxlen 120 |> z_optional) (company data)
    && parses (z_string |> z_maxlen 80 |> z_optional) (contact_name data)
    && parses (z_string |> z_maxlen 80 |> z_optional) (city data)
    && parses (z_string |> z_optional) (phone data)
    && parses (z_string |> z_format email_format |> z_optional) (email data)
    && parses (z_string |> z_regex Validation.tg_re |> z_optional)
         (tg_username data).
Proof.
  unfold Part001.accepts, Part001.quoteSchema, parses.
  do 14 split_first_field. reflexivity.
Qed.

(** The second copy never changes a field. *)
Lemma part001_output (data out : QuoteFields) :
  Part001.quoteSchema email_format data = Some out -> out = data.
Proof.
  intros H. unfold Part001.quoteSchema in H. open_parse H.
  field_unchanged. destruct data; reflexivity.
Qed.

(** The output of a field whose first alternative also takes the empty
    string: always the input. *)
Lemma or_field_kept (a : Schema) (v w : jsval) :
  preserving a -> a (JString (lit "")) <> None ->
  z_or Validation.empty_to_undefined a v = Some w -> w = v.
Proof.
  intros Pa Hblank. unfold z_or. destruct (a v) as [u|] eqn:E.
  - intros H. inversion H; subst. apply Pa. exact E.
  - unfold Validation.empty_to_undefined, z_transform, z_literal.
    destruct v as [| |b|n|s|]; try discriminate.
    destruct (str_eqb s (lit "")) eqn:F; [|discriminate].
    apply str_eqb_eq in F. subst s. contradiction.
Qed.

(** The output of a field whose first alternative rejects the empty
    string: the input, with the empty string turned into undefined. *)
Lemma or_field_dropped (a : Schema) (v w : jsval) :
  preserving a -> a (JString (lit "")) = None ->
  z_or Validation.empty_to_undefined a v = Some w ->
  w = Part001.blank_to_undefined v.
Proof.
  intros Pa Hblank. unfold z_or. destruct (a v) as [u|] eqn:E.
  - intros H. inversion H; subst. rewrite (Pa _ _ E).
    symmetry. apply blank_to_undefined_id. intros ->. congruence.
  - unfold Validation.empty_to_undefined, z_transform, z_literal.
    destruct v as [| |b|n|s|]; try discriminate.
    destruct (str_eqb s (lit "")) eqn:F; [|discriminate].
    apply str_eqb_eq in F. subst s. intros H. inversion H. reflexivity.
Qed.

(** Where the first alternative takes the empty string, the second one
    adds nothing to what the field accepts. *)
Lemma or_empty_redundant (a : Schema) (v : jsval) :
  a (JString (lit "")) <> None ->
  parses (z_or Validation.empty_to_undefined a) v = parses a v.
Proof.
  intros Hblank. unfold parses, z_or. destruct (a v) as [u|] eqn:E;
    [reflexivity|].
  unfold Validation.empty_to_undefined, z_transform, z_literal.
  destruct v as [| |b|n|s|]; try reflexivity.
  destruct (str_eqb s (lit "")) eqn:F; [|reflexivity].
  apply str_eqb_eq in F. subst s. contradiction.
Qed.

(** What a successful parse of validation.ts returns. *)
Lemma quoteSchema_output (data out : QuoteFields) :
  Validation.quoteSchema data = Some out -> out = blanks_dropped data.
Proof.
  intros H. unfold Validation.quoteSchema in H. open_parse H.
  repeat match goal with
    | E : z_or _ (z_optional (z_enum _)) _ = Some _ |- _ =>
        apply or_field_dropped in E;
        [| preserve | vm_compute; reflexivity]
    | E : z_or _ (z_optional (z_regex _ z_string)) _ = Some _ |- _ =>
        apply or_field_dropped in E;
        [| preserve | vm_compute; reflexivity]
    | E : z_or _ (z_optional (z_maxlen _ z_string)) _ = Some _ |- _ =>
        apply or_field_kept in E;
        [| preserve | vm_compute; discriminate]
    | E : z_or _ (z_optional z_string) _ = Some _ |- _ =>
        apply or_field_kept in E;
        [| preserve | vm_compute; discriminate]
    end.
  field_unchanged. subst. unfold blanks_dropped. destruct data; reflexivity.
Qed.

End Copies.

Section CopiesCompared.

Import Zod Options.

(** C9 (as the code behaves): with every optional field left empty the
    input parses; [print], [email] and [tg_username] come out undefined,
    but [company], [contact_name], [city] and [phone] keep the empty
    string, which is then written into the request body. *)
Theorem blank_fields_after_parsing :
  exists values,
    Validation.quoteSchema blank_form = Some values
    /\ print (Validation.toPayload values) = JUndefined
    /\ email (Validation.toPayload values) = JUndefined
    /\ tg_username (Validation.toPayload values) = JUndefined
    /\ company (Validation.toPayload values) = JString (lit "")
    /\ contact_name (Validation.toPayload values) = JString (lit "")
    /\ city (Validation.toPayload values) = JString (lit "")
    /\ phone (Validation.toPayload values) = JString (lit "")
    /\ incl [ (lit "company", JString (lit ""));
              (lit "contact_name", JString (lit ""));
              (lit "city", JString (lit ""));
              (lit "phone", JString (lit "")) ]
         (Browser.JSON_stringify (Validation.toPayload values)).
Proof.
  destruct (Validation.quoteSchema blank_form) as [values|] eqn:E.
  - exists values. vm_compute in E. inversion E; subst values.
    repeat split; try reflexivity.
    intros kv Hin. vm_compute.
    repeat (destruct Hin as [<-|Hin]; [tauto|]). destruct Hin.
  - vm_compute in E. discriminate.
Qed.

(** C8 (counterexample): with [print] left as the empty string, which is
    what the print select box holds at "без печати", the schema of
    validation.ts accepts the input of the tests and the second copy
    rejects it, whatever its e-mail format check is. *)
Lemma schema_copies_differ_on_blank_fields :
  Validation.accepts (with_print (JString (lit "")) base) = true
  /\ forall email_format,
       Part001.accepts email_format (with_print (JString (lit "")) base)
         = false.
Proof.
  split.
  - vm_compute. reflexivity.
  - intros ef. rewrite part001_accepts_fields. project_fields.
    replace (parses (z_enum printOptions |> z_optional) (JString (lit "")))
      with false by (vm_compute; reflexivity).
    rewrite ?andb_false_r. reflexivity.
Qed.

(** C8 (amended): take an input on whose [email] the second copy's format
    check agrees with the pattern of validation.ts.  When none of [print],
    [email] and [tg_username] is the empty string, one schema parses the
    input if and only if the other does, whatever the other fields hold
    (an empty [company], [contact_name], [city] or [phone] included); when
    one of the three is the empty string the second copy rejects the
    input.  For an input that both parse, the two payloads agree in every
    field other than a [company], [contact_name], [city] or [phone] left
    as the empty string, and are equal when there is none. *)
Theorem schema_copies_agree_up_to_blank_fields
  (email_format : jsstring -> bool) (data : QuoteFields) :
  (forall s, email data = JString s ->
             email_format s = Regex.test Validation.email_re s) ->
  (print data <> JString (lit "") -> email data <> JString (lit "") ->
   tg_username data <> JString (lit "") ->
   Validation.accepts data = Part001.accepts email_format data)
  /\ (print data = JString (lit "") \/ email data = JString (lit "")
      \/ tg_username data = JString (lit "") ->
      Part001.accepts email_format data = false)
  /\ (forall d1 d2,
        Validation.quoteSchema data = Some d1 ->
        Part001.quoteSchema email_format data = Some d2 ->
        agree_outside_blank_text data
          (Validation.toPayload d1) (Part001.toPayload d2)
        /\ (company data <> JString (lit "") ->
            contact_name data <> JString (lit "") ->
            city data <> JString (lit "") ->
            phone data <> JString (lit "") ->
            Validation.toPayload d1 = Part001.toPayload d2)).
Proof.
  intros Hemail. split; [|split].
  - intros Hp He Hg.
    rewrite accepts_fields, part001_accepts_fields.
    assert (Hskip : forall a v, v <> JString (lit "") ->
              parses (z_or Validation.empty_to_undefined a) v = parses a v).
    { intros a v Hv. unfold parses. rewrite or_empty_skipped by exact Hv.
      reflexivity. }
    rewrite (Hskip _ _ Hp), (Hskip _ _ He), (Hskip _ _ Hg).
    rewrite !or_empty_redundant by (vm_compute; discriminate).
    replace (parses (z_string |> z_format email_format |> z_optional)
               (email data))
      with (parses (z_string |> z_regex Validation.email_re |> z_optional)
              (email data)); [reflexivity|].
    destruct (email data) as [| |b|n|s|] eqn:Ee; try reflexivity.
    unfold parses, z_optional, z_regex, z_format, z_check, z_string,
      on_string.
    rewrite (Hemail s eq_refl). reflexivity.
  - intros Hblank. rewrite part001_accepts_fields.
    destruct Hblank as [H|[H|H]]; rewrite H.
    + replace (parses (z_enum printOptions |> z_optional) (JString (lit "")))
        with false by (vm_compute; reflexivity).
      rewrite ?andb_false_r. reflexivity.
    + replace (parses (z_string |> z_format email_format |> z_optional)
                 (JString (lit "")))
        with false.
      * rewrite ?andb_false_r. reflexivity.
      * unfold parses, z_optional, z_format, z_check, z_string, on_string.
        rewrite (Hemail (lit "") H). vm_compute. reflexivity.
    + replace (parses (z_string |> z_regex Validation.tg_re |> z_optional)
                 (JString (lit "")))
        with false by (vm_compute; reflexivity).
      rewrite ?andb_false_r. reflexivity.
  - intros d1 d2 E1 E2.
    apply quoteSchema_output in E1. apply part001_output in E2.
    subst d1 d2.
    assert (Hagree : agree_outside_blank_text data
                       (Validation.toPayload (blanks_dropped data))
                       (Part001.toPayload data)).
    { unfold agree_outside_blank_text, Validation.toPayload,
        Part001.toPayload, blanks_dropped.
      project_fields.
      repeat split; try reflexivity;
        intros Hne; symmetry; apply blank_to_undefined_id; exact Hne. }
    split; [exact Hagree|].
    intros Hc Hn Ht Hph.
    unfold Validation.toPayload, Part001.toPayload, blanks_dropped.
    rewrite (blank_to_undefined_id _ Hc), (blank_to_undefined_id _ Hn),
      (blank_to_undefined_id _ Ht), (blank_to_undefined_id _ Hph).
    reflexivity.
Qed.

End CopiesCompared.

Lemma schema_copies_agree_witness :
  Validation.accepts
    (with_contacts (JString (lit "")) (JString (lit "Иван")) (JString (lit ""))
       (JString (lit "+7 999 000-00-00")) (JString (lit "test@example.com"))
       (JString (lit "@client")) base)
  = Part001.accepts (Regex.test Validation.email_re)
      (with_contacts (JString (lit "")) (JString (lit "Иван"))
         (JString (lit ""))
         (JString (lit "+7 999 000-00-00")) (JString (lit "test@example.com"))
         (JString (lit "@client")) base)
  /\ exists d1 d2,
       Validation.quoteSchema contact_form = Some d1
       /\ Part001.quoteSchema (Regex.test Validation.email_re) contact_form
          = Some d2
       /\ Validation.toPayload d1 = Part001.toPayload d2.
Proof.
  split.
  - destruct (schema_copies_agree_up_to_blank_fields
                (Regex.test Validation.email_re)
                (with_contacts (JString (lit "")) (JString (lit "Иван"))
                   (JString (lit "")) (JString (lit "+7 999 000-00-00"))
                   (JString (lit "test@example.com"))
                   (JString (lit "@client")) base)
                (fun s _ => eq_refl)) as [Hacc _].
    apply Hacc; vm_compute; discriminate.
  - destruct (schema_copies_agree_up_to_blank_fields
                (Regex.test Validation.email_re) contact_form
                (fun s _ => eq_refl)) as (_ & _ & Hpay).
    assert (E1 : exists d1, Validation.quoteSchema contact_form = Some d1)
      by (eexists; vm_compute; reflexivity).
    assert (E2 : exists d2,
               Part001.quoteSchema (Regex.test Validation.email_re)
                 contact_form = Some d2)
      by (eexists; vm_compute; reflexivity).
    destruct E1 as [d1 E1]. destruct E2 as [d2 E2].
    exists d1, d2. split; [exact E1|]. split; [exact E2|].
    apply (Hpay d1 d2 E1 E2); vm_compute; discriminate.
Defined.

(* ================================================================== *)
(** * api.ts and App.tsx: what a submission does *)
(* ================================================================== *)

Ltac run :=
  cbv beta iota zeta delta
    [App.onSubmit App.submit_values Api.postQuote Api.fetch
     Api.text_or_empty Api.read_json Browser.bind Browser.ret
     Browser.console_log Browser.record_request Browser.record_read
     Browser.pushEvent Browser.setStatus Browser.setResult fst snd
     Browser.console Browser.requests Browser.body_reads Browser.dataLayer
     Browser.status Browser.result App.render App.status_text
     App.result_card App.retry_button App.StatusBar negb].

Section Submission.

Import Browser.

Variable API_BASE : jsstring.
Variable csrfToken : option jsstring.
Variable network : Request -> Promise Response.


(** The whole effect of [postQuote] on a response that is not JSON. *)
Lemma postQuote_non_json_run
  (payload : QuoteFormPayload) (w0 : World) (res : Response) :
  network (Api.quote_request API_BASE csrfToken payload) = Resolved res ->
  includes (or_else (content_type res) (lit "")) (lit "application/json")
    = false ->
  Api.postQuote API_BASE csrfToken network payload w0
  = (Resolved
       (ApiError
          (lit "Unexpected response: "
           ++ match text res with
              | Resolved (c :: t) => c :: t
              | _ => statusText res
              end)),
     {| console := console w0
                   ++ [[LogString (lit "postQuote called"); LogObject payload]];
        requests := requests w0
                    ++ [Api.quote_request API_BASE csrfToken payload];
        body_reads := body_reads w0 ++ [ReadText];
        dataLayer := dataLayer w0; status := status w0;
        result := result w0 |}).
Proof.
  intros Hnet Hct. run. rewrite Hnet. cbv beta iota. rewrite Hct.
  cbv beta iota. destruct (text res) as [[|c t]|err]; reflexivity.
Qed.

(** C10: when the content type of the response does not contain
    [application/json], [postQuote] resolves (it does not throw) to
    [{ok:false, error}] where [error] is [Unexpected response: ] followed by
    the response text, or by the status text when the text is empty or
    cannot be read; the body is read as text once and never parsed as
    JSON. *)
Theorem postQuote_non_json_response
  (payload : QuoteFormPayload) (w0 : World) (res : Response) :
  network (Api.quote_request API_BASE csrfToken payload) = Resolved res ->
  includes (or_else (content_type res) (lit "")) (lit "application/json")
    = false ->
  fst (Api.postQuote API_BASE csrfToken network payload w0)
    = Resolved
        (ApiError
           (lit "Unexpected response: "
            ++ match text res with
               | Resolved (c :: t) => c :: t
               | _ => statusText res
               end))
  /\ body_reads (snd (Api.postQuote API_BASE csrfToken network payload w0))
     = body_reads w0 ++ [ReadText]
  /\ ~ In ReadJson
         (skipn (List.length (body_reads w0))
            (body_reads
               (snd (Api.postQuote API_BASE csrfToken network payload w0)))).
Proof.
  intros Hnet Hct.
  rewrite (postQuote_non_json_run payload w0 res Hnet Hct).
  cbn [fst snd body_reads]. split; [reflexivity|]. split; [reflexivity|].
  rewrite skipn_app, skipn_all, Nat.sub_diag. simpl.
  intros [H|[]]. discriminate.
Qed.

End Submission.

Section SubmissionOutcome.

Import Browser.

Variable API_BASE : jsstring.
Variable csrfToken : option jsstring.
Variable network : Request -> Promise Response.





End SubmissionOutcome.

(** Discharges the premises of a statement instantiated at concrete data
    by evaluation. *)
Ltac feed H :=
  repeat lazymatch type of H with
    | ?P -> _ =>
        let K := fresh in
        assert (K : P) by (vm_compute; reflexivity); specialize (H K)
    end.

(** Replaces the text shown for [error_page] by its value. *)
Ltac show_error_page H :=
  match type of H with
  | context [lit "Unexpected response: " ++ ?m] =>
      replace m with error_page_text in H by (vm_compute; reflexivity)
  end.

Lemma base_parses : Validation.quoteSchema base = Some base.
Proof. vm_compute. reflexivity. Qed.



Lemma postQuote_non_json_response_witness :
  fst (Api.postQuote (lit "") None (fun _ => Browser.Resolved error_page)
         base Browser.initial)
    = Browser.Resolved
        (Browser.ApiError (lit "Unexpected response: " ++ error_page_text))
  /\ Browser.body_reads
       (snd (Api.postQuote (lit "") None
               (fun _ => Browser.Resolved error_page) base Browser.initial))
     = [Browser.ReadText].
Proof.
  pose proof (postQuote_non_json_response (lit "") None
                (fun _ => Browser.Resolved error_page) base Browser.initial
                error_page) as H.
  feed H. destruct H as (Hres & Hreads & _).
  show_error_page Hres. split; [exact Hres | exact Hreads].
Defined.

(** C1 (as the code behaves): submitting the documented request writes two
    console records, each holding the whole object with the phone number,
    the e-mail address and the other contact fields as they were typed. *)
Theorem console_shows_contact_fields :
  exists values,
    Validation.quoteSchema contact_form = Some values
    /\ Browser.console
         (snd (App.onSubmit (lit "") None
                 (fun _ => Browser.Resolved ok_response) contact_form
                 Browser.initial))
       = [ [Browser.LogString (lit "onSubmit values"); Browser.LogObject values];
           [Browser.LogString (lit "postQuote called");
            Browser.LogObject (Validation.toPayload values)] ]
    /\ phone (Validation.toPayload values) = JString (lit "+7 999 000-00-00")
    /\ email (Validation.toPayload values) = JString (lit "test@example.com")
    /\ pii_values contact_form
       = map lit ["ООО Ромашка"; "Иван"; "Уфа"; "+7 999 000-00-00";
                  "test@example.com"; "@client"]%string
    /\ forallb
         (fun v =>
            console_shows v
              (snd (App.onSubmit (lit "") None
                      (fun _ => Browser.Resolved ok_response) contact_form
                      Browser.initial)))
         (pii_values contact_form) = true.
Proof.
  destruct (Validation.quoteSchema contact_form) as [values|] eqn:E;
    [|vm_compute in E; discriminate].
  exists values. split; [reflexivity|].
  unfold App.onSubmit. rewrite E.
  vm_compute in E. inversion E; subst values.
  repeat split; vm_compute; reflexivity.
Qed.

(* ================================================================== *)
(** * The lookup resolver: strict and fallback policies *)
(* ================================================================== *)

Section Resolver.

Import LookupResolver.

Variable req : QuoteRequest.

Lemma no_worse_refl (a : PriceRecord) : no_worse (req_qty req) a a.
Proof. right. split; [reflexivity | lia]. Qed.

Lemma no_worse_trans (a b c : PriceRecord) :
  no_worse (req_qty req) a b -> no_worse (req_qty req) b c ->
  no_worse (req_qty req) a c.
Proof. unfold no_worse. intros [Hab|[Eab Mab]] [Hbc|[Ebc Mbc]]; lia. Qed.

Lemma preferred_true (c best : PriceRecord) :
  preferred req c best = true -> no_worse (req_qty req) c best.
Proof.
  unfold preferred, distance, midpoint, no_worse.
  destruct (Z.compare_spec
              (Z.abs (req_qty req - (qty_min c + qty_max c) / 2))
              (Z.abs (req_qty req - (qty_min best + qty_max best) / 2)))
    as [E|E|E].
  - intros H. apply Z.ltb_lt in H. right. split; [exact E | lia].
  - intros _. left. exact E.
  - discriminate.
Qed.

Lemma preferred_false (c best : PriceRecord) :
  preferred req c best = false -> no_worse (req_qty req) best c.
Proof.
  unfold preferred, distance, midpoint, no_worse.
  destruct (Z.compare_spec
              (Z.abs (req_qty req - (qty_min c + qty_max c) / 2))
              (Z.abs (req_qty req - (qty_min best + qty_max best) / 2)))
    as [E|E|E].
  - intros H. apply Z.ltb_ge in H. right. split; [symmetry; exact E | exact H].
  - discriminate.
  - intros _. left. exact E.
Qed.

(** The scan returns one of the candidates, and none is better. *)
Lemma nearest_spec (rest : list PriceRecord) :
  forall first,
    In (nearest req first rest) (first :: rest)
    /\ forall c, In c (first :: rest) ->
                 no_worse (req_qty req) (nearest req first rest) c.
Proof.
  induction rest as [|x rest IH]; intros first.
  - simpl. split; [left; reflexivity|].
    intros c [<-|[]]. apply no_worse_refl.
  - unfold nearest. simpl fold_left.
    fold (nearest req (if preferred req x first then x else first) rest).
    destruct (IH (if preferred req x first then x else first)) as [Hin Hbest].
    split.
    + destruct Hin as [Hin|Hin].
      * rewrite <- Hin. destruct (preferred req x first); simpl; auto.
      * right; right. exact Hin.
    + intros c Hc.
      assert (Hkept : no_worse (req_qty req)
                        (if preferred req x first then x else first) first
                      /\ no_worse (req_qty req)
                           (if preferred req x first then x else first) x).
      { destruct (preferred req x first) eqn:P.
        - split; [apply preferred_true; exact P | apply no_worse_refl].
        - split; [apply no_worse_refl | apply preferred_false; exact P]. }
      destruct Hc as [<-|[<-|Hc]].
      * eapply no_worse_trans; [apply Hbest; left; reflexivity | tauto].
      * eapply no_worse_trans; [apply Hbest; left; reflexivity | tauto].
      * apply Hbest. right. exact Hc.
Qed.

(** Of two key-matching candidates the scan keeps the strictly better one,
    in whichever order they come. *)
Lemma nearest_of_two (a b : PriceRecord) :
  eligible req a = true -> eligible req b = true ->
  preferred req a b = true ->
  resolve fallback req [a; b] = Found a
  /\ resolve fallback req [b; a] = Found a.
Proof.
  intros Ha Hb P.
  assert (Q : preferred req b a = false).
  { apply preferred_true in P. unfold no_worse in P.
    unfold preferred, distance, midpoint.
    destruct (Z.compare_spec
                (Z.abs (req_qty req - (qty_min b + qty_max b) / 2))
                (Z.abs (req_qty req - (qty_min a + qty_max a) / 2)))
      as [E|E|E]; [|lia|reflexivity].
    apply Z.ltb_ge. lia. }
  unfold resolve, resolve_fallback. simpl filter. rewrite Ha, Hb.
  unfold nearest. simpl fold_left. rewrite P, Q. split; reflexivity.
Qed.

End Resolver.

Section ResolverClaims.

Import LookupResolver.

(** C5: for a request and candidates of which at least one matches the
    request in all key fields, strict resolution returns a record exactly
    when some key-matching candidate has a band containing the requested
    quantity; the record returned is such a candidate; and resolution fails
    with NotFound when there is none.  The resolver is a function of the
    request and the candidates alone. *)
Theorem strict_resolution_iff_band_match
  (req : QuoteRequest) (cands : list PriceRecord) :
  (exists c, In c cands /\ eligible req c = true) ->
  ((exists r, resolve strict req cands = Found r)
   <-> (exists c, In c cands /\ eligible req c = true /\ in_band req c = true))
  /\ (forall r, resolve strict req cands = Found r ->
        In r cands /\ eligible req r = true
        /\ (qty_min r <= req_qty req <= qty_max r)%Z)
  /\ ((forall c, In c cands -> eligible req c = true -> in_band req c = false) ->
      resolve strict req cands = NotFound).
Proof.
  intros _.
  assert (Hfound : forall r, resolve strict req cands = Found r ->
            In r cands /\ eligible req r = true /\ in_band req r = true).
  { intros r. unfold resolve, resolve_strict.
    destruct (find (in_band req) (filter (eligible req) cands)) as [r'|] eqn:E;
      [|discriminate].
    intros H. inversion H. subst r'.
    apply find_some in E. destruct E as [Hin Hband].
    apply filter_In in Hin. tauto. }
  assert (Hnone : (forall c, In c cands -> eligible req c = true ->
                             in_band req c = false) ->
                  resolve strict req cands = NotFound).
  { intros Hno. unfold resolve, resolve_strict.
    destruct (find (in_band req) (filter (eligible req) cands)) as [r|] eqn:E;
      [|reflexivity].
    apply find_some in E. destruct E as [Hin Hband].
    apply filter_In in Hin. destruct Hin as [Hin Hel].
    rewrite (Hno r Hin Hel) in Hband. discriminate. }
  split; [split|split].
  - intros [r Hr]. exists r. apply Hfound. exact Hr.
  - intros (c & Hin & Hel & Hband).
    destruct (resolve strict req cands) as [r|] eqn:E; [exists r; reflexivity|].
    exfalso. unfold resolve, resolve_strict in E.
    destruct (find (in_band req) (filter (eligible req) cands)) eqn:F;
      [discriminate|].
    pose proof (find_none _ _ F c) as K.
    rewrite K in Hband; [discriminate|].
    apply filter_In. split; assumption.
  - intros r Hr. destruct (Hfound r Hr) as (Hin & Hel & Hband).
    unfold in_band in Hband. apply andb_true_iff in Hband.
    destruct Hband as [Hlo Hhi].
    apply Z.leb_le in Hlo. apply Z.leb_le in Hhi. tauto.
  - exact Hnone.
Qed.

(** C6: under the fallback policy, when key-matching candidates exist,
    resolution returns one of them for which the absolute distance
    [|qty - (qty_min+qty_max)/2|] between the requested quantity and the
    band midpoint is smallest, and among equally near ones one with the
    smallest [qty_min]; of two key-matching bands at the same distance the
    one with the smaller [qty_min] is returned, in whichever order they
    come; without a key-matching candidate resolution fails with NotFound;
    and with key-matching bands [100,500] and [501,2000] and quantity 1000
    the distances are 700 and 250 and the band [501,2000] is selected. *)
Theorem fallback_selects_nearest_band
  (req : QuoteRequest) (cands : list PriceRecord) :
  ((exists c, In c cands /\ eligible req c = true) ->
   exists r,
     resolve fallback req cands = Found r
     /\ In r cands /\ eligible req r = true
     /\ forall c, In c cands -> eligible req c = true ->
          (Z.abs (req_qty req - (qty_min r + qty_max r) / 2)
           <= Z.abs (req_qty req - (qty_min c + qty_max c) / 2))%Z
          /\ (Z.abs (req_qty req - (qty_min r + qty_max r) / 2)
              = Z.abs (req_qty req - (qty_min c + qty_max c) / 2) ->
              (qty_min r <= qty_min c)%Z))
  /\ ((forall c, In c cands -> eligible req c = false) ->
      resolve fallback req cands = NotFound)
  /\ (forall a b,
        eligible req a = true -> eligible req b = true ->
        Z.abs (req_qty req - (qty_min a + qty_max a) / 2)
        = Z.abs (req_qty req - (qty_min b + qty_max b) / 2) ->
        (qty_min a < qty_min b)%Z ->
        resolve fallback req [a; b] = Found a
        /\ resolve fallback req [b; a] = Found a)
  /\ (forall a b,
        req_qty req = 1000%Z ->
        eligible req a = true -> eligible req b = true ->
        qty_min a = 100%Z -> qty_max a = 500%Z ->
        qty_min b = 501%Z -> qty_max b = 2000%Z ->
        distance req a = 700%Z /\ distance req b = 250%Z
        /\ resolve fallback req [a; b] = Found b
        /\ resolve fallback req [b; a] = Found b).
Proof.
  split; [|split; [|split]].
  - intros (c0 & Hin0 & Hel0).
    unfold resolve, resolve_fallback.
    destruct (filter (eligible req) cands) as [|first rest] eqn:F.
    + exfalso.
      assert (K : In c0 (filter (eligible req) cands))
        by (apply filter_In; split; assumption).
      rewrite F in K. destruct K.
    + destruct (nearest_spec req rest first) as [Hin Hbest].
      exists (nearest req first rest).
      rewrite <- F in Hin, Hbest. apply filter_In in Hin.
      split; [reflexivity|]. split; [tauto|]. split; [tauto|].
      intros c Hc Hel.
      assert (K : no_worse (req_qty req) (nearest req first rest) c)
        by (apply Hbest; apply filter_In; split; assumption).
      unfold no_worse in K. lia.
  - intros Hno. unfold resolve, resolve_fallback.
    destruct (filter (eligible req) cands) as [|first rest] eqn:F;
      [reflexivity|].
    assert (K : In first (filter (eligible req) cands))
      by (rewrite F; left; reflexivity).
    apply filter_In in K. destruct K as [Hin Hel].
    rewrite (Hno first Hin) in Hel. discriminate.
  - intros a b Ha Hb Heq Hmin. apply nearest_of_two; try assumption.
    unfold preferred, distance, midpoint. rewrite Heq, Z.compare_refl.
    apply Z.ltb_lt. exact Hmin.
  - intros a b Hq Ha Hb Ha1 Ha2 Hb1 Hb2.
    assert (Da : distance req a = 700%Z)
      by (unfold distance, midpoint; rewrite Hq, Ha1, Ha2; reflexivity).
    assert (Db : distance req b = 250%Z)
      by (unfold distance, midpoint; rewrite Hq, Hb1, Hb2; reflexivity).
    split; [exact Da|]. split; [exact Db|].
    assert (K : resolve fallback req [b; a] = Found b
                /\ resolve fallback req [a; b] = Found b).
    { apply nearest_of_two; try assumption.
      unfold preferred. rewrite Da, Db. reflexivity. }
    tauto.
Qed.

End ResolverClaims.

Lemma strict_resolution_witness :
  (exists r,
      LookupResolver.resolve LookupResolver.strict scenario_request
        [other_style_band; scenario_band 100 500 "A";
         scenario_band 501 2000 "B"]
      = LookupResolver.Found r)
  /\ LookupResolver.resolve LookupResolver.strict scenario_request
       [other_style_band; scenario_band 100 500 "A"]
     = LookupResolver.NotFound.
Proof.
  split.
  - pose proof (strict_resolution_iff_band_match scenario_request
                  [other_style_band; scenario_band 100 500 "A";
                   scenario_band 501 2000 "B"]) as H.
    destruct H as (Hiff & _ & _).
    + exists (scenario_band 100 500 "A"). split; [simpl; tauto | reflexivity].
    + apply Hiff. exists (scenario_band 501 2000 "B").
      split; [simpl; tauto | split; reflexivity].
  - pose proof (strict_resolution_iff_band_match scenario_request
                  [other_style_band; scenario_band 100 500 "A"]) as H.
    destruct H as (_ & _ & Hnone).
    + exists (scenario_band 100 500 "A"). split; [simpl; tauto | reflexivity].
    + apply Hnone. intros c [<-|[<-|[]]]; intros Hel.
      * vm_compute in Hel. discriminate.
      * reflexivity.
Defined.

Lemma fallback_selects_nearest_band_witness :
  LookupResolver.resolve LookupResolver.fallback scenario_request
    [scenario_band 100 500 "A"; scenario_band 501 2000 "B"]
    = LookupResolver.Found (scenario_band 501 2000 "B")
  /\ LookupResolver.resolve LookupResolver.fallback scenario_request
       [scenario_band 1300 1500 "D"; scenario_band 500 700 "C"]
     = LookupResolver.Found (scenario_band 500 700 "C")
  /\ LookupResolver.resolve LookupResolver.fallback scenario_request
       [other_style_band] = LookupResolver.NotFound.
Proof.
  destruct (fallback_selects_nearest_band scenario_request
              [scenario_band 100 500 "A"; scenario_band 501 2000 "B"])
    as (_ & _ & Htie & Hex).
  destruct (fallback_selects_nearest_band scenario_request [other_style_band])
    as (_ & Hnone & _).
  split; [|split].
  - apply (Hex (scenario_band 100 500 "A") (scenario_band 501 2000 "B"));
      reflexivity.
  - apply (Htie (scenario_band 500 700 "C") (scenario_band 1300 1500 "D"));
      reflexivity.
  - apply Hnone. intros c [<-|[]]. reflexivity.
Defined.

(* ================================================================== *)
(** * The repository's own tests, run on the model *)
(* ================================================================== *)

Section UnitTests.

Import Validation.

Let num (n : Z) : jsval := JNumber (of_Z n).
Let str (s : string) : jsval := JString (lit s).

(** [__tests__/validation.test.ts] *)
Example test_valid_base : accepts base = true.
Proof. vm_compute. reflexivity. Qed.

Example test_dimension_bounds :
  map (fun n => accepts (with_x (num n) base)) [20; 1200; 19; 1201]%Z
    = [true; true; false; false].
Proof. vm_compute. reflexivity. Qed.

Example test_qty_bounds :
  map (fun n => accepts (with_qty (num n) base)) [1; 100000; 0; 100001]%Z
    = [true; true; false; false].
Proof. vm_compute. reflexivity. Qed.

Example test_email :
  map (fun e => accepts (with_email (str e) base)) ["bad"; "a@b.c"]%string
    = [false; true].
Proof. vm_compute. reflexivity. Qed.

Example test_tg_username :
  map (fun u => accepts (with_tg (str u) base))
    ["@ab"; "@valid_123"; "valid_123"]%string
    = [false; true; true].
Proof. vm_compute. reflexivity. Qed.

Example test_print_optional :
  map (fun p => accepts (with_print p base))
    [JUndefined; str "1+0"; str ""; str "5+5"]
    = [true; true; true; false].
Proof. vm_compute. reflexivity. Qed.

Example test_required_fields :
  accepts (with_style JUndefined (material base) base) = false
  /\ accepts (with_style (fefco base) JUndefined base) = false.
Proof. split; vm_compute; reflexivity. Qed.

Example test_non_numeric : accepts (with_x (JNumber NaN) base) = false.
Proof. vm_compute. reflexivity. Qed.

(** A dimension that is not a whole number, or not a number at all. *)
Example test_fraction_and_text :
  accepts (with_x (JNumber (Finite (601 # 2))) base) = false
  /\ accepts (with_x (str "300") base) = false
  /\ accepts (with_x (JNumber (Infinity false)) base) = false.
Proof. repeat split; vm_compute; reflexivity. Qed.

End UnitTests.

Section IntegrationTests.

Import Browser.

Let answer (r : Response) : Request -> Promise Response :=
  fun _ => Resolved r.

(** [App.test.tsx], "handles 200 OK": the status bar reads [Готово] and the
    link points to the PDF. *)
Example test_handles_200 :
  includes
    (App.status_text
       (App.render
          (snd (App.onSubmit (lit "") None (answer ok_response) base initial))))
    (lit "Готово") = true
  /\ option_map App.href
       (App.result_card
          (App.render
             (snd (App.onSubmit (lit "") None (answer ok_response) base
                     initial))))
     = Some (lit "https://x/pdf/web-123.pdf").
Proof. split; vm_compute; reflexivity. Qed.

(** [App.test.tsx], "handles 404 error". *)
Example test_handles_404 :
  App.status_text
    (App.render
       (snd (App.onSubmit (lit "") None (answer not_found_response) base
               initial)))
  = lit "Прайс не найден".
Proof. vm_compute. reflexivity. Qed.

(** A form that does not parse is not submitted. *)
Example test_invalid_form_is_not_sent :
  snd (App.onSubmit (lit "") None (answer ok_response)
         (with_x (JNumber (of_Z 19)) base) initial) = initial.
Proof. vm_compute. reflexivity. Qed.

(** The body of the request leaves out the members that are undefined. *)
Example test_request_body :
  map (fun r => map fst (body r))
    (requests
       (snd (App.onSubmit (lit "") None (answer ok_response) base initial)))
  = [map lit ["fefco"; "x_mm"; "y_mm"; "z_mm"; "material"; "qty";
              "sla_type"]%string].
Proof. vm_compute. reflexivity. Qed.

End IntegrationTests.

(* ================================================================== *)
(** * What the submission writes to the console, for every input *)
(* ================================================================== *)

Section Console.

Import Browser.

Variable API_BASE : jsstring.
Variable csrfToken : option jsstring.
Variable network : Request -> Promise Response.

(** Every submission of a form that parses appends two records to the
    console, one with the parsed values and one with the payload. *)
Lemma onSubmit_console (form values : QuoteFields) (w0 : World) :
  Validation.quoteSchema form = Some values ->
  console (snd (App.onSubmit API_BASE csrfToken network form w0))
  = console w0
    ++ [ [LogString (lit "onSubmit values"); LogObject values];
         [LogString (lit "postQuote called");
          LogObject (Validation.toPayload values)] ].
Proof.
  intros Hparse. run. rewrite Hparse. cbv beta iota.
  destruct (network (Api.quote_request API_BASE csrfToken
                       (Validation.toPayload values))) as [r|err];
    cbv beta iota.
  - destruct (includes (or_else (content_type r) (lit ""))
                (lit "application/json")); cbv beta iota.
    + destruct (json r) as [[u l|e]|err]; cbv beta iota;
        rewrite <- app_assoc; reflexivity.
    + rewrite <- app_assoc; reflexivity.
  - rewrite <- app_assoc; reflexivity.
Qed.

Lemma includes_refl (s : jsstring) : includes s s = true.
Proof. destruct s; simpl; [reflexivity|]. now rewrite N.eqb_refl, starts_with_refl. Qed.

Lemma arg_shows_member (o : QuoteFields) (v : jsstring) :
  In v (pii_values o) -> arg_shows v (LogObject o) = true.
Proof.
  unfold pii_values, arg_shows, members. intros Hin.
  apply in_flat_map in Hin. destruct Hin as (x & Hx & Hv).
  destruct x as [| |b|n|[|c s]|]; simpl in Hv; try contradiction.
  destruct Hv as [<-|[]].
  apply existsb_exists.
  simpl in Hx.
  destruct Hx as [Hx|[Hx|[Hx|[Hx|[Hx|[Hx|[]]]]]]];
    [exists (lit "company", company o) | exists (lit "contact_name", contact_name o)
    | exists (lit "city", city o) | exists (lit "phone", phone o)
    | exists (lit "email", email o) | exists (lit "tg_username", tg_username o)];
    (split; [simpl; tauto | cbn [snd]; rewrite Hx; apply includes_refl]).
Qed.

(** Whatever the network answers, every non-empty contact value of the
    parsed form can be read in the console afterwards. *)
Lemma onSubmit_shows_contact_values (form values : QuoteFields) (v : jsstring) :
  Validation.quoteSchema form = Some values ->
  In v (pii_values values) ->
  console_shows v (snd (App.onSubmit API_BASE csrfToken network form initial))
    = true.
Proof.
  intros Hparse Hin. unfold console_shows.
  rewrite (onSubmit_console form values initial Hparse).
  cbn [console initial app existsb].
  rewrite (arg_shows_member values v Hin). cbn [orb].
  rewrite orb_true_r. reflexivity.
Qed.

End Console.

(* ================================================================== *)
(** * Empty text fields, for every input *)
(* ================================================================== *)

Section BlankTextFields.

Import Zod.

(** A text field that is optional and only bounded in length parses the
    empty string to itself: the alternative that would turn it into
    undefined is not reached. *)
Lemma blank_text_field_kept (k : Z) (w : jsval) :
  (0 <= k)%Z ->
  (z_string |> z_maxlen k |> z_optional
   |> z_or Validation.empty_to_undefined) (JString (lit "")) = Some w ->
  w = JString (lit "").
Proof.
  intros Hk. unfold z_or, z_optional, z_maxlen, z_check, z_string, on_string.
  cbn [str_length lit List.length negb].
  replace (k <? str_length (lit ""))%Z with false
    by (symmetry; apply Z.ltb_ge; exact Hk).
  simpl. intros H. inversion H. reflexivity.
Qed.

(** For every input the schema accepts, an empty [company] stays the empty
    string in the payload and is written into the request body. *)
Lemma blank_company_kept (data values : QuoteFields) :
  Validation.quoteSchema data = Some values ->
  company data = JString (lit "") ->
  company (Validation.toPayload values) = JString (lit "")
  /\ In (lit "company", JString (lit ""))
       (Browser.JSON_stringify (Validation.toPayload values)).
Proof.
  intros H Hc. unfold Validation.quoteSchema in H. rewrite Hc in H.
  open_parse H.
  match goal with
  | E : _ (JString (lit "")) = Some ?w |- _ =>
      apply (blank_text_field_kept 120) in E; [subst w | lia]
  end.
  unfold Validation.toPayload. cbn [company]. split; [reflexivity|].
  unfold Browser.JSON_stringify. apply filter_In. split.
  - unfold Browser.members. cbn [company]. simpl. tauto.
  - reflexivity.
Qed.

End BlankTextFields.

(* ================================================================== *)
(** * The rest of the front end: definitions *)
(* ================================================================== *)

(** ** What a pattern matches

    The strings a pattern denotes, independently of how [Regex.test]
    decides the match. *)
Inductive matches : Regex.regex -> jsstring -> Prop :=
| matches_eps : matches Regex.Reps []
| matches_class (p : code_unit -> bool) (c : code_unit) :
    p c = true -> matches (Regex.Rclass p) [c]
| matches_cat (a b : Regex.regex) (s t : jsstring) :
    matches a s -> matches b t -> matches (Regex.Rcat a b) (s ++ t)
| matches_alt_l (a b : Regex.regex) (s : jsstring) :
    matches a s -> matches (Regex.Ralt a b) s
| matches_alt_r (a b : Regex.regex) (s : jsstring) :
    matches b s -> matches (Regex.Ralt a b) s
| matches_star_nil (a : Regex.regex) : matches (Regex.Rstar a) []
| matches_star_cons (a : Regex.regex) (s t : jsstring) :
    matches a s -> matches (Regex.Rstar a) t ->
    matches (Regex.Rstar a) (s ++ t).

(** The code units of [[a-zA-Z0-9_]]. *)
Definition is_word (c : code_unit) : bool :=
  ((97 <=? c) && (c <=? 122) || (65 <=? c) && (c <=? 90)
   || (48 <=? c) && (c <=? 57) || (c =? 95))%N.

(** The code units of [[^\s@]]. *)
Definition is_address_char (c : code_unit) : bool :=
  negb (Regex.is_space c) && negb (c =? 64)%N.

(** A Telegram name in closed form: after an optional leading [@], at
    least five code units, all of them word characters. *)
Definition tg_name_ok (s : jsstring) : bool :=
  let name := match s with
              | c :: rest => if (c =? 64)%N then rest else s
              | [] => s
              end in
  (5 <=? List.length name)%nat && forallb is_word name.

(** An address in closed form: three non-empty runs of address characters,
    joined by [@] and by a dot. *)
Definition address_parts (s a b c : jsstring) : Prop :=
  s = a ++ [64%N] ++ b ++ [46%N] ++ c
  /\ a <> [] /\ b <> [] /\ c <> []
  /\ forallb is_address_char a = true
  /\ forallb is_address_char b = true
  /\ forallb is_address_char c = true.

(** A text field within its limit: undefined, or a string of at most [k]
    code units. *)
Definition text_within (k : Z) (v : jsval) : Prop :=
  v = JUndefined \/ exists s, v = JString s /\ (str_length s <= k)%Z.

Definition with_sla (v : jsval) (d : QuoteFields) : QuoteFields :=
  {| fefco := fefco d; x_mm := x_mm d; y_mm := y_mm d; z_mm := z_mm d;
     material := material d; print := print d; qty := qty d;
     sla_type := v; company := company d;
     contact_name := contact_name d; city := city d; phone := phone d;
     email := email d; tg_username := tg_username d |}.

(** ** App.tsx: the values the select boxes offer

    Each select starts with an option whose value is the empty string (the
    placeholder, or "без печати" for the print select), followed by one
    option per item; the print select leaves the item "без печати" out. *)
Module Selects.

Import Options.

Definition fefco_values : list jsstring := lit "" :: fefcoOptions.
Definition material_values : list jsstring := lit "" :: materialOptions.
Definition sla_values : list jsstring := lit "" :: slaOptions.
Definition print_values : list jsstring :=
  lit "" :: filter (fun p => negb (str_eqb p (lit "без печати"))) printOptions.

End Selects.

(** ** api.ts: getCsrfToken *)
Module Cookie.

(** The completion of a call that may throw. *)
Inductive Completion (A : Type) :=
| Normal (a : A)
| Throws (err : Browser.Thrown).
Arguments Normal {A} a.
Arguments Throws {A} err.

(** [s] without the prefix [p], when it starts with it. *)
Fixpoint strip_prefix (p s : jsstring) : option jsstring :=
  match p, s with
  | [], _ => Some s
  | x :: p', y :: s' => if (x =? y)%N then strip_prefix p' s' else None
  | _ :: _, [] => None
  end.

(** The longest run of code units other than [;] at the start of [s]: what
    the greedy group [([^;]+)] takes. *)
Fixpoint token_run (s : jsstring) : jsstring :=
  match s with
  | c :: s' => if (c =? 59)%N then [] else c :: token_run s'
  | [] => []
  end.

(** The pattern [csrftoken=([^;]+)] tried at the start of [s]. *)
Definition match_here (s : jsstring) : option jsstring :=
  match strip_prefix (lit "csrftoken=") s with
  | Some rest =>
      match token_run rest with
      | [] => None
      | c :: t => Some (c :: t)
      end
  | None => None
  end.

(** [cookie.match(/csrftoken=([^;]+)/)]: group 1 of the leftmost match,
    the pattern being tried at each position in turn. *)
Fixpoint cookie_match (cookie : jsstring) : option jsstring :=
  match match_here cookie with
  | Some t => Some t
  | None =>
      match cookie with
      | [] => None
      | _ :: rest => cookie_match rest
      end
  end.

Section GetCsrfToken.

(** [decodeURIComponent], which throws a [URIError] on a malformed escape
    sequence. *)
Variable decodeURIComponent : jsstring -> Completion jsstring.

Definition getCsrfToken (cookie : jsstring) : Completion (option jsstring) :=
  match cookie_match cookie with
  | Some raw =>
      match decodeURIComponent raw with
      | Normal t => Normal (Some t)
      | Throws err => Throws err
      end
  | None => Normal None
  end.

End GetCsrfToken.

End Cookie.

(** ** The page as the browser runs it

    The response body as [JSON.parse] returns it, whatever its shape; the
    token read from the cookie while the request is built; the analytics
    event of main.tsx; and, further down, the calls of the submission
    handler suspended at their awaits, so that submissions may overlap. *)
Module Page.

Import Browser Cookie.

(** A value as [JSON.parse] returns it.  An object is kept as the entries
    of the text, in their order; when a key is repeated the last entry is
    the one the object holds. *)
#[local] Unset Elimination Schemes.
Inductive Json :=
| JsonNull
| JsonBool (b : bool)
| JsonNumber (n : number)
| JsonString (s : jsstring)
| JsonArray (items : list Json)
| JsonObject (entries : list (jsstring * Json)).
#[local] Set Elimination Schemes.

(** The members the handler and the view read of a result. *)
Inductive Key := Ok | PdfUrl | LeadId | Error.

Definition name (k : Key) : jsstring :=
  match k with
  | Ok => lit "ok"
  | PdfUrl => lit "pdf_url"
  | LeadId => lit "lead_id"
  | Error => lit "error"
  end.

Fixpoint lookup (key : jsstring) (entries : list (jsstring * Json))
  : option Json :=
  match entries with
  | [] => None
  | (k, v) :: rest =>
      match lookup key rest with
      | Some later => Some later
      | None => if str_eqb k key then Some v else None
      end
  end.

(** [v.k] for a value [v] other than null, [None] standing for undefined:
    the member of an object; undefined on a boolean, a number, a string or
    an array, whose prototypes have none of the four names. *)
Definition member (k : Key) (v : Json) : option Json :=
  match v with
  | JsonObject entries => lookup (name k) entries
  | _ => None
  end.

(** Truthiness, as [if], [!], [&&] and [||] test it. *)
Definition truthy (v : option Json) : bool :=
  match v with
  | None => false
  | Some JsonNull => false
  | Some (JsonBool b) => b
  | Some (JsonNumber NaN) => false
  | Some (JsonNumber (Infinity _)) => true
  | Some (JsonNumber (Finite q)) => negb (Qeq_bool q 0)
  | Some (JsonString []) => false
  | Some (JsonString (_ :: _)) => true
  | Some (JsonArray _) => true
  | Some (JsonObject _) => true
  end.

(** The object literal [{ ok: false, error }]. *)
Definition failure (message : jsstring) : Json :=
  JsonObject [(lit "ok", JsonBool false); (lit "error", JsonString message)].

(** What the client reads of a [Response]. *)
Record Response := {
  content_type : option jsstring;     (* headers.get('content-type') *)
  statusText : jsstring;
  text : Promise jsstring;            (* text() *)
  json : Promise Json                 (* json() *)
}.

(** Events pushed to [window.dataLayer]; [lead_id] and [message] are what
    the result holds under these names, of whatever type, or undefined. *)
Inductive Event :=
| cpq_form_view
| cpq_form_submit
| cpq_api_ok (lead_id : option Json)
| cpq_api_error (message : option Json)
| cpq_pdf_link_click.

Record World := {
  console : list LogRecord;          (* oldest first *)
  requests : list Request;           (* calls of fetch *)
  body_reads : list BodyRead;        (* calls of text() and json() *)
  dataLayer : option (list Event);   (* window.dataLayer, or undefined *)
  status : Status;                   (* useState<Status>('idle') *)
  result : Json                      (* useState<ApiResponse | null>(null) *)
}.

(** The window before any script of the page has run. *)
Definition fresh : World :=
  {| console := []; requests := []; body_reads := []; dataLayer := None;
     status := idle; result := JsonNull |}.

Definition M (A : Type) := World -> A * World.

Definition ret {A} (a : A) : M A := fun w => (a, w).
Definition bind {A B} (c : M A) (k : A -> M B) : M B :=
  fun w => let (a, w') := c w in k a w'.

Declare Scope page_scope.
Notation "x <- c ;; k" := (bind c (fun x => k))
  (at level 61, c at next level, right associativity) : page_scope.
Notation "c ;; k" := (bind c (fun _ => k))
  (at level 61, right associativity) : page_scope.
Local Open Scope page_scope.

Definition console_log (args : LogRecord) : M unit :=
  fun w =>
    (tt, {| console := console w ++ [args]; requests := requests w;
            body_reads := body_reads w; dataLayer := dataLayer w;
            status := status w; result := result w |}).

Definition record_request (r : Request) : M unit :=
  fun w =>
    (tt, {| console := console w; requests := requests w ++ [r];
            body_reads := body_reads w; dataLayer := dataLayer w;
            status := status w; result := result w |}).

Definition record_read (r : BodyRead) : M unit :=
  fun w =>
    (tt, {| console := console w; requests := requests w;
            body_reads := body_reads w ++ [r]; dataLayer := dataLayer w;
            status := status w; result := result w |}).

(** [window.dataLayer = window.dataLayer || []; window.dataLayer.push(e)] *)
Definition pushEvent (e : Event) : M unit :=
  fun w =>
    (tt, {| console := console w; requests := requests w;
            body_reads := body_reads w;
            dataLayer :=
              Some (match dataLayer w with
                    | Some events => events
                    | None => []
                    end ++ [e]);
            status := status w; result := result w |}).

Definition setStatus (s : Status) : M unit :=
  fun w =>
    (tt, {| console := console w; requests := requests w;
            body_reads := body_reads w; dataLayer := dataLayer w;
            status := s; result := result w |}).

Definition setResult (r : Json) : M unit :=
  fun w =>
    (tt, {| console := console w; requests := requests w;
            body_reads := body_reads w; dataLayer := dataLayer w;
            status := status w; result := r |}).

(** main.tsx, lines 10-11, which run before the form is rendered. *)
Definition main : M unit := pushEvent cpq_form_view.

(** The page once main.tsx has run in a fresh window. *)
Definition loaded : World := snd (main fresh).

(** *** api.ts *)
Section Client.

(** The environment of a call: [API_BASE], [decodeURIComponent] (which
    throws on a malformed escape sequence), [document.cookie] at the time
    of the call, and how the network answers a request. *)
Variable API_BASE : jsstring.
Variable decodeURIComponent : jsstring -> Completion jsstring.
Variable cookie : jsstring.
Variable network : Request -> Promise Response.

Definition fetch (r : Request) : M (Promise Response) :=
  record_request r ;; ret (network r).

(** [await res.text().catch(() => '')] *)
Definition text_or_empty (res : Response) : M jsstring :=
  record_read ReadText ;;
  ret (match text res with
       | Resolved t => t
       | Rejected _ => lit ""
       end).

Definition read_json (res : Response) : M (Promise Json) :=
  record_read ReadJson ;; ret (json res).

(** [getCsrfToken()] is called while the arguments of [fetch] are built:
    when it throws, [fetch] is not called and the promise of [postQuote]
    rejects. *)
Definition postQuote (payload : QuoteFormPayload) : M (Promise Json) :=
  console_log [LogString (lit "postQuote called"); LogObject payload] ;;
  match getCsrfToken decodeURIComponent cookie with
  | Throws err => ret (Rejected err)
  | Normal token =>
      fetched <- fetch (Api.quote_request API_BASE token payload) ;;
      match fetched with
      | Rejected err => ret (Rejected err)
      | Resolved res =>
          let contentType := or_else (content_type res) (lit "") in
          if negb (includes contentType (lit "application/json")) then
            body_text <- text_or_empty res ;;
            ret (Resolved
                   (failure (lit "Unexpected response: "
                             ++ or_else (Some body_text) (statusText res))))
          else
            read_json res
      end
  end.

End Client.

(** *** components/FormPrimitives.tsx, App.tsx *)

(** The child of the status bar: [message || ''] outside the loading and
    success states. *)
Definition StatusBar (st : Status) (message : option Json) : Json :=
  match st with
  | loading => JsonString (lit "Отправляем запрос…")
  | success => JsonString (lit "Готово. PDF отправлен в Telegram.")
  | _ =>
      match message with
      | Some m => if truthy message then m else JsonString (lit "")
      | None => JsonString (lit "")
      end
  end.

(** The props of the result card, which renders [<a href={pdfUrl}>] and
    [Lead ID: {leadId}]. *)
Record ResultCard := { pdfUrl : option Json; leadId : option Json }.

(** [{result && result.ok && (<ResultCard ... />)}]: the card, or the falsy
    value the expression stops at. *)
Inductive Slot :=
| Card (card : ResultCard)
| NoCard (falsy : option Json).

(** What the form hands to React below its fields: the child of the
    status bar (a string or a number is shown as text), whether the retry
    button is there, and the result card or what stands in its place. *)
Record View := {
  status_text : Json;
  retry_button : bool;
  result_slot : Slot
}.

Definition render (w : World) : View :=
  {| status_text :=
       StatusBar (status w)
         (if truthy (Some (result w)) && negb (truthy (member Ok (result w)))
          then member Error (result w)
          else None);
     retry_button :=
       match status w with
       | error => true
       | _ => false
       end;
     result_slot :=
       if truthy (Some (result w)) then
         if truthy (member Ok (result w)) then
           Card {| pdfUrl := member PdfUrl (result w);
                   leadId := member LeadId (result w) |}
         else NoCard (member Ok (result w))
       else NoCard (Some (result w)) |}.

(** How a call of the handler ends: it returns, or the TypeError of
    reading a member of null leaves it, which nothing catches. *)
Inductive Ending := Returned | Uncaught.

(** App.tsx, lines 57-65: the handler from [if (res.ok)] on. *)
Definition settle (res : Json) : M Ending :=
  match res with
  | JsonNull => ret Uncaught
  | _ =>
      if truthy (member Ok res) then
        pushEvent (cpq_api_ok (member LeadId res)) ;;
        setResult res ;;
        setStatus success ;;
        ret Returned
      else
        pushEvent (cpq_api_error (member Error res)) ;;
        setResult res ;;
        setStatus error ;;
        ret Returned
  end.

(** [.catch((err) => ({ ok: false, error: String(err) }))] *)
Definition caught (posted : Promise Json) : Json :=
  match posted with
  | Resolved r => r
  | Rejected err => failure (String_of err)
  end.

Section Form.

Variable API_BASE : jsstring.
Variable decodeURIComponent : jsstring -> Completion jsstring.

(** The callback given to [handleSubmit], run from its first line to its
    last with no other event in between.  The abort controller only
    cancels an earlier request that is still in flight, whose promise then
    rejects. *)
Definition submit_values (cookie : jsstring)
  (network : Request -> Promise Response) (values : QuoteFormData)
  : M Ending :=
  console_log [LogString (lit "onSubmit values"); LogObject values] ;;
  pushEvent cpq_form_submit ;;
  setStatus loading ;;
  setResult JsonNull ;;
  let payload := Validation.toPayload values in
  posted <- postQuote API_BASE decodeURIComponent cookie network payload ;;
  settle (caught posted).

(** [handleSubmit] with [zodResolver(quoteSchema)]: the callback runs on
    the parsed values, and only when the form values parse. *)
Definition onSubmit (cookie : jsstring)
  (network : Request -> Promise Response) (form : QuoteFields) : M Ending :=
  match Validation.quoteSchema form with
  | Some values => submit_values cookie network values
  | None => ret Returned
  end.

(** The handler of the retry button. *)
Definition onRetry : M unit := setStatus idle ;; setResult JsonNull.

(** The handler of the download link. *)
Definition onLinkClick : M unit := pushEvent cpq_pdf_link_click.

(** *** Calls of the handler that overlap

    The submit button is never disabled, so the form can be submitted
    again, and the retry button pressed, while an earlier call of the
    handler is suspended at an await.  A call is suspended at [fetch], at
    the read of the body, or, when [postQuote] threw before sending, at
    the await of its rejected promise. *)
Inductive Waiting :=
| for_fetch                              (* api.ts, line 27 *)
| for_text (status_text : jsstring)      (* api.ts, line 40 *)
| for_json                               (* api.ts, line 43 *)
| for_catch (err : Thrown).              (* App.tsx, line 56 *)

(** What lets a suspended call go on.  An aborted request is one whose
    promise rejects. *)
Inductive Answer :=
| headers_arrive (content_type : option jsstring) (status_text : jsstring)
| fetch_fails (err : Thrown)
| text_read (outcome : Promise jsstring)
| json_read (outcome : Promise Json)
| rejection_handled.

(** A call goes on until its next await, or to its end. *)
Inductive Next := Suspended (h : Waiting) | Ended (e : Ending).

(** App.tsx, lines 49-56, and api.ts, lines 26-36: the handler up to the
    first await. *)
Definition start (cookie : jsstring) (values : QuoteFormData) : M Waiting :=
  console_log [LogString (lit "onSubmit values"); LogObject values] ;;
  pushEvent cpq_form_submit ;;
  setStatus loading ;;
  setResult JsonNull ;;
  let payload := Validation.toPayload values in
  console_log [LogString (lit "postQuote called"); LogObject payload] ;;
  match getCsrfToken decodeURIComponent cookie with
  | Throws err => ret (for_catch err)
  | Normal token =>
      record_request (Api.quote_request API_BASE token payload) ;;
      ret for_fetch
  end.

Definition finish (res : Json) : M Next :=
  e <- settle res ;; ret (Ended e).

(** The suspended call [h] goes on with the answer [a]; [None] when [a] is
    not an answer to what [h] awaits. *)
Definition resume (h : Waiting) (a : Answer) : option (M Next) :=
  match h, a with
  | for_fetch, fetch_fails err => Some (finish (failure (String_of err)))
  | for_fetch, headers_arrive ct st =>
      Some (if negb (includes (or_else ct (lit "")) (lit "application/json"))
            then record_read ReadText ;; ret (Suspended (for_text st))
            else record_read ReadJson ;; ret (Suspended for_json))
  | for_text st, text_read outcome =>
      let body_text := match outcome with
                       | Resolved t => t
                       | Rejected _ => lit ""
                       end in
      Some (finish (failure (lit "Unexpected response: "
                             ++ or_else (Some body_text) st)))
  | for_json, json_read outcome => Some (finish (caught outcome))
  | for_catch err, rejection_handled =>
      Some (finish (failure (String_of err)))
  | _, _ => None
  end.

(** The page between two events: its world, the suspended calls of the
    handler (oldest first) and the number of calls that ended with an
    uncaught TypeError. *)
Record Tab := {
  world : World;
  waiting : list Waiting;
  uncaught : nat
}.

(** What can happen next: the user submits the form (with what the cookie
    holds then), a suspended call gets an answer, the user presses the
    retry button or follows the download link. *)
Inductive Action :=
| Submit (form : QuoteFields) (cookie : jsstring)
| Settle (i : nat) (answer : Answer)
| Retry
| LinkClick.

(** The list [l] with its element at index [i] replaced by those of
    [now]. *)
Definition splice {A} (i : nat) (now : list A) (l : list A) : list A :=
  firstn i l ++ now ++ skipn (S i) l.

Definition act (t : Tab) (a : Action) : Tab :=
  match a with
  | Submit form cookie =>
      match Validation.quoteSchema form with
      | Some values =>
          let (h, w) := start cookie values (world t) in
          {| world := w; waiting := waiting t ++ [h];
             uncaught := uncaught t |}
      | None => t
      end
  | Settle i answer =>
      match nth_error (waiting t) i with
      | Some h =>
          match resume h answer with
          | Some go_on =>
              let (next, w) := go_on (world t) in
              match next with
              | Suspended h' =>
                  {| world := w; waiting := splice i [h'] (waiting t);
                     uncaught := uncaught t |}
              | Ended Returned =>
                  {| world := w; waiting := splice i [] (waiting t);
                     uncaught := uncaught t |}
              | Ended Uncaught =>
                  {| world := w; waiting := splice i [] (waiting t);
                     uncaught := S (uncaught t) |}
              end
          | None => t
          end
      | None => t
      end
  | Retry =>
      if retry_button (render (world t))
      then {| world := snd (onRetry (world t)); waiting := waiting t;
              uncaught := uncaught t |}
      else t
  | LinkClick =>
      match result_slot (render (world t)) with
      | Card _ =>
          {| world := snd (onLinkClick (world t)); waiting := waiting t;
             uncaught := uncaught t |}
      | NoCard _ => t
      end
  end.

(** The page after a sequence of events, from the moment main.tsx has
    run. *)
Definition run (actions : list Action) : Tab :=
  fold_left act actions {| world := loaded; waiting := []; uncaught := 0 |}.

End Form.

End Page.

(** ** Words for statements about the page *)

(** A truthy value of a response body: [true], a number other than 0 and
    NaN, a non-empty string, an array or an object. *)
Inductive Truthy : Page.Json -> Prop :=
| truthy_true : Truthy (Page.JsonBool true)
| truthy_number (q : Q) : ~ (q == 0)%Q -> Truthy (Page.JsonNumber (Finite q))
| truthy_infinity (negative : bool) :
    Truthy (Page.JsonNumber (Infinity negative))
| truthy_string (c : code_unit) (s : jsstring) :
    Truthy (Page.JsonString (c :: s))
| truthy_array (items : list Page.Json) : Truthy (Page.JsonArray items)
| truthy_object (entries : list (jsstring * Page.Json)) :
    Truthy (Page.JsonObject entries).

(** Reading the member [key] of [body] gives [v], [None] standing for
    undefined: either [body] is an object whose last entry under [key]
    holds [v], or [v] is undefined and [body] is no object or an object
    without an entry under [key]. *)
Definition Member (body : Page.Json) (key : jsstring) (v : option Page.Json)
  : Prop :=
  match v with
  | Some x =>
      exists before after,
        body = Page.JsonObject (before ++ (key, x) :: after)
        /\ ~ In key (map fst after)
  | None =>
      forall entries, body = Page.JsonObject entries ->
                      ~ In key (map fst entries)
  end.

(** The two bodies of the declared type [ApiResponse]. *)
Definition success_body (pdf_url lead_id : jsstring) : Page.Json :=
  Page.JsonObject [ (lit "ok", Page.JsonBool true);
                    (lit "pdf_url", Page.JsonString pdf_url);
                    (lit "lead_id", Page.JsonString lead_id) ].

Definition error_body (error : jsstring) : Page.Json :=
  Page.JsonObject [ (lit "ok", Page.JsonBool false);
                    (lit "error", Page.JsonString error) ].

(** A response announced as JSON with the given body. *)
Definition json_response (body : Page.Json) : Page.Response :=
  {| Page.content_type := Some (lit "application/json");
     Page.statusText := lit "OK";
     Page.text := Browser.Resolved (lit "");
     Page.json := Browser.Resolved body |}.

(** A body whose [ok] is the number 1 instead of [true]. *)
Definition numeric_ok_body : Page.Json :=
  Page.JsonObject [ (lit "ok", Page.JsonNumber (of_Z 1));
                    (lit "pdf_url", Page.JsonString (lit "https://x/pdf/web-123.pdf"));
                    (lit "lead_id", Page.JsonString (lit "web-123")) ].

(** A stand-in for [decodeURIComponent] at the tokens of the examples: the
    identity on a token without escape sequence, a URIError on the lone
    [%]. *)
Definition decode_sample (s : jsstring) : Cookie.Completion jsstring :=
  if str_eqb s (lit "%")
  then Cookie.Throws {| Browser.String_of := lit "URIError: URI malformed" |}
  else Cookie.Normal s.

(** The analytics events that belong to submissions. *)
Definition is_submit (e : Page.Event) : bool :=
  match e with
  | Page.cpq_form_submit => true
  | _ => false
  end.

Definition is_outcome (e : Page.Event) : bool :=
  match e with
  | Page.cpq_api_ok _ | Page.cpq_api_error _ => true
  | _ => false
  end.

Definition count (p : Page.Event -> bool) (events : list Page.Event) : nat :=
  List.length (filter p events).

(** ** components/FormPrimitives.tsx: FormField *)
Module FormField.

Record Props := {
  id : jsstring;
  label : jsstring;
  hint : option jsstring;
  error : option jsstring;
  required : bool
}.

(** Truthiness of an optional string: defined and not empty. *)
Definition truthy (s : option jsstring) : bool :=
  match s with
  | Some (_ :: _) => true
  | _ => false
  end.

(** [array.join(sep)] *)
Fixpoint join (sep : jsstring) (l : list jsstring) : jsstring :=
  match l with
  | [] => []
  | [x] => x
  | x :: rest => x ++ sep ++ join sep rest
  end.

(** [[hint ? `${id}-hint` : undefined, error ? `${id}-error` : undefined]
    .filter(Boolean)] *)
Definition described_ids (p : Props) : list jsstring :=
  (if truthy (hint p) then [id p ++ lit "-hint"] else [])
  ++ (if truthy (error p) then [id p ++ lit "-error"] else []).

(** A helper paragraph below the control. *)
Record Paragraph := { element_id : jsstring; content : jsstring }.

(** What the field renders around its control: the label, the attributes
    given to the control (a React element, as every child in App.tsx is),
    and the helper paragraphs. *)
Record View := {
  label_for : jsstring;
  label_text : jsstring;
  required_mark : bool;
  control_id : jsstring;
  aria_describedby : option jsstring;
  aria_invalid : bool;
  paragraphs : list Paragraph
}.

Definition text_of (s : option jsstring) : jsstring :=
  match s with
  | Some t => t
  | None => []
  end.

Definition FormField (p : Props) : View :=
  {| label_for := id p;
     label_text := label p;
     required_mark := required p;
     control_id := id p;
     aria_describedby :=
       match join (lit " ") (described_ids p) with
       | [] => None
       | c :: s => Some (c :: s)
       end;
     aria_invalid := truthy (error p);
     paragraphs :=
       (if truthy (hint p) && negb (truthy (error p))
        then [{| element_id := id p ++ lit "-hint";
                 content := text_of (hint p) |}]
        else [])
       ++ (if truthy (error p)
           then [{| element_id := id p ++ lit "-error";
                    content := text_of (error p) |}]
           else []) |}.

End FormField.

(** ** App.tsx: a session of the form

    What the user can do between renders: submit the form (the network
    answering in some way), or press the retry button, which exists only
    while the form shows an error.  Each submission runs to its end before
    the next action; calls that overlap are those of [Page.act]. *)
Module Session.

Import Browser.

Inductive Action :=
| Submit (form : QuoteFields) (network : Request -> Promise Response)
| Retry.

Section Run.

Variable API_BASE : jsstring.
Variable csrfToken : option jsstring.

Definition act (w : World) (a : Action) : World :=
  match a with
  | Submit form network =>
      snd (App.onSubmit API_BASE csrfToken network form w)
  | Retry =>
      if App.retry_button (App.render w) then snd (App.onRetry w) else w
  end.

End Run.

End Session.

(* ================================================================== *)
(** * Patterns: the matcher decides the denotation *)
(* ================================================================== *)

Section RegexCorrect.

Import Regex.

Lemma matches_none_inv {s : jsstring} : ~ matches Rnone s.
Proof. intros H. inversion H. Qed.

Lemma matches_eps_inv (s : jsstring) : matches Reps s -> s = [].
Proof. intros H. inversion H. reflexivity. Qed.

Lemma matches_class_inv (p : code_unit -> bool) (s : jsstring) :
  matches (Rclass p) s <-> exists c, s = [c] /\ p c = true.
Proof.
  split.
  - intros H. inversion H; subst. eauto.
  - intros (c & -> & H). constructor. exact H.
Qed.

Lemma matches_cat_inv (a b : regex) (s : jsstring) :
  matches (Rcat a b) s ->
  exists u t, s = u ++ t /\ matches a u /\ matches b t.
Proof. intros H. inversion H; subst. eauto. Qed.

Lemma matches_alt_inv (a b : regex) (s : jsstring) :
  matches (Ralt a b) s -> matches a s \/ matches b s.
Proof. intros H. inversion H; subst; tauto. Qed.

Lemma matches_cat_nil (a b : regex) (s : jsstring) :
  matches a [] -> matches b s -> matches (Rcat a b) s.
Proof. intros Ha Hb. change s with ([] ++ s). constructor; assumption. Qed.

Lemma matches_cat_cons (a b : regex) (c : code_unit) (u t : jsstring) :
  matches a (c :: u) -> matches b t -> matches (Rcat a b) (c :: u ++ t).
Proof.
  intros Ha Hb. change (c :: u ++ t) with ((c :: u) ++ t).
  constructor; assumption.
Qed.

Lemma nullable_matches (r : regex) : nullable r = true <-> matches r [].
Proof.
  induction r as [| |p|a IHa b IHb|a IHa b IHb|a IHa]; simpl.
  - split; [discriminate | intros H; destruct (matches_none_inv H)].
  - split; [constructor | reflexivity].
  - split; [discriminate|]. intros H. apply matches_class_inv in H.
    destruct H as (c & H & _). discriminate.
  - rewrite andb_true_iff, IHa, IHb. split.
    + intros [Ha Hb]. apply matches_cat_nil; assumption.
    + intros H. apply matches_cat_inv in H.
      destruct H as (u & t & Hs & Ha & Hb).
      symmetry in Hs. apply app_eq_nil in Hs. destruct Hs; subst.
      split; assumption.
  - rewrite orb_true_iff, IHa, IHb. split.
    + intros [H|H]; [apply matches_alt_l | apply matches_alt_r]; assumption.
    + apply matches_alt_inv.
  - split; [constructor | reflexivity].
Qed.

Lemma matches_cat_smart (a b : regex) (s : jsstring) :
  matches (cat a b) s <-> matches (Rcat a b) s.
Proof.
  destruct a; simpl; try tauto.
  - split; intros H.
    + destruct (matches_none_inv H).
    + apply matches_cat_inv in H. destruct H as (u & t & _ & Ha & _).
      destruct (matches_none_inv Ha).
  - split.
    + intros H. apply matches_cat_nil; [constructor | exact H].
    + intros H. apply matches_cat_inv in H.
      destruct H as (u & t & -> & Ha & Hb).
      apply matches_eps_inv in Ha. subst u. exact Hb.
Qed.

Lemma matches_alt_smart (a b : regex) (s : jsstring) :
  matches (alt a b) s <-> matches (Ralt a b) s.
Proof.
  assert (Hl : matches a s -> matches (Ralt a b) s) by apply matches_alt_l.
  assert (Hr : matches b s -> matches (Ralt a b) s) by apply matches_alt_r.
  assert (Hinv := @matches_alt_inv a b s).
  assert (Hnone := @matches_none_inv s).
  destruct a, b; simpl; try tauto.
Qed.

(** A non-empty match of a starred pattern begins with a non-empty match
    of the pattern. *)
Lemma matches_star_cons_inv (a : regex) (c : code_unit) (s : jsstring) :
  matches (Rstar a) (c :: s) ->
  exists s1 s2, s = s1 ++ s2 /\ matches a (c :: s1) /\ matches (Rstar a) s2.
Proof.
  intros H. remember (Rstar a) as r eqn:Hr. remember (c :: s) as u eqn:Hu.
  revert c s Hu.
  induction H as [| | | | | |a' s' t Ha _ Hstar IH]; intros c0 s0 Hu;
    try discriminate.
  inversion Hr; subst a'.
  destruct s' as [|d s'].
  - simpl in Hu. apply (IH Hr c0 s0 Hu).
  - simpl in Hu. inversion Hu; subst. exists s', t. auto.
Qed.

Lemma matches_deriv (r : regex) :
  forall c s, matches (deriv c r) s <-> matches r (c :: s).
Proof.
  induction r as [| |p|a IHa b IHb|a IHa b IHb|a IHa]; intros c s; simpl.
  - split; intros H; destruct (matches_none_inv H).
  - split; intros H.
    + destruct (matches_none_inv H).
    + apply matches_eps_inv in H. discriminate.
  - rewrite matches_class_inv. destruct (p c) eqn:E; split; intros H.
    + apply matches_eps_inv in H. subst. eauto.
    + destruct H as (d & Hd & _). inversion Hd. constructor.
    + destruct (matches_none_inv H).
    + destruct H as (d & Hd & Hp). inversion Hd; subst. congruence.
  - rewrite matches_alt_smart. split.
    + intros H. apply matches_alt_inv in H. destruct H as [H|H].
      * apply matches_cat_smart, matches_cat_inv in H.
        destruct H as (u & t & -> & Ha & Hb).
        apply matches_cat_cons; [apply IHa; exact Ha | exact Hb].
      * destruct (nullable a) eqn:N; [|destruct (matches_none_inv H)].
        apply matches_cat_nil; [apply nullable_matches; exact N|].
        apply IHb. exact H.
    + intros H. apply matches_cat_inv in H.
      destruct H as (u & t & Hs & Ha & Hb).
      destruct u as [|d u]; simpl in Hs.
      * subst t. apply matches_alt_r.
        apply nullable_matches in Ha. rewrite Ha. apply IHb. exact Hb.
      * inversion Hs; subst. apply matches_alt_l.
        apply matches_cat_smart. constructor; [apply IHa; exact Ha | exact Hb].
  - rewrite matches_alt_smart. split; intros H;
      apply matches_alt_inv in H; destruct H as [H|H];
      solve [apply matches_alt_l; apply IHa; exact H
            | apply matches_alt_r; apply IHb; exact H].
  - rewrite matches_cat_smart. split.
    + intros H. apply matches_cat_inv in H.
      destruct H as (u & t & -> & Ha & Hb).
      apply IHa in Ha. change (c :: u ++ t) with ((c :: u) ++ t).
      constructor; assumption.
    + intros H. apply matches_star_cons_inv in H.
      destruct H as (s1 & s2 & -> & Ha & Hs).
      constructor; [apply IHa; exact Ha | exact Hs].
Qed.

(** [test] accepts exactly the strings the pattern denotes. *)
Lemma test_matches (s : jsstring) :
  forall r, test r s = true <-> matches r s.
Proof.
  unfold test. induction s as [|c s IH]; intros r; simpl.
  - apply nullable_matches.
  - rewrite IH. apply matches_deriv.
Qed.

(** Runs of one class. *)
Lemma matches_star_class (p : code_unit -> bool) (s : jsstring) :
  matches (Rstar (Rclass p)) s <-> forallb p s = true.
Proof.
  split.
  - revert s. induction s as [|c s IH]; intros H; [reflexivity|].
    apply matches_star_cons_inv in H.
    destruct H as (s1 & s2 & -> & Ha & Hs).
    apply matches_class_inv in Ha. destruct Ha as (d & Hd & Hp).
    inversion Hd; subst. simpl. rewrite Hp. apply IH. exact Hs.
  - induction s as [|c s IH]; simpl; intros H.
    + constructor.
    + apply andb_true_iff in H. destruct H as [Hc Hs].
      change (c :: s) with ([c] ++ s).
      constructor; [constructor; exact Hc | apply IH; exact Hs].
Qed.

Lemma matches_rep_class (p : code_unit -> bool) (n : nat) :
  forall s, matches (Rrep n (Rclass p)) s <->
            List.length s = n /\ forallb p s = true.
Proof.
  induction n as [|n IH]; intros s; simpl.
  - split.
    + intros H. apply matches_eps_inv in H. subst. split; reflexivity.
    + intros [Hl _]. destruct s; [constructor | discriminate].
  - split.
    + intros H. apply matches_cat_inv in H.
      destruct H as (u & t & -> & Ha & Hb).
      apply matches_class_inv in Ha. destruct Ha as (c & -> & Hc).
      apply IH in Hb. destruct Hb as [Hl Hf].
      simpl. rewrite Hl, Hf, Hc. split; reflexivity.
    + intros [Hl Hf]. destruct s as [|c s]; [discriminate|].
      simpl in Hl, Hf. apply andb_true_iff in Hf. destruct Hf as [Hc Hf].
      change (c :: s) with ([c] ++ s).
      constructor; [constructor; exact Hc|]. apply IH. split; [lia | exact Hf].
Qed.

Lemma matches_at_least_class (p : code_unit -> bool) (n : nat) (s : jsstring) :
  matches (Rat_least n (Rclass p)) s <->
  (n <= List.length s)%nat /\ forallb p s = true.
Proof.
  unfold Rat_least. split.
  - intros H. apply matches_cat_inv in H.
    destruct H as (u & t & -> & Ha & Hb).
    apply matches_rep_class in Ha. apply matches_star_class in Hb.
    destruct Ha as [Hl Hf]. rewrite length_app, forallb_app, Hf, Hb.
    split; [lia | reflexivity].
  - intros [Hl Hf].
    rewrite <- (firstn_skipn n s) in Hf |- *.
    rewrite forallb_app in Hf. apply andb_true_iff in Hf.
    constructor.
    + apply matches_rep_class.
      split; [apply firstn_length_le; exact Hl | tauto].
    + apply matches_star_class. tauto.
Qed.

Lemma matches_plus_class (p : code_unit -> bool) (s : jsstring) :
  matches (Rplus (Rclass p)) s <-> s <> [] /\ forallb p s = true.
Proof.
  unfold Rplus. split.
  - intros H. apply matches_cat_inv in H.
    destruct H as (u & t & -> & Ha & Hb).
    apply matches_class_inv in Ha. destruct Ha as (c & -> & Hc).
    apply matches_star_class in Hb.
    simpl. split; [discriminate|]. rewrite Hb, Hc. reflexivity.
  - intros [Hne Hf]. destruct s as [|c s]; [contradiction|].
    simpl in Hf. apply andb_true_iff in Hf.
    change (c :: s) with ([c] ++ s).
    constructor; [constructor; tauto | apply matches_star_class; tauto].
Qed.

End RegexCorrect.

(* ================================================================== *)
(** * validation.ts: what each field accepts *)
(* ================================================================== *)

Lemma forallb_pointwise {A} (p q : A -> bool) (l : list A) :
  (forall x, p x = q x) -> forallb p l = forallb q l.
Proof.
  intros H. induction l as [|x l IH]; simpl; [reflexivity|].
  rewrite H, IH. reflexivity.
Qed.

Lemma lit_at : lit "@" = [64%N].
Proof. vm_compute. reflexivity. Qed.

Lemma lit_dot : lit "." = [46%N].
Proof. vm_compute. reflexivity. Qed.

Lemma matches_chr_at (s : jsstring) :
  matches (Regex.chr "@") s <-> s = [64%N].
Proof.
  unfold Regex.chr. rewrite matches_class_inv, lit_at. simpl. split.
  - intros (c & -> & H). rewrite orb_false_r in H. apply N.eqb_eq in H.
    subst. reflexivity.
  - intros ->. exists 64%N. split; reflexivity.
Qed.

Lemma matches_chr_dot (s : jsstring) :
  matches (Regex.chr ".") s <-> s = [46%N].
Proof.
  unfold Regex.chr. rewrite matches_class_inv, lit_dot. simpl. split.
  - intros (c & -> & H). rewrite orb_false_r in H. apply N.eqb_eq in H.
    subst. reflexivity.
  - intros ->. exists 46%N. split; reflexivity.
Qed.

Lemma word_char_class :
  Validation.word_char
  = Regex.Rclass
      (fun c => Regex.in_range "a" "z" c || Regex.in_range "A" "Z" c
                || Regex.in_range "0" "9" c
                || existsb (N.eqb c) (lit "_")).
Proof. reflexivity. Qed.

Lemma word_class_is_word (c : code_unit) :
  (Regex.in_range "a" "z" c || Regex.in_range "A" "Z" c
   || Regex.in_range "0" "9" c || existsb (N.eqb c) (lit "_"))
  = is_word c.
Proof.
  unfold Regex.in_range, is_word.
  replace (lit "a") with [97%N] by (vm_compute; reflexivity).
  replace (lit "z") with [122%N] by (vm_compute; reflexivity).
  replace (lit "A") with [65%N] by (vm_compute; reflexivity).
  replace (lit "Z") with [90%N] by (vm_compute; reflexivity).
  replace (lit "0") with [48%N] by (vm_compute; reflexivity).
  replace (lit "9") with [57%N] by (vm_compute; reflexivity).
  replace (lit "_") with [95%N] by (vm_compute; reflexivity).
  cbn [existsb]. rewrite orb_false_r. reflexivity.
Qed.

Lemma address_class_is_address_char (c : code_unit) :
  negb (Regex.is_space c || existsb (N.eqb c) (lit "@")) = is_address_char c.
Proof.
  unfold is_address_char. rewrite lit_at. cbn [existsb].
  rewrite orb_false_r, negb_orb. reflexivity.
Qed.

(** The Telegram pattern in closed form. *)
Lemma tg_re_closed_form (s : jsstring) :
  Regex.test Validation.tg_re s = tg_name_ok s.
Proof.
  apply eq_true_iff_eq. rewrite test_matches.
  unfold Validation.tg_re, Regex.Rseq, Regex.Ropt, tg_name_ok.
  rewrite word_char_class. split.
  - intros H. apply matches_cat_inv in H.
    destruct H as (u & t & -> & Hu & Ht).
    apply matches_at_least_class in Ht. destruct Ht as [Hl Hf].
    rewrite (forallb_pointwise _ is_word _ word_class_is_word) in Hf.
    apply matches_alt_inv in Hu. destruct Hu as [Hu|Hu].
    + apply matches_eps_inv in Hu. subst u. cbn [app].
      destruct t as [|c t]; [simpl in Hl; lia|].
      destruct (c =? 64)%N eqn:E.
      * apply N.eqb_eq in E. subst c. simpl in Hf. discriminate.
      * cbv beta iota zeta.
        apply andb_true_iff. split; [apply Nat.leb_le; exact Hl | exact Hf].
    + apply matches_chr_at in Hu. subst u. cbn [app].
      rewrite N.eqb_refl. cbv beta iota zeta.
      apply andb_true_iff. split; [apply Nat.leb_le; exact Hl | exact Hf].
  - destruct s as [|c s].
    + intros H. apply andb_true_iff in H. destruct H as [Hl _].
      apply Nat.leb_le in Hl. simpl in Hl. lia.
    + destruct (c =? 64)%N eqn:E; cbv beta iota zeta; intros H;
        apply andb_true_iff in H; destruct H as [Hl Hf];
        apply Nat.leb_le in Hl.
      * apply N.eqb_eq in E. subst c. change (64%N :: s) with ([64%N] ++ s).
        constructor.
        -- apply matches_alt_r. apply matches_chr_at. reflexivity.
        -- apply matches_at_least_class. split; [exact Hl|].
           rewrite (forallb_pointwise _ is_word _ word_class_is_word).
           exact Hf.
      * apply matches_cat_nil; [apply matches_alt_l; constructor|].
        apply matches_at_least_class. split; [exact Hl|].
        rewrite (forallb_pointwise _ is_word _ word_class_is_word).
        exact Hf.
Qed.

Lemma matches_address_run (s : jsstring) :
  matches (Regex.Rplus Validation.not_space_at) s <->
  s <> [] /\ forallb is_address_char s = true.
Proof.
  unfold Validation.not_space_at. rewrite matches_plus_class.
  rewrite (forallb_pointwise _ is_address_char _ address_class_is_address_char).
  tauto.
Qed.

(** The e-mail pattern in closed form. *)
Lemma email_re_closed_form (s : jsstring) :
  Regex.test Validation.email_re s = true <->
  exists a b c, address_parts s a b c.
Proof.
  rewrite test_matches. unfold Validation.email_re, Regex.Rseq, address_parts.
  split.
  - intros H.
    apply matches_cat_inv in H. destruct H as (a & r1 & -> & Ha & H).
    apply matches_cat_inv in H. destruct H as (x & r2 & -> & Hx & H).
    apply matches_cat_inv in H. destruct H as (b & r3 & -> & Hb & H).
    apply matches_cat_inv in H. destruct H as (y & c & -> & Hy & Hc).
    apply matches_chr_at in Hx. apply matches_chr_dot in Hy. subst x y.
    apply matches_address_run in Ha, Hb, Hc.
    exists a, b, c. tauto.
  - intros (a & b & c & -> & Ha & Hb & Hc & Fa & Fb & Fc).
    constructor; [apply matches_address_run; tauto|].
    constructor; [apply matches_chr_at; reflexivity|].
    constructor; [apply matches_address_run; tauto|].
    constructor; [apply matches_chr_dot; reflexivity|].
    apply matches_address_run; tauto.
Qed.

Section FieldSchemas.

Import Zod.

(** A string field with one check, optional, with the empty string as the
    second alternative: it parses a string when the check passes or the
    string is empty. *)
Lemma checked_field_parses (p : jsstring -> bool) (s : jsstring) :
  parses (z_string |> z_check (on_string p) |> z_optional
          |> z_or Validation.empty_to_undefined) (JString s)
  = p s || str_eqb s (lit "").
Proof.
  unfold parses, z_or, z_optional, z_check, z_string, on_string,
    Validation.empty_to_undefined, z_transform, z_literal.
  destruct (p s); [reflexivity|]. simpl.
  destruct (str_eqb s (lit "")); reflexivity.
Qed.

Lemma text_field_parses (k : Z) (v : jsval) :
  (0 <= k)%Z ->
  parses (z_string |> z_maxlen k |> z_optional
          |> z_or Validation.empty_to_undefined) v = true
  <-> text_within k v.
Proof.
  intros Hk. unfold text_within.
  destruct v as [| |b|n|s|];
    try (split; [discriminate | intros [H|(s & H & _)]; discriminate]).
  - split; [left; reflexivity | reflexivity].
  - unfold z_maxlen. rewrite checked_field_parses.
    rewrite orb_true_iff, negb_true_iff, Z.ltb_ge, str_eqb_eq. split.
    + intros [H| ->].
      * right. exists s. split; [reflexivity | exact H].
      * right. exists (lit ""). split; [reflexivity | exact Hk].
    + intros [H|(t & H & Hl)]; [discriminate|].
      inversion H; subst t. left. exact Hl.
Qed.

Lemma phone_field_parses (v : jsval) :
  parses (z_string |> z_optional |> z_or Validation.empty_to_undefined) v
    = true
  <-> v = JUndefined \/ exists s, v = JString s.
Proof.
  destruct v as [| |b|n|s|];
    try (split; [discriminate | intros [H|(s & H)]; discriminate]).
  - split; [left; reflexivity | reflexivity].
  - split; [right; exists s; reflexivity | reflexivity].
Qed.

Lemma enum_field_parses (options : list jsstring) (v : jsval) :
  parses (z_enum options) v = true <-> exists s, In s options /\ v = JString s.
Proof.
  unfold parses, z_enum.
  destruct v as [| |b|n|s|];
    try (split; [discriminate | intros (s & _ & H); discriminate]).
  destruct (existsb (str_eqb s) options) eqn:E.
  - apply existsb_str_eqb in E. split; [eauto | reflexivity].
  - split; [discriminate|]. intros (t & Hin & H). inversion H; subst t.
    apply existsb_str_eqb in Hin. congruence.
Qed.

End FieldSchemas.

(** Uses the acceptance of [data] for every field the goal leaves as it
    was. *)
Ltac other_fields H :=
  rewrite accepts_fields in H;
  rewrite accepts_fields;
  unfold with_tg, with_email, with_x, with_qty;
  cbn [with_numbers with_print with_contacts with_style with_sla
       fefco x_mm y_mm z_mm material print qty sla_type company contact_name
       city phone email tg_username];
  rewrite !andb_true_iff in H;
  repeat match type of H with _ /\ _ => destruct H as [H ?] end;
  repeat match goal with
    | K : parses _ _ = true |- _ => rewrite ?K; clear K
    end;
  rewrite ?andb_true_l, ?andb_true_r.

Section FieldOutputs.

Import Zod.

Lemma blank_to_undefined_twice (v : jsval) :
  Part001.blank_to_undefined (Part001.blank_to_undefined v)
  = Part001.blank_to_undefined v.
Proof. destruct v as [| |b|n|[|c s]|]; reflexivity. Qed.

Lemma blank_to_undefined_not_blank (v : jsval) :
  Part001.blank_to_undefined v <> JString (lit "").
Proof. destruct v as [| |b|n|[|c s]|]; discriminate. Qed.

(** A field that parses still parses once its empty string is dropped. *)
Lemma parses_blank_dropped (a : Schema) (v : jsval) :
  parses (z_or Validation.empty_to_undefined (z_optional a)) v = true ->
  parses (z_or Validation.empty_to_undefined (z_optional a))
    (Part001.blank_to_undefined v) = true.
Proof.
  destruct v as [| |b|n|[|c s]|]; try (intros H; exact H).
  intros _. reflexivity.
Qed.

End FieldOutputs.

Section ValidationExtras.

Import Zod Options Validation.

(** X1: on an input that is otherwise accepted, a Telegram name is accepted
    exactly when it is empty or, after an optional leading [@], consists of
    at least five characters that are all ASCII letters, digits or [_]. *)
Theorem tg_username_accepted_iff (data : QuoteFields) (s : jsstring) :
  accepts data = true ->
  (accepts (with_tg (JString s) data) = true
   <-> s = lit "" \/ tg_name_ok s = true).
Proof.
  intros Hacc. other_fields Hacc.
  unfold z_regex. rewrite checked_field_parses, tg_re_closed_form.
  rewrite orb_true_iff, str_eqb_eq. tauto.
Qed.

(** An address has no white space and exactly one [@]. *)
Lemma address_parts_shape (s a b c : jsstring) :
  address_parts s a b c ->
  forallb (fun ch => negb (Regex.is_space ch)) s = true
  /\ count_occ N.eq_dec s 64%N = 1%nat.
Proof.
  intros (-> & _ & _ & _ & Fa & Fb & Fc).
  assert (Hrun : forall l, forallb is_address_char l = true ->
            forallb (fun ch => negb (Regex.is_space ch)) l = true
            /\ count_occ N.eq_dec l 64%N = 0%nat).
  { induction l as [|x l IH]; simpl; [auto|].
    intros H. apply andb_true_iff in H. destruct H as [Hx Hl].
    unfold is_address_char in Hx. apply andb_true_iff in Hx.
    destruct Hx as [Hs Hat]. destruct (IH Hl) as [IH1 IH2].
    rewrite Hs, IH1. split; [reflexivity|].
    destruct (N.eq_dec x 64) as [->|_]; [discriminate | exact IH2]. }
  destruct (Hrun a Fa) as [Sa Ca]. destruct (Hrun b Fb) as [Sb Cb].
  destruct (Hrun c Fc) as [Sc Cc].
  rewrite !forallb_app, !count_occ_app. unfold jsstring, code_unit in *.
  rewrite Sa, Sb, Sc, Ca, Cb, Cc. split; reflexivity.
Qed.

(** X2: on an input that is otherwise accepted, an e-mail address is
    accepted exactly when it is empty or has the form [a@b.c] with [a], [b]
    and [c] non-empty and free of white space and [@]; an accepted
    non-empty address therefore has no white space and exactly one [@]. *)
Theorem email_accepted_iff (data : QuoteFields) (s : jsstring) :
  accepts data = true ->
  (accepts (with_email (JString s) data) = true
   <-> s = lit "" \/ exists a b c, address_parts s a b c)
  /\ (accepts (with_email (JString s) data) = true -> s <> lit "" ->
      forallb (fun ch => negb (Regex.is_space ch)) s = true
      /\ count_occ N.eq_dec s 64%N = 1%nat).
Proof.
  intros Hacc.
  assert (Hiff : accepts (with_email (JString s) data) = true
                 <-> s = lit "" \/ exists a b c, address_parts s a b c).
  { other_fields Hacc.
    unfold z_regex. rewrite checked_field_parses.
    rewrite orb_true_iff, str_eqb_eq, email_re_closed_form. tauto. }
  split; [exact Hiff|].
  intros H Hne. apply Hiff in H. destruct H as [H|(a & b & c & H)];
    [contradiction|].
  exact (address_parts_shape s a b c H).
Qed.

(** X3: on an input that is otherwise accepted, the four free-text fields
    are accepted exactly when [company] is undefined or a string of at most
    120 code units, [contact_name] and [city] are undefined or strings of
    at most 80, and [phone] is undefined or any string at all: its format
    is not checked, and other values (null, numbers) are rejected. *)
Theorem text_fields_accepted_iff (data : QuoteFields) (c n t p : jsval) :
  accepts data = true ->
  (accepts (with_contacts c n t p (email data) (tg_username data) data) = true
   <-> text_within 120 c /\ text_within 80 n /\ text_within 80 t
       /\ (p = JUndefined \/ exists s, p = JString s)).
Proof.
  intros Hacc. other_fields Hacc.
  rewrite !andb_true_iff.
  rewrite !text_field_parses by lia. rewrite phone_field_parses. tauto.
Qed.

End ValidationExtras.

Section SelectsAndOutputs.

Import Zod Options Validation.

Lemma offered_and_chosen (options : list jsstring) (s : jsstring) :
  existsb (str_eqb (lit "")) options = false ->
  In s (lit "" :: options) ->
  (parses (z_enum options) (JString s) = true <-> s <> lit "").
Proof.
  intros Hblank Hin. rewrite enum_field_parses. split.
  - intros (t & Ht & E) ->. inversion E; subst t.
    apply existsb_str_eqb in Ht. congruence.
  - intros Hne. destruct Hin as [<-|Hin]; [contradiction|].
    exists s. split; [assumption | reflexivity].
Qed.

(** X4: on an input that is otherwise accepted, a value offered by the
    FEFCO, material or delivery-term select box is accepted exactly when it
    is not the placeholder (the empty string): a required select left at
    "— выберите —" blocks the submission, every other option passes. *)
Theorem required_select_accepted_iff (data : QuoteFields) (s : jsstring) :
  accepts data = true ->
  (In s Selects.fefco_values ->
   (accepts (with_style (JString s) (material data) data) = true
    <-> s <> lit ""))
  /\ (In s Selects.material_values ->
      (accepts (with_style (fefco data) (JString s) data) = true
       <-> s <> lit ""))
  /\ (In s Selects.sla_values ->
      (accepts (with_sla (JString s) data) = true <-> s <> lit "")).
Proof.
  intros Hacc. split; [|split]; intros Hin.
  - other_fields Hacc.
    apply (offered_and_chosen fefcoOptions);
      [vm_compute; reflexivity | exact Hin].
  - other_fields Hacc.
    apply (offered_and_chosen materialOptions);
      [vm_compute; reflexivity | exact Hin].
  - other_fields Hacc.
    apply (offered_and_chosen slaOptions);
      [vm_compute; reflexivity | exact Hin].
Qed.

Lemma print_values_listed :
  Selects.print_values = map lit [""; "1+0"; "2+0"; "4+0"; "4+4"]%string.
Proof. vm_compute. reflexivity. Qed.

(** X5: on an input that is otherwise accepted, every value the print
    select box offers is accepted; the parsed [print] is undefined exactly
    for the first option (labelled "без печати", value the empty string)
    and is the chosen value otherwise, so the enum value "без печати"
    itself is never produced by the form. *)
Theorem print_select_outcome (data : QuoteFields) (s : jsstring) :
  accepts data = true ->
  In s Selects.print_values ->
  exists out,
    quoteSchema (with_print (JString s) data) = Some out
    /\ print out <> JString (lit "без печати")
    /\ (print out = JUndefined <-> s = lit "")
    /\ (s <> lit "" -> print out = JString s).
Proof.
  intros Hacc Hin.
  assert (Hok : accepts (with_print (JString s) data) = true).
  { other_fields Hacc. apply print_field_parses.
    rewrite print_values_listed in Hin. simpl in Hin.
    destruct Hin as [<-|Hin]; [right; left; reflexivity|].
    right; right. exists s. split; [|reflexivity].
    unfold printOptions. simpl. tauto. }
  unfold accepts in Hok.
  destruct (quoteSchema (with_print (JString s) data)) as [out|] eqn:E;
    [|discriminate].
  exists out. split; [reflexivity|].
  apply quoteSchema_output in E. subst out.
  unfold blanks_dropped. project_fields.
  rewrite print_values_listed in Hin. simpl in Hin.
  destruct Hin as [<-|[<-|[<-|[<-|[<-|[]]]]]];
    (split; [vm_compute; discriminate|]);
    (split; [split; [intros H; try reflexivity; vm_compute in H; discriminate
                    | intros H; try reflexivity; vm_compute in H; discriminate]
            | intros Hne; try reflexivity; exfalso; apply Hne; reflexivity]).
Qed.

(** X6: a successful parse returns the input itself except that an empty
    string in [print], [email] or [tg_username] has become undefined; every
    other field, an empty [company], [contact_name], [city] or [phone]
    included, is returned as given.  Parsing the output again succeeds and
    returns it unchanged. *)
Theorem parse_output_and_reparse (data out : QuoteFields) :
  quoteSchema data = Some out ->
  out = blanks_dropped data /\ quoteSchema out = Some out.
Proof.
  intros H. pose proof (quoteSchema_output data out H) as Hout.
  split; [exact Hout|].
  assert (Hacc : accepts data = true) by (unfold accepts; rewrite H; reflexivity).
  assert (Hacc' : accepts out = true).
  { subst out. rewrite accepts_fields in Hacc |- *.
    unfold blanks_dropped. project_fields.
    rewrite !andb_true_iff in Hacc |- *.
    repeat match type of Hacc with _ /\ _ => destruct Hacc as [Hacc ?] end.
    repeat split; try assumption; apply parses_blank_dropped; assumption. }
  unfold accepts in Hacc'.
  destruct (quoteSchema out) as [out'|] eqn:E; [|discriminate].
  apply quoteSchema_output in E. rewrite E. f_equal.
  subst out. unfold blanks_dropped. project_fields.
  rewrite !blank_to_undefined_twice. reflexivity.
Qed.

End SelectsAndOutputs.

Section CopyExtras.

Import Zod Options.

Variable email_format : jsstring -> bool.

Lemma parses_first_alternative (a : Schema) (v : jsval) :
  parses a v = true ->
  parses (z_or Validation.empty_to_undefined a) v = true.
Proof. unfold parses, z_or. destruct (a v); [reflexivity | discriminate]. Qed.

(** X7: whatever the second copy of the schema accepts, the schema of
    validation.ts accepts as well, provided every address that passes the
    copy's e-mail format also matches the pattern of validation.ts. *)
Theorem copy_accepts_less (data : QuoteFields) :
  (forall s, email_format s = true ->
             Regex.test Validation.email_re s = true) ->
  Part001.accepts email_format data = true ->
  Validation.accepts data = true.
Proof.
  intros Hformat H.
  rewrite part001_accepts_fields in H. rewrite accepts_fields.
  rewrite !andb_true_iff in H |- *.
  repeat match type of H with _ /\ _ => destruct H as [H ?] end.
  repeat split; try assumption; apply parses_first_alternative;
    try assumption.
  match goal with
  | K : parses (z_optional (z_format email_format z_string)) ?v = true |- _ =>
      revert K; destruct v as [| |b|n|s|]; try (intros K; exact K)
  end.
  unfold parses, z_optional, z_format, z_regex, z_check, z_string, on_string.
  destruct (email_format s) eqn:E; [|discriminate].
  rewrite (Hformat s E). reflexivity.
Qed.

(** X8: the payload the second copy makes from a parsed input never holds
    the empty string: no member of the request body built from it has the
    value [''], whichever field it is. *)
Theorem copy_payload_has_no_blank (data out : QuoteFields) :
  Part001.quoteSchema email_format data = Some out ->
  forall k, ~ In (k, JString (lit ""))
              (Browser.JSON_stringify (Part001.toPayload out)).
Proof.
  intros H k Hin.
  assert (Hacc : Part001.accepts email_format data = true)
    by (unfold Part001.accepts; rewrite H; reflexivity).
  apply part001_output in H. subst out.
  rewrite part001_accepts_fields in Hacc.
  rewrite !andb_true_iff in Hacc.
  repeat match type of Hacc with _ /\ _ => destruct Hacc as [Hacc ?] end.
  unfold Browser.JSON_stringify in Hin. apply filter_In in Hin.
  destruct Hin as [Hin _]. unfold Browser.members, Part001.toPayload in Hin.
  project_fields.
  assert (Henum : forall options v,
            existsb (str_eqb (lit "")) options = false ->
            parses (z_enum options) v = true -> v <> JString (lit "")).
  { intros options v Hb Hp ->. apply enum_field_parses in Hp.
    destruct Hp as (t & Ht & E). inversion E; subst t.
    apply existsb_str_eqb in Ht. congruence. }
  assert (Hnum : forall lo hi v,
            parses (z_number |> z_int |> z_min lo |> z_max hi) v = true ->
            v <> JString (lit "")).
  { intros lo hi v Hp ->. apply bounded_int_parses in Hp.
    destruct Hp as (n & q & E & _). discriminate. }
  simpl in Hin.
  repeat match type of Hin with
    | _ \/ _ => destruct Hin as [Hin|Hin]
    end;
    try (inversion Hin; subst;
         match goal with
         | K : Part001.blank_to_undefined _ = JString (lit "") |- _ =>
             exact (blank_to_undefined_not_blank _ K)
         | K : fefco data = JString (lit "") |- _ =>
             eapply (Henum fefcoOptions); [vm_compute; reflexivity | eassumption | exact K]
         | K : material data = JString (lit "") |- _ =>
             eapply (Henum materialOptions); [vm_compute; reflexivity | eassumption | exact K]
         | K : sla_type data = JString (lit "") |- _ =>
             eapply (Henum slaOptions); [vm_compute; reflexivity | eassumption | exact K]
         | K : ?f data = JString (lit "") |- _ =>
             eapply (Hnum _ _ (f data)); [eassumption | exact K]
         end);
    try (destruct Hin).
Qed.

End CopyExtras.

(* ================================================================== *)
(** * api.ts: the CSRF token read from the cookie *)
(* ================================================================== *)

Section CookieFacts.

Import Cookie.

Lemma strip_prefix_Some (p : jsstring) :
  forall s r, strip_prefix p s = Some r <-> s = p ++ r.
Proof.
  induction p as [|x p IH]; intros s r; simpl.
  - split; [intros H; inversion H; reflexivity | intros ->; reflexivity].
  - destruct s as [|y s]; [split; discriminate|].
    destruct (x =? y)%N eqn:E.
    + apply N.eqb_eq in E. subst y. rewrite IH. split.
      * intros ->. reflexivity.
      * intros H. inversion H. reflexivity.
    + split; [discriminate|]. intros H. inversion H; subst.
      rewrite N.eqb_refl in E. discriminate.
Qed.

(** The run stops at the first [;] or at the end of the string. *)
Lemma token_run_split (s : jsstring) :
  exists post,
    s = token_run s ++ post /\ ~ In 59%N (token_run s)
    /\ (post = [] \/ exists q, post = 59%N :: q).
Proof.
  induction s as [|c s (post & Hs & Hno & Hpost)]; simpl.
  - exists []. split; [reflexivity|]. split; [tauto | left; reflexivity].
  - destruct (c =? 59)%N eqn:E.
    + apply N.eqb_eq in E. subst c. exists (59%N :: s).
      split; [reflexivity|]. split; [simpl; tauto | right; eauto].
    + apply N.eqb_neq in E. exists post. simpl.
      split; [f_equal; exact Hs|]. split; [|exact Hpost].
      intros [H|H]; [congruence | contradiction].
Qed.

Lemma match_here_Some (s t : jsstring) :
  match_here s = Some t <->
  t <> [] /\ exists rest, s = lit "csrftoken=" ++ rest /\ t = token_run rest.
Proof.
  unfold match_here.
  destruct (strip_prefix (lit "csrftoken=") s) as [rest|] eqn:E.
  - apply strip_prefix_Some in E. subst s. split.
    + destruct (token_run rest) as [|c u] eqn:R; [discriminate|].
      intros H. inversion H; subst t. split; [discriminate|].
      exists rest. rewrite R. split; reflexivity.
    + intros (Hne & rest' & Hs & Ht). apply app_inv_head in Hs. subst rest'.
      subst t. destruct (token_run rest); [contradiction | reflexivity].
  - split; [discriminate|]. intros (_ & rest & Hs & _).
    apply strip_prefix_Some in Hs. congruence.
Qed.

Lemma cookie_match_sound (cookie : jsstring) :
  forall t, cookie_match cookie = Some t ->
  exists pre rest,
    cookie = pre ++ lit "csrftoken=" ++ rest /\ t = token_run rest /\ t <> [].
Proof.
  induction cookie as [|c cookie IH]; intros t.
  - cbn [cookie_match].
    destruct (match_here []) as [u|] eqn:E; [|discriminate].
    intros H. inversion H; subst u. apply match_here_Some in E.
    destruct E as (Hne & rest & Hs & Ht). exists [], rest. auto.
  - cbn [cookie_match].
    destruct (match_here (c :: cookie)) as [u|] eqn:E.
    + intros H. inversion H; subst u. apply match_here_Some in E.
      destruct E as (Hne & rest & Hs & Ht). exists [], rest. auto.
    + intros H. destruct (IH t H) as (pre & rest & -> & Ht & Hne).
      exists (c :: pre), rest. auto.
Qed.

Lemma cookie_match_complete (pre : jsstring) :
  forall c post, c <> 59%N ->
  cookie_match (pre ++ lit "csrftoken=" ++ c :: post) <> None.
Proof.
  assert (Hhere : forall c post, c <> 59%N ->
            match_here (lit "csrftoken=" ++ c :: post) <> None).
  { intros c post Hc.
    assert (K : match_here (lit "csrftoken=" ++ c :: post)
                = Some (token_run (c :: post))).
    { apply match_here_Some. split.
      - simpl. apply N.eqb_neq in Hc. rewrite Hc. discriminate.
      - exists (c :: post). split; reflexivity. }
    rewrite K. discriminate. }
  induction pre as [|x pre IH]; intros c post Hc.
  - cbn [app].
    destruct (lit "csrftoken=" ++ c :: post) as [|y l] eqn:E;
      cbn [cookie_match]; rewrite <- E;
      (destruct (match_here (lit "csrftoken=" ++ c :: post)) eqn:M;
       [discriminate | exfalso; exact (Hhere c post Hc M)]).
  - cbn [app cookie_match].
    destruct (match_here (x :: pre ++ lit "csrftoken=" ++ c :: post));
      [discriminate | apply IH; exact Hc].
Qed.

Variable decodeURIComponent : jsstring -> Completion jsstring.
Variable API_BASE : jsstring.

(** X9: [getCsrfToken] returns undefined exactly when the cookie string has
    no place where [csrftoken=] is followed by a character other than [;].
    When it returns a token, that token is the decoding of the non-empty
    run of characters that follows such a place up to the next [;] or the
    end of the string; when it throws, the decoding of that run threw.
    With no token in the cookie the request carries an empty
    [X-CSRF-Token] header. *)
Theorem getCsrfToken_reads_the_cookie (cookie : jsstring) :
  (getCsrfToken decodeURIComponent cookie = Normal None
   <-> ~ exists pre c post,
          cookie = pre ++ lit "csrftoken=" ++ c :: post /\ c <> 59%N)
  /\ (forall t,
        getCsrfToken decodeURIComponent cookie = Normal (Some t) ->
        exists pre raw post,
          cookie = pre ++ lit "csrftoken=" ++ raw ++ post
          /\ raw <> [] /\ ~ In 59%N raw
          /\ (post = [] \/ exists q, post = 59%N :: q)
          /\ decodeURIComponent raw = Normal t)
  /\ (forall err,
        getCsrfToken decodeURIComponent cookie = Throws err ->
        exists raw,
          cookie_match cookie = Some raw
          /\ decodeURIComponent raw = Throws err)
  /\ (getCsrfToken decodeURIComponent cookie = Normal None ->
      forall payload,
        In (lit "X-CSRF-Token", lit "")
          (Browser.headers (Api.quote_request API_BASE None payload))).
Proof.
  unfold getCsrfToken. split; [|split; [|split]].
  - destruct (cookie_match cookie) as [raw|] eqn:M.
    + split.
      * destruct (decodeURIComponent raw); discriminate.
      * intros Hno. exfalso. apply Hno.
        apply cookie_match_sound in M.
        destruct M as (pre & rest & -> & Ht & Hne).
        destruct rest as [|c post]; [simpl in Ht; contradiction|].
        exists pre, c, post. split; [reflexivity|].
        intros ->. simpl in Ht. contradiction.
    + split; [|reflexivity]. intros _ (pre & c & post & -> & Hc).
      exact (cookie_match_complete pre c post Hc M).
  - intros t. destruct (cookie_match cookie) as [raw|] eqn:M; [|discriminate].
    destruct (decodeURIComponent raw) as [u|err] eqn:D; [|discriminate].
    intros H. inversion H; subst u.
    apply cookie_match_sound in M. destruct M as (pre & rest & -> & Ht & Hne).
    destruct (token_run_split rest) as (post & Hs & Hno & Hpost).
    exists pre, raw, post. subst raw. rewrite <- Hs. tauto.
  - intros err. destruct (cookie_match cookie) as [raw|]; [|discriminate].
    destruct (decodeURIComponent raw) as [u|e] eqn:D; [discriminate|].
    intros H. inversion H; subst e. exists raw. split; [reflexivity | exact D].
  - intros _ payload. unfold Api.quote_request. cbn [Browser.headers].
    right. left. reflexivity.
Qed.

End CookieFacts.

(* ================================================================== *)
(** * components/FormPrimitives.tsx: FormField *)
(* ================================================================== *)

Section FormFieldFacts.

Import FormField.

Lemma suffixed_id_not_empty (i : jsstring) (suffix : string) :
  lit suffix <> [] -> i ++ lit suffix <> [].
Proof. intros H K. apply app_eq_nil in K. tauto. Qed.

(** X10: what the control of a field is described by, case by case.  With
    a hint and no error, [aria-describedby] is [id-hint] and the hint
    paragraph, with that id, is the only helper paragraph; with an error
    and no hint it is [id-error] and the error paragraph is the only one;
    with neither, the attribute is absent and there is no paragraph.  With
    both a hint and an error the attribute is [id-hint id-error] although
    only the error paragraph is rendered, so its first id names an element
    that is not there.  The control is marked invalid exactly in the cases
    with an error.  An empty hint or error counts as none. *)
Theorem FormField_described_by (p : Props) :
  (forall h e,
      hint p = Some h -> h <> [] -> error p = Some e -> e <> [] ->
      aria_describedby (FormField p)
        = Some ((id p ++ lit "-hint") ++ lit " " ++ (id p ++ lit "-error"))
      /\ paragraphs (FormField p)
         = [{| element_id := id p ++ lit "-error"; content := e |}]
      /\ aria_invalid (FormField p) = true)
  /\ (forall h,
        hint p = Some h -> h <> [] -> error p = None \/ error p = Some [] ->
        aria_describedby (FormField p) = Some (id p ++ lit "-hint")
        /\ paragraphs (FormField p)
           = [{| element_id := id p ++ lit "-hint"; content := h |}]
        /\ aria_invalid (FormField p) = false)
  /\ (forall e,
        hint p = None \/ hint p = Some [] -> error p = Some e -> e <> [] ->
        aria_describedby (FormField p) = Some (id p ++ lit "-error")
        /\ paragraphs (FormField p)
           = [{| element_id := id p ++ lit "-error"; content := e |}]
        /\ aria_invalid (FormField p) = true)
  /\ (hint p = None \/ hint p = Some [] ->
      error p = None \/ error p = Some [] ->
      aria_describedby (FormField p) = None
      /\ paragraphs (FormField p) = []
      /\ aria_invalid (FormField p) = false)
  /\ control_id (FormField p) = id p
  /\ label_for (FormField p) = id p.
Proof.
  assert (Hh : forall t, id p ++ lit "-hint" ++ t <> []).
  { intros t K. apply app_eq_nil in K. destruct K as [_ K].
    vm_compute in K. discriminate. }
  assert (He : id p ++ lit "-error" <> [])
    by (apply suffixed_id_not_empty; vm_compute; discriminate).
  assert (Hsome : forall x : jsstring, x <> [] ->
            match x with [] => None | c :: s => Some (c :: s) end = Some x).
  { intros [|c x] Hx; [contradiction | reflexivity]. }
  assert (Hyes : forall t : jsstring, t <> [] -> truthy (Some t) = true).
  { intros [|c t] Ht; [contradiction | reflexivity]. }
  assert (Hno : forall o : option jsstring,
            o = None \/ o = Some [] -> truthy o = false).
  { intros o [->| ->]; reflexivity. }
  unfold FormField, described_ids.
  cbn [paragraphs aria_invalid aria_describedby control_id label_for].
  split; [|split; [|split; [|split; [|split]]]]; try reflexivity.
  - intros h e Eh Hhne Ee Hene. rewrite Eh, Ee.
    rewrite (Hyes h Hhne), (Hyes e Hene). cbn [andb negb app join text_of].
    split; [|split; reflexivity].
    apply Hsome. rewrite <- app_assoc. apply Hh.
  - intros h Eh Hhne Ee. rewrite (Hno _ Ee), Eh, (Hyes h Hhne).
    cbn [andb negb app join text_of].
    split; [|split; reflexivity].
    apply Hsome. specialize (Hh []). rewrite app_nil_r in Hh. exact Hh.
  - intros e Eh Ee Hene. rewrite (Hno _ Eh), Ee, (Hyes e Hene).
    cbn [andb negb app join text_of].
    split; [|split; reflexivity]. apply Hsome. exact He.
  - intros Eh Ee. rewrite (Hno _ Eh), (Hno _ Ee).
    cbn [andb negb app join]. repeat split.
Qed.

End FormFieldFacts.

(* ================================================================== *)
(** * The page as the browser runs it: untyped bodies *)
(* ================================================================== *)

Section UntypedValues.

Import Page.

Lemma lookup_None (key : jsstring) (entries : list (jsstring * Json)) :
  lookup key entries = None <-> ~ In key (map fst entries).
Proof.
  induction entries as [|[k v] rest IH]; simpl.
  - tauto.
  - destruct (lookup key rest) as [later|].
    + split; [discriminate|]. intros H. exfalso.
      assert (K : ~ In key (map fst rest)) by tauto.
      apply IH in K. discriminate.
    + destruct (str_eqb k key) eqn:E.
      * apply str_eqb_eq in E. split; [discriminate | tauto].
      * split; [|reflexivity]. intros _ [H|H].
        -- subst k. rewrite str_eqb_refl in E. discriminate.
        -- apply IH in H; [exact H | reflexivity].
Qed.

Lemma lookup_Some (key : jsstring) (x : Json)
  (entries : list (jsstring * Json)) :
  lookup key entries = Some x
  <-> exists before after,
        entries = before ++ (key, x) :: after /\ ~ In key (map fst after).
Proof.
  split.
  - induction entries as [|[k v] rest IH]; simpl; [discriminate|].
    destruct (lookup key rest) as [later|] eqn:L.
    + intros H. inversion H; subst later.
      destruct (IH eq_refl) as (before & after & -> & Hno).
      exists ((k, v) :: before), after. split; [reflexivity | exact Hno].
    + destruct (str_eqb k key) eqn:E; [|discriminate].
      apply str_eqb_eq in E. subst k. intros H. inversion H; subst v.
      exists [], rest. split; [reflexivity|]. apply lookup_None. exact L.
  - intros (before & after & -> & Hno).
    induction before as [|[k v] before IH]; simpl.
    + apply lookup_None in Hno. rewrite Hno, str_eqb_refl. reflexivity.
    + rewrite IH. reflexivity.
Qed.

(** [member] reads what [Member] describes. *)
Lemma member_spec (k : Key) (body : Json) (v : option Json) :
  Member body (name k) v <-> member k body = v.
Proof.
  unfold Member, member. destruct v as [x|].
  - split.
    + intros (before & after & -> & Hno). apply lookup_Some. eauto.
    + destruct body as [| | | | |entries]; try discriminate.
      intros H. apply lookup_Some in H.
      destruct H as (before & after & -> & Hno). eauto.
  - split.
    + intros H. destruct body as [| | | | |entries]; try reflexivity.
      apply lookup_None. apply H. reflexivity.
    + destruct body as [| | | | |entries]; try discriminate.
      intros H es E. inversion E; subst es. apply lookup_None. exact H.
Qed.

(** [truthy] decides [Truthy]. *)
Lemma truthy_spec (v : Json) : truthy (Some v) = true <-> Truthy v.
Proof.
  destruct v as [|b|[|neg|q]|[|c s]|items|entries]; simpl;
    try (split; [discriminate | intros H; inversion H]);
    try (split; [intros _; constructor | reflexivity]).
  - destruct b; split; try discriminate; try reflexivity;
      [intros _; constructor | intros H; inversion H].
  - rewrite negb_true_iff. split.
    + intros H. constructor. intros K. apply Qeq_bool_iff in K. congruence.
    + intros H. inversion H as [|q' Hq| | | |]; subst.
      destruct (Qeq_bool q 0) eqn:E; [|reflexivity].
      apply Qeq_bool_iff in E. contradiction.
Qed.

Lemma truthy_member_object (k : Key) (body : Json) :
  truthy (member k body) = true -> truthy (Some body) = true.
Proof.
  destruct body as [| | | | |entries]; try discriminate. reflexivity.
Qed.

End UntypedValues.

Ltac prun :=
  cbv beta iota zeta delta
    [Page.onSubmit Page.submit_values Page.postQuote Page.fetch
     Page.text_or_empty Page.read_json Page.caught Page.bind Page.ret
     Page.console_log Page.record_request Page.record_read Page.pushEvent
     Page.setStatus Page.setResult Page.start Page.finish Page.onRetry
     Page.onLinkClick fst snd Page.console Page.requests Page.body_reads
     Page.dataLayer Page.status Page.result negb].

Section PageSubmission.

Import Browser Cookie Page.

Variable API_BASE : jsstring.
Variable decodeURIComponent : jsstring -> Completion jsstring.
Variable cookie : jsstring.
Variable network : Request -> Promise Response.

(** The events of [window.dataLayer], none when it is undefined. *)
Definition events_of (w : World) : list Event :=
  match dataLayer w with
  | Some events => events
  | None => []
  end.

(** The event the handler pushes for a result. *)
Definition outcome_event (res : Json) : Event :=
  if truthy (member Ok res) then cpq_api_ok (member LeadId res)
  else cpq_api_error (member Error res).

(** What one call of [postQuote] settles to, sends and reads. *)
Definition call_summary (payload : QuoteFormPayload)
  : Promise Json * list Request * list BodyRead :=
  match getCsrfToken decodeURIComponent cookie with
  | Throws err => (Rejected err, [], [])
  | Normal token =>
      match network (Api.quote_request API_BASE token payload) with
      | Rejected err =>
          (Rejected err, [Api.quote_request API_BASE token payload], [])
      | Resolved res =>
          if includes (or_else (content_type res) (lit ""))
               (lit "application/json")
          then (json res, [Api.quote_request API_BASE token payload],
                [ReadJson])
          else (Resolved
                  (failure
                     (lit "Unexpected response: "
                      ++ match text res with
                         | Resolved (c :: t) => c :: t
                         | _ => statusText res
                         end)),
                [Api.quote_request API_BASE token payload], [ReadText])
      end
  end.

Lemma postQuote_run (payload : QuoteFormPayload) (w0 : World) :
  postQuote API_BASE decodeURIComponent cookie network payload w0
  = (fst (fst (call_summary payload)),
     {| console := console w0
                   ++ [[LogString (lit "postQuote called"); LogObject payload]];
        requests := requests w0 ++ snd (fst (call_summary payload));
        body_reads := body_reads w0 ++ snd (call_summary payload);
        dataLayer := dataLayer w0; status := status w0;
        result := result w0 |}).
Proof.
  prun. unfold call_summary.
  destruct (getCsrfToken decodeURIComponent cookie) as [token|err];
    cbv beta iota; [|cbn [fst snd]; rewrite !app_nil_r; reflexivity].
  destruct (network (Api.quote_request API_BASE token payload)) as [res|err];
    cbv beta iota; [|cbn [fst snd]; rewrite app_nil_r; reflexivity].
  destruct (includes (or_else (content_type res) (lit ""))
              (lit "application/json")); cbv beta iota; cbn [fst snd];
    [reflexivity|].
  destruct (text res) as [[|c t]|err]; reflexivity.
Qed.

(** The final part of the handler: nothing changes on a null result,
    whose read throws; any other result is stored, reported and decides
    the state by the truthiness of its [ok]. *)
Lemma settle_run (res : Json) (w : World) :
  settle res w
  = match res with
    | JsonNull => (Uncaught, w)
    | _ =>
        (Returned,
         {| console := console w; requests := requests w;
            body_reads := body_reads w;
            dataLayer := Some (events_of w ++ [outcome_event res]);
            status := if truthy (member Ok res) then success else error;
            result := res |})
    end.
Proof.
  unfold settle, outcome_event, events_of.
  destruct res as [|b|n|s|items|entries]; try reflexivity;
    destruct (truthy _); reflexivity.
Qed.

(** The world in which a call of the handler awaits [postQuote]. *)
Definition submitted (values : QuoteFormData) (w0 : World) : World :=
  {| console :=
       console w0
       ++ [ [LogString (lit "onSubmit values"); LogObject values];
            [LogString (lit "postQuote called");
             LogObject (Validation.toPayload values)] ];
     requests :=
       requests w0
       ++ snd (fst (call_summary (Validation.toPayload values)));
     body_reads :=
       body_reads w0 ++ snd (call_summary (Validation.toPayload values));
     dataLayer := Some (events_of w0 ++ [cpq_form_submit]);
     status := loading;
     result := JsonNull |}.

Lemma onSubmit_run (form values : QuoteFields) (w0 : World) :
  Validation.quoteSchema form = Some values ->
  onSubmit API_BASE decodeURIComponent cookie network form w0
  = settle
      (caught (fst (fst (call_summary (Validation.toPayload values)))))
      (submitted values w0).
Proof.
  intros Hparse. unfold onSubmit. rewrite Hparse.
  unfold submit_values.
  cbv beta iota zeta delta [bind console_log pushEvent setStatus setResult].
  rewrite postQuote_run.
  cbv beta iota zeta delta [console requests body_reads dataLayer status
                            result].
  unfold submitted, events_of. rewrite <- app_assoc. reflexivity.
Qed.

Lemma onSubmit_unparsed (form : QuoteFields) (w0 : World) :
  Validation.quoteSchema form = None ->
  onSubmit API_BASE decodeURIComponent cookie network form w0
  = (Returned, w0).
Proof. intros H. unfold onSubmit. rewrite H. reflexivity. Qed.

(** What a JSON response makes of the call. *)
Lemma call_summary_json (payload : QuoteFormPayload)
  (token : option jsstring) (res : Response) :
  getCsrfToken decodeURIComponent cookie = Normal token ->
  network (Api.quote_request API_BASE token payload) = Resolved res ->
  includes (or_else (content_type res) (lit "")) (lit "application/json")
    = true ->
  call_summary payload
  = (json res, [Api.quote_request API_BASE token payload], [ReadJson]).
Proof.
  intros Htoken Hnet Hct. unfold call_summary.
  rewrite Htoken, Hnet, Hct. reflexivity.
Qed.

(** C4 (amended): for every JSON body the handler receives, the form ends
    in the success state and shows the download link exactly when the
    [ok] member of the body is truthy ([true], but also a number other
    than 0, a non-empty string, an array or an object), and the link then
    points to whatever the body holds as [pdf_url], with what it holds as
    [lead_id] beside it.  So a body [{ok:true, pdf_url, lead_id}] ends in
    the success state with a link to exactly [pdf_url] and with [lead_id],
    and a body [{ok:false, error}] ends in the error state with [error] as
    the text of the status bar, the retry button and no link. *)
Theorem truthy_ok_decides_outcome
  (form values : QuoteFields) (w0 : World) (token : option jsstring)
  (res : Response) (body : Json) :
  Validation.quoteSchema form = Some values ->
  getCsrfToken decodeURIComponent cookie = Normal token ->
  network (Api.quote_request API_BASE token (Validation.toPayload values))
    = Resolved res ->
  includes (or_else (content_type res) (lit "")) (lit "application/json")
    = true ->
  json res = Resolved body ->
  (forall u l,
      (status (snd (onSubmit API_BASE decodeURIComponent cookie network
                      form w0)) = success
       /\ result_slot
            (render (snd (onSubmit API_BASE decodeURIComponent cookie network
                            form w0)))
          = Card {| pdfUrl := u; leadId := l |})
      <-> ((exists v, Member body (lit "ok") (Some v) /\ Truthy v)
           /\ Member body (lit "pdf_url") u
           /\ Member body (lit "lead_id") l))
  /\ (forall u l,
        body = success_body u l ->
        status (snd (onSubmit API_BASE decodeURIComponent cookie network
                       form w0)) = success
        /\ result_slot
             (render (snd (onSubmit API_BASE decodeURIComponent cookie
                             network form w0)))
           = Card {| pdfUrl := Some (JsonString u);
                     leadId := Some (JsonString l) |})
  /\ (forall e,
        body = error_body e ->
        status (snd (onSubmit API_BASE decodeURIComponent cookie network
                       form w0)) = error
        /\ status_text
             (render (snd (onSubmit API_BASE decodeURIComponent cookie
                             network form w0)))
           = JsonString e
        /\ retry_button
             (render (snd (onSubmit API_BASE decodeURIComponent cookie
                             network form w0)))
           = true
        /\ result_slot
             (render (snd (onSubmit API_BASE decodeURIComponent cookie
                             network form w0)))
           = NoCard (Some (JsonBool false))).
Proof.
  intros Hparse Htoken Hnet Hct Hjson.
  rewrite (onSubmit_run form values w0 Hparse).
  rewrite (call_summary_json _ token res Htoken Hnet Hct).
  cbn [fst snd]. rewrite Hjson. cbn [caught]. rewrite settle_run.
  split; [|split].
  - intros u l.
    change (lit "ok") with (name Ok).
    change (lit "pdf_url") with (name PdfUrl).
    change (lit "lead_id") with (name LeadId).
    rewrite !member_spec.
    destruct body as [|b|n|s|items|entries];
      try (cbn [snd status result render result_slot submitted truthy member];
           split; [intros [H _]; discriminate
                  | intros [(v & H & _) _]; apply member_spec in H;
                    discriminate]).
    cbn [snd status result render result_slot truthy].
    destruct (member Ok (JsonObject entries)) as [okv|] eqn:Hok.
    + destruct (truthy (Some okv)) eqn:T.
      * split.
        -- intros [_ H]. inversion H; subst.
           split; [|split; reflexivity].
           exists okv. split; [apply member_spec; exact Hok|].
           apply truthy_spec. exact T.
        -- intros (_ & <- & <-). split; reflexivity.
      * split; [intros [H _]; discriminate|].
        intros ((v & E & Hv) & _). apply member_spec in E.
        rewrite Hok in E. inversion E; subst v.
        apply truthy_spec in Hv. congruence.
    + cbn [truthy]. split; [intros [H _]; discriminate|].
      intros ((v & E & _) & _). apply member_spec in E.
      rewrite Hok in E. discriminate.
  - intros u l ->. split; reflexivity.
  - intros e ->.
    cbn [snd status result render result_slot status_text retry_button].
    repeat split. unfold StatusBar.
    replace (member Ok (error_body e)) with (Some (JsonBool false))
      by reflexivity.
    replace (member Error (error_body e)) with (Some (JsonString e))
      by reflexivity.
    cbn [truthy andb negb]. destruct e; reflexivity.
Qed.

End PageSubmission.

(** C4 (counterexample): the server answers the form of the tests with a
    JSON body whose [ok] is the number 1.  The body is not
    [{ok:true, pdf_url, lead_id}], yet the form ends in the success state
    and shows the download link with the body's [pdf_url] and
    [lead_id]. *)
Lemma number_for_ok_ends_in_success :
  Page.status
    (snd (Page.onSubmit (lit "") decode_sample (lit "")
            (fun _ => Browser.Resolved (json_response numeric_ok_body))
            base Page.loaded))
  = Browser.success
  /\ Page.result_slot
       (Page.render
          (snd (Page.onSubmit (lit "") decode_sample (lit "")
                  (fun _ => Browser.Resolved (json_response numeric_ok_body))
                  base Page.loaded)))
     = Page.Card
         {| Page.pdfUrl :=
              Some (Page.JsonString (lit "https://x/pdf/web-123.pdf"));
            Page.leadId := Some (Page.JsonString (lit "web-123")) |}
  /\ Page.member Page.Ok numeric_ok_body
     = Some (Page.JsonNumber (of_Z 1))
  /\ (forall u l, numeric_ok_body <> success_body u l).
Proof.
  split; [|split; [|split]]; try (vm_compute; reflexivity).
  intros u l H. inversion H.
Qed.

Lemma truthy_ok_decides_outcome_witness :
  (Page.status
     (snd (Page.onSubmit (lit "") decode_sample (lit "")
             (fun _ =>
                Browser.Resolved
                  (json_response
                     (success_body (lit "https://x/pdf/web-123.pdf")
                        (lit "web-123"))))
             base Page.loaded))
   = Browser.success
   /\ Page.result_slot
        (Page.render
           (snd (Page.onSubmit (lit "") decode_sample (lit "")
                   (fun _ =>
                      Browser.Resolved
                        (json_response
                           (success_body (lit "https://x/pdf/web-123.pdf")
                              (lit "web-123"))))
                   base Page.loaded)))
      = Page.Card
          {| Page.pdfUrl :=
               Some (Page.JsonString (lit "https://x/pdf/web-123.pdf"));
             Page.leadId := Some (Page.JsonString (lit "web-123")) |})
  /\ Page.status_text
       (Page.render
          (snd (Page.onSubmit (lit "") decode_sample (lit "")
                  (fun _ =>
                     Browser.Resolved
                       (json_response (error_body (lit "Прайс не найден"))))
                  base Page.loaded)))
     = Page.JsonString (lit "Прайс не найден").
Proof.
  split.
  - pose proof (truthy_ok_decides_outcome (lit "") decode_sample (lit "")
                  (fun _ =>
                     Browser.Resolved
                       (json_response
                          (success_body (lit "https://x/pdf/web-123.pdf")
                             (lit "web-123"))))
                  base base Page.loaded None
                  (json_response
                     (success_body (lit "https://x/pdf/web-123.pdf")
                        (lit "web-123")))
                  (success_body (lit "https://x/pdf/web-123.pdf")
                     (lit "web-123"))
                  base_parses eq_refl eq_refl) as H.
    feed H. destruct H as (_ & Hok & _).
    exact (Hok (lit "https://x/pdf/web-123.pdf") (lit "web-123") eq_refl).
  - pose proof (truthy_ok_decides_outcome (lit "") decode_sample (lit "")
                  (fun _ =>
                     Browser.Resolved
                       (json_response (error_body (lit "Прайс не найден"))))
                  base base Page.loaded None
                  (json_response (error_body (lit "Прайс не найден")))
                  (error_body (lit "Прайс не найден"))
                  base_parses eq_refl eq_refl) as H.
    feed H. destruct H as (_ & _ & Herr).
    destruct (Herr (lit "Прайс не найден") eq_refl) as (_ & Htext & _).
    exact Htext.
Defined.

(* ================================================================== *)
(** * App.tsx: the view after a submission and after a retry *)
(* ================================================================== *)

Section ViewAfterSubmission.

Import Browser.

Variable API_BASE : jsstring.
Variable csrfToken : option jsstring.
Variable network : Request -> Promise Response.


End ViewAfterSubmission.

(* ================================================================== *)
(** * api.ts: every effect of a call of postQuote *)
(* ================================================================== *)

Section PageEffects.

Import Browser Cookie Page.

Variable API_BASE : jsstring.
Variable decodeURIComponent : jsstring -> Completion jsstring.
Variable cookie : jsstring.
Variable network : Request -> Promise Response.

(** X11: one call of [postQuote] writes one console record and leaves the
    form's state, its result and the analytics events untouched.  When the
    token of the cookie cannot be decoded the call sends nothing, reads
    nothing and rejects with the error of the decoding.  Otherwise it
    sends exactly one request: by POST to [API_BASE + '/api/quote'], with
    credentials, with the headers [Content-Type: application/json] and
    [X-CSRF-Token] (the token, or the empty string when the cookie has
    none), and with the stringified payload as its body; and it reads the
    body of the response at most once, not at all exactly when the request
    fails. *)
Theorem postQuote_effects (payload : QuoteFormPayload) (w0 : World) :
  console (snd (postQuote API_BASE decodeURIComponent cookie network
                  payload w0))
  = console w0 ++ [[LogString (lit "postQuote called"); LogObject payload]]
  /\ status (snd (postQuote API_BASE decodeURIComponent cookie network
                    payload w0)) = status w0
  /\ result (snd (postQuote API_BASE decodeURIComponent cookie network
                    payload w0)) = result w0
  /\ dataLayer (snd (postQuote API_BASE decodeURIComponent cookie network
                       payload w0)) = dataLayer w0
  /\ (forall err,
        getCsrfToken decodeURIComponent cookie = Throws err ->
        fst (postQuote API_BASE decodeURIComponent cookie network payload w0)
          = Rejected err
        /\ requests (snd (postQuote API_BASE decodeURIComponent cookie
                            network payload w0)) = requests w0
        /\ body_reads (snd (postQuote API_BASE decodeURIComponent cookie
                              network payload w0)) = body_reads w0)
  /\ (forall token,
        getCsrfToken decodeURIComponent cookie = Normal token ->
        exists r reads,
          requests (snd (postQuote API_BASE decodeURIComponent cookie
                           network payload w0)) = requests w0 ++ [r]
          /\ url r = API_BASE ++ lit "/api/quote"
          /\ method r = lit "POST"
          /\ credentials r = lit "include"
          /\ headers r
             = [ (lit "Content-Type", lit "application/json");
                 (lit "X-CSRF-Token",
                  match token with Some t => t | None => lit "" end) ]
          /\ body r = JSON_stringify payload
          /\ body_reads (snd (postQuote API_BASE decodeURIComponent cookie
                                network payload w0))
             = body_reads w0 ++ reads
          /\ (List.length reads <= 1)%nat
          /\ (reads = [] <-> exists err, network r = Rejected err)).
Proof.
  rewrite postQuote_run.
  cbn [fst snd console status result dataLayer requests body_reads].
  split; [reflexivity|]. split; [reflexivity|]. split; [reflexivity|].
  split; [reflexivity|]. unfold call_summary. split.
  - intros err Htoken. rewrite Htoken. cbn [fst snd].
    rewrite !app_nil_r. repeat split.
  - intros token Htoken. rewrite Htoken.
    exists (Api.quote_request API_BASE token payload).
    destruct (network (Api.quote_request API_BASE token payload))
      as [res|err] eqn:Hnet.
    + destruct (includes (or_else (content_type res) (lit ""))
                  (lit "application/json"));
        [exists [ReadJson] | exists [ReadText]];
        cbn [fst snd]; repeat split; try reflexivity;
        try (cbn [List.length]; lia); try discriminate;
        intros [err H]; discriminate.
    + exists []. cbn [fst snd]. rewrite app_nil_r.
      repeat split; try reflexivity; try (cbn [List.length]; lia).
      intros _. exists err. reflexivity.
Qed.

(** X12: [postQuote] rejects exactly when the token of the cookie cannot
    be decoded, when the request itself fails, or when a response
    announced as JSON cannot be parsed, and then with that very error; a
    response that is not JSON never makes it reject, even when its text
    cannot be read. *)
Theorem postQuote_rejects_iff (payload : QuoteFormPayload) (w0 : World)
  (err : Thrown) :
  fst (postQuote API_BASE decodeURIComponent cookie network payload w0)
    = Rejected err
  <-> getCsrfToken decodeURIComponent cookie = Throws err
      \/ exists token,
           getCsrfToken decodeURIComponent cookie = Normal token
           /\ (network (Api.quote_request API_BASE token payload)
                 = Rejected err
               \/ exists res,
                    network (Api.quote_request API_BASE token payload)
                      = Resolved res
                    /\ includes (or_else (content_type res) (lit ""))
                         (lit "application/json") = true
                    /\ json res = Rejected err).
Proof.
  rewrite postQuote_run. cbn [fst]. unfold call_summary.
  destruct (getCsrfToken decodeURIComponent cookie) as [token|e] eqn:Htoken.
  - assert (Hsame : forall token' : option jsstring,
              Normal token = Normal token' -> token' = token)
      by (intros token' H; inversion H; reflexivity).
    destruct (network (Api.quote_request API_BASE token payload))
      as [res|e] eqn:Hnet.
    + destruct (includes (or_else (content_type res) (lit ""))
                  (lit "application/json")) eqn:Hct; cbn [fst].
      * split.
        -- intros H. right. exists token. split; [reflexivity|].
           right. exists res. auto.
        -- intros [H|(token' & H & [K|(res' & K & _ & Hj)])];
             [discriminate | |];
             apply Hsame in H; subst token'; rewrite Hnet in K;
             [discriminate|].
           inversion K; subst res'. exact Hj.
      * split; [discriminate|].
        intros [H|(token' & H & [K|(res' & K & Hct' & _)])];
          [discriminate | |];
          apply Hsame in H; subst token'; rewrite Hnet in K;
          [discriminate|].
        inversion K; subst res'. congruence.
    + cbn [fst]. split.
      * intros H. inversion H; subst e. right. exists token.
        split; [reflexivity | left; exact Hnet].
      * intros [H|(token' & H & [K|(res & K & _)])];
          [discriminate | |];
          apply Hsame in H; subst token'; rewrite Hnet in K;
          [inversion K; reflexivity | discriminate].
  - cbn [fst]. split.
    + intros H. inversion H; subst e. left. reflexivity.
    + intros [H|(token & H & _)]; [|discriminate].
      inversion H. reflexivity.
Qed.

(** X19: a response announced as JSON whose body is [null] makes the
    handler throw where it reads [res.ok], and nothing catches the error:
    the form stays in the loading state with the loading text, without a
    retry button or a link, and the only analytics event of the
    submission is [cpq_form_submit]. *)
Theorem null_body_leaves_loading
  (form values : QuoteFields) (w0 : World) (token : option jsstring)
  (res : Response) :
  Validation.quoteSchema form = Some values ->
  getCsrfToken decodeURIComponent cookie = Normal token ->
  network (Api.quote_request API_BASE token (Validation.toPayload values))
    = Resolved res ->
  includes (or_else (content_type res) (lit "")) (lit "application/json")
    = true ->
  json res = Resolved JsonNull ->
  fst (onSubmit API_BASE decodeURIComponent cookie network form w0)
    = Uncaught
  /\ status (snd (onSubmit API_BASE decodeURIComponent cookie network
                    form w0)) = loading
  /\ result (snd (onSubmit API_BASE decodeURIComponent cookie network
                    form w0)) = JsonNull
  /\ dataLayer (snd (onSubmit API_BASE decodeURIComponent cookie network
                       form w0))
     = Some (match dataLayer w0 with
             | Some events => events
             | None => []
             end ++ [cpq_form_submit])
  /\ render (snd (onSubmit API_BASE decodeURIComponent cookie network
                    form w0))
     = {| status_text := JsonString (lit "Отправляем запрос…");
          retry_button := false;
          result_slot := NoCard (Some JsonNull) |}.
Proof.
  intros Hparse Htoken Hnet Hct Hjson.
  rewrite (onSubmit_run API_BASE decodeURIComponent cookie network
             form values w0 Hparse).
  rewrite (call_summary_json API_BASE decodeURIComponent cookie network
             _ token res Htoken Hnet Hct).
  cbn [fst snd]. rewrite Hjson. cbn [caught]. rewrite settle_run.
  repeat split.
Qed.

(** X20: with a [csrftoken] cookie that cannot be decoded a submission
    that parses fails without contacting the server: no request is sent,
    and the form ends in the error state with [String(err)] of the
    decoding error in the status bar and as the message of the
    [cpq_api_error] event. *)
Theorem undecodable_token_blocks_submission
  (form values : QuoteFields) (w0 : World) (err : Thrown) :
  Validation.quoteSchema form = Some values ->
  getCsrfToken decodeURIComponent cookie = Throws err ->
  requests (snd (onSubmit API_BASE decodeURIComponent cookie network
                   form w0)) = requests w0
  /\ status (snd (onSubmit API_BASE decodeURIComponent cookie network
                    form w0)) = error
  /\ status_text
       (render (snd (onSubmit API_BASE decodeURIComponent cookie network
                       form w0)))
     = JsonString (String_of err)
  /\ dataLayer (snd (onSubmit API_BASE decodeURIComponent cookie network
                       form w0))
     = Some (match dataLayer w0 with
             | Some events => events
             | None => []
             end
             ++ [cpq_form_submit;
                 cpq_api_error (Some (JsonString (String_of err)))]).
Proof.
  intros Hparse Htoken.
  rewrite (onSubmit_run API_BASE decodeURIComponent cookie network
             form values w0 Hparse).
  unfold submitted, call_summary. rewrite Htoken. cbn [fst snd caught].
  assert (Eok : member Ok (failure (String_of err)) = Some (JsonBool false))
    by reflexivity.
  assert (Eerr : member Error (failure (String_of err))
                 = Some (JsonString (String_of err))) by reflexivity.
  rewrite settle_run. unfold outcome_event, events_of.
  cbn [failure snd requests status dataLayer result render status_text].
  fold (failure (String_of err)). rewrite Eok, Eerr.
  cbn [truthy andb negb]. rewrite app_nil_r, <- app_assoc.
  split; [reflexivity|]. split; [reflexivity|]. split; [|reflexivity].
  unfold StatusBar. destruct (String_of err); reflexivity.
Qed.

End PageEffects.

(* ================================================================== *)
(** * App.tsx: a submission, step by step *)
(* ================================================================== *)

Section PageSteps.

Import Browser Cookie Page Zod Options.

Variable API_BASE : jsstring.
Variable decodeURIComponent : jsstring -> Completion jsstring.

Lemma NoDup_keys_filter {A B} (f : A * B -> bool) (l : list (A * B)) :
  NoDup (map fst l) -> NoDup (map fst (filter f l)).
Proof.
  induction l as [|x l IH]; simpl; intros H; [constructor|].
  inversion H as [|k ks Hnotin Hrest]; subst.
  destruct (f x); simpl; [|apply IH; exact Hrest].
  constructor; [|apply IH; exact Hrest].
  intros Hin. apply Hnotin. apply in_map_iff in Hin.
  destruct Hin as (y & Hy & Hin). apply filter_In in Hin.
  apply in_map_iff. exists y. tauto.
Qed.

Lemma member_keys_distinct (p : QuoteFields) : NoDup (map fst (members p)).
Proof.
  unfold members. cbn [map fst].
  repeat (constructor;
          [cbn [In]; intros H;
           repeat (destruct H as [H|H]; [vm_compute in H; discriminate|]);
           exact H|]).
  constructor.
Qed.

Lemma parsed_enum_defined (options : list jsstring) (v : jsval) :
  parses (z_enum options) v = true -> is_undefined v = false.
Proof.
  intros H. apply enum_field_parses in H. destruct H as (s & _ & ->).
  reflexivity.
Qed.

Lemma parsed_number_defined (lo hi : Z) (v : jsval) :
  parses (z_number |> z_int |> z_min lo |> z_max hi) v = true ->
  is_undefined v = false.
Proof.
  intros H. apply bounded_int_parses in H.
  destruct H as (n & q & -> & _). reflexivity.
Qed.

(** The handler up to its first await. *)
Lemma start_run (cookie : jsstring) (values : QuoteFormData) (w : World) :
  start API_BASE decodeURIComponent cookie values w
  = (match getCsrfToken decodeURIComponent cookie with
     | Throws err => for_catch err
     | Normal _ => for_fetch
     end,
     {| console :=
          console w
          ++ [ [LogString (lit "onSubmit values"); LogObject values];
               [LogString (lit "postQuote called");
                LogObject (Validation.toPayload values)] ];
        requests :=
          requests w
          ++ match getCsrfToken decodeURIComponent cookie with
             | Throws _ => []
             | Normal token =>
                 [Api.quote_request API_BASE token
                    (Validation.toPayload values)]
             end;
        body_reads := body_reads w;
        dataLayer := Some (events_of w ++ [cpq_form_submit]);
        status := loading;
        result := JsonNull |}).
Proof.
  prun. unfold events_of.
  destruct (getCsrfToken decodeURIComponent cookie) as [token|err];
    cbv beta iota; rewrite <- ?app_assoc, ?app_nil_r; reflexivity.
Qed.

Lemma act_submit (t : Tab) (form values : QuoteFields) (cookie : jsstring) :
  Validation.quoteSchema form = Some values ->
  act API_BASE decodeURIComponent t (Submit form cookie)
  = {| world := snd (start API_BASE decodeURIComponent cookie values
                       (world t));
       waiting := waiting t
                  ++ [fst (start API_BASE decodeURIComponent cookie values
                             (world t))];
       uncaught := uncaught t |}.
Proof.
  intros Hparse. cbn [act]. rewrite Hparse.
  destruct (start API_BASE decodeURIComponent cookie values (world t)).
  reflexivity.
Qed.

(** X13: when the form values parse and the token of the cookie can be
    read, submitting sends, before anything else can happen, one request
    to [API_BASE + '/api/quote'] that carries the token (or the empty
    string) as [X-CSRF-Token] and whose body holds the seven required
    members with the values of the form, no key twice and no member that
    is undefined; every member it holds is a field of the form (with the
    empty [print], [email] or [tg_username] dropped).  The call of the
    handler is then suspended at [fetch]. *)
Theorem submitted_request_body (t : Tab) (form values : QuoteFields)
  (cookie : jsstring) (token : option jsstring) :
  Validation.quoteSchema form = Some values ->
  getCsrfToken decodeURIComponent cookie = Normal token ->
  exists r,
    requests (world (act API_BASE decodeURIComponent t (Submit form cookie)))
      = requests (world t) ++ [r]
    /\ waiting (act API_BASE decodeURIComponent t (Submit form cookie))
       = waiting t ++ [for_fetch]
    /\ url r = API_BASE ++ lit "/api/quote"
    /\ In (lit "X-CSRF-Token",
           match token with Some tk => tk | None => lit "" end) (headers r)
    /\ incl [ (lit "fefco", fefco form); (lit "x_mm", x_mm form);
              (lit "y_mm", y_mm form); (lit "z_mm", z_mm form);
              (lit "material", material form); (lit "qty", qty form);
              (lit "sla_type", sla_type form) ] (body r)
    /\ NoDup (map fst (body r))
    /\ (forall k v, In (k, v) (body r) ->
          v <> JUndefined /\ In (k, v) (members (blanks_dropped form))).
Proof.
  intros Hparse Htoken.
  rewrite (act_submit t form values cookie Hparse), start_run, Htoken.
  cbn [world waiting fst snd requests].
  exists (Api.quote_request API_BASE token (Validation.toPayload values)).
  split; [reflexivity|]. split; [reflexivity|]. split; [reflexivity|].
  split; [cbn; tauto|].
  assert (Hacc : Validation.accepts form = true)
    by (unfold Validation.accepts; rewrite Hparse; reflexivity).
  apply quoteSchema_output in Hparse. subst values.
  unfold Api.quote_request, Validation.toPayload. cbn [body].
  unfold JSON_stringify. split; [|split].
  - rewrite accepts_fields in Hacc. rewrite !andb_true_iff in Hacc.
    repeat match type of Hacc with _ /\ _ => destruct Hacc as [Hacc ?] end.
    intros kv Hin. apply filter_In.
    cbn [In] in Hin.
    repeat (destruct Hin as [<-|Hin];
            [split;
             [unfold members, blanks_dropped; project_fields; cbn [In]; tauto
             | cbn [snd];
               first [erewrite parsed_enum_defined by eassumption
                     | erewrite parsed_number_defined by eassumption];
               reflexivity]|]).
    destruct Hin.
  - apply NoDup_keys_filter. apply member_keys_distinct.
  - intros k v Hin. apply filter_In in Hin. destruct Hin as [Hin Hdef].
    cbn [snd] in Hdef. split; [|exact Hin].
    intros ->. discriminate.
Qed.

(** X15: submitting sends a request exactly when the form values parse
    and the token of the cookie can be read, and then exactly one.  A form
    the schema rejects leaves everything as it was (nothing sent, logged
    or pushed, the earlier state and result still shown); a form that
    parses with a token that cannot be decoded is logged and reported as
    submitted, but nothing is sent. *)
Theorem request_sent_iff_form_parses (t : Tab) (form : QuoteFields)
  (cookie : jsstring) :
  (Validation.accepts form = false ->
   act API_BASE decodeURIComponent t (Submit form cookie) = t)
  /\ (Validation.accepts form = true ->
      forall token,
        getCsrfToken decodeURIComponent cookie = Normal token ->
        List.length
          (requests (world (act API_BASE decodeURIComponent t
                              (Submit form cookie))))
        = S (List.length (requests (world t))))
  /\ (Validation.accepts form = true ->
      forall err,
        getCsrfToken decodeURIComponent cookie = Throws err ->
        requests (world (act API_BASE decodeURIComponent t
                           (Submit form cookie)))
          = requests (world t)
        /\ List.length
             (console (world (act API_BASE decodeURIComponent t
                                (Submit form cookie))))
           = S (S (List.length (console (world t))))
        /\ dataLayer (world (act API_BASE decodeURIComponent t
                               (Submit form cookie)))
           = Some (match dataLayer (world t) with
                   | Some events => events
                   | None => []
                   end ++ [cpq_form_submit])
        /\ waiting (act API_BASE decodeURIComponent t (Submit form cookie))
           = waiting t ++ [for_catch err])
  /\ (requests (world (act API_BASE decodeURIComponent t
                         (Submit form cookie)))
        = requests (world t)
      <-> Validation.accepts form = false
          \/ exists err, getCsrfToken decodeURIComponent cookie = Throws err).
Proof.
  unfold Validation.accepts.
  destruct (Validation.quoteSchema form) as [values|] eqn:Hparse.
  - rewrite (act_submit t form values cookie Hparse), start_run.
    cbn [world waiting fst snd requests console dataLayer].
    split; [discriminate|]. split; [|split].
    + intros _ token Htoken. rewrite Htoken, length_app. simpl. lia.
    + intros _ err Htoken. rewrite Htoken, app_nil_r.
      split; [reflexivity|]. split; [|split; reflexivity].
      rewrite length_app. simpl. lia.
    + destruct (getCsrfToken decodeURIComponent cookie) as [token|err].
      * split.
        -- intros H. apply (f_equal (@List.length Request)) in H.
           rewrite length_app in H. simpl in H. lia.
        -- intros [H|[err H]]; discriminate.
      * rewrite app_nil_r. split; [|reflexivity]. intros _. right. eauto.
  - cbn [act]. rewrite Hparse.
    split; [reflexivity|]. split; [discriminate|]. split; [discriminate|].
    split; [intros _; left; reflexivity | reflexivity].
Qed.

End PageSteps.

(* ================================================================== *)
(** * App.tsx: what holds however the calls of the handler overlap *)
(* ================================================================== *)

Section PageRuns.

Import Browser Cookie Page.

Variable API_BASE : jsstring.
Variable decodeURIComponent : jsstring -> Completion jsstring.

(** The calls suspended at [fetch]. *)
Definition fetching (l : list Waiting) : nat :=
  List.length (filter (fun h => match h with
                                | for_fetch => true
                                | _ => false
                                end) l).

(** No outcome event comes before the submission it belongs to: in every
    initial segment of the events there are at least as many
    [cpq_form_submit] as [cpq_api_ok] and [cpq_api_error]. *)
Definition balanced (events : list Event) : Prop :=
  forall n, (count is_outcome (firstn n events)
             <= count is_submit (firstn n events))%nat.

(** The state and the stored result agree. *)
Definition coherent (w : World) : Prop :=
  match status w with
  | idle | loading => result w = JsonNull
  | success => truthy (member Ok (result w)) = true
  | error => result w <> JsonNull /\ truthy (member Ok (result w)) = false
  end.

(** What every state of the page satisfies. *)
Definition invariant (t : Tab) : Prop :=
  dataLayer (world t) = Some (events_of (world t))
  /\ hd_error (events_of (world t)) = Some cpq_form_view
  /\ count is_submit (events_of (world t))
     = (count is_outcome (events_of (world t)) + List.length (waiting t)
        + uncaught t)%nat
  /\ balanced (events_of (world t))
  /\ List.length (console (world t))
     = (2 * count is_submit (events_of (world t)))%nat
  /\ (List.length (requests (world t))
      <= count is_submit (events_of (world t)))%nat
  /\ (List.length (body_reads (world t)) + fetching (waiting t)
      <= List.length (requests (world t)))%nat
  /\ coherent (world t).

Lemma count_snoc (p : Event -> bool) (l : list Event) (e : Event) :
  count p (l ++ [e]) = (count p l + if p e then 1 else 0)%nat.
Proof.
  unfold count. rewrite filter_app, length_app. simpl.
  destruct (p e); reflexivity.
Qed.

Lemma balanced_snoc (l : list Event) (e : Event) :
  balanced l ->
  (count is_outcome (l ++ [e]) <= count is_submit (l ++ [e]))%nat ->
  balanced (l ++ [e]).
Proof.
  intros Hl He n. destruct (Nat.le_gt_cases n (List.length l)) as [Hn|Hn].
  - rewrite firstn_app.
    replace (n - List.length l)%nat with 0%nat by lia.
    rewrite firstn_O, app_nil_r. apply Hl.
  - rewrite firstn_all2 by (rewrite length_app; simpl; lia). exact He.
Qed.

Lemma balanced_total (l : list Event) :
  balanced l -> (count is_outcome l <= count is_submit l)%nat.
Proof.
  intros H. specialize (H (List.length l)). rewrite firstn_all in H. exact H.
Qed.

Lemma hd_error_snoc (l : list Event) (x e : Event) :
  hd_error l = Some x -> hd_error (l ++ [e]) = Some x.
Proof. destruct l; [discriminate | intros H; exact H]. Qed.

(** Replacing the call at index [i]. *)
Lemma splice_at {A} (l : list A) (i : nat) (h : A) :
  nth_error l i = Some h ->
  exists l1 l2,
    l = l1 ++ h :: l2
    /\ forall now, splice i now l = l1 ++ now ++ l2.
Proof.
  revert i. induction l as [|x l IH]; intros [|i] H; try discriminate.
  - inversion H; subst x. exists [], l. split; reflexivity.
  - destruct (IH i H) as (l1 & l2 & -> & Hs).
    exists (x :: l1), l2. split; [reflexivity|].
    intros now. unfold splice in *. cbn [firstn skipn app].
    f_equal. apply Hs.
Qed.

Lemma fetching_app (l1 l2 : list Waiting) :
  fetching (l1 ++ l2) = (fetching l1 + fetching l2)%nat.
Proof. unfold fetching. rewrite filter_app, length_app. reflexivity. Qed.

Lemma finish_run (res : Json) (w : World) :
  (res = JsonNull /\ finish res w = (Ended Uncaught, w))
  \/ (res <> JsonNull
      /\ finish res w
         = (Ended Returned,
            {| console := console w; requests := requests w;
               body_reads := body_reads w;
               dataLayer := Some (events_of w ++ [outcome_event res]);
               status := if truthy (member Ok res) then success else error;
               result := res |})).
Proof.
  unfold finish, bind. rewrite settle_run.
  destruct res; [left; split; reflexivity | right; split; [discriminate | reflexivity] ..].
Qed.

(** A suspended call either goes on to the read of the body, which it
    does from [fetch] only, or runs the final part of the handler. *)
Lemma resume_cases (h : Waiting) (a : Answer) (go_on : M Next) :
  resume h a = Some go_on ->
  (h = for_fetch
   /\ exists r h',
        go_on = bind (record_read r) (fun _ => ret (Suspended h'))
        /\ fetching [h'] = 0%nat)
  \/ exists res, go_on = finish res.
Proof.
  destruct h as [|st| |err], a as [ct st'|e|o|o|]; cbn [resume];
    intros H; inversion H; subst; clear H; try (right; eauto; fail).
  left. split; [reflexivity|].
  destruct (negb (includes (or_else ct (lit "")) (lit "application/json")));
    eexists _, _; split; reflexivity.
Qed.

Lemma outcome_event_counts (res : Json) :
  is_outcome (outcome_event res) = true
  /\ is_submit (outcome_event res) = false.
Proof. unfold outcome_event. destruct (truthy _); split; reflexivity. Qed.

Lemma invariant_loaded :
  invariant {| world := loaded; waiting := []; uncaught := 0 |}.
Proof.
  unfold invariant, coherent, fetching. cbn.
  repeat split; try lia.
  intros [|[|n]]; cbn; lia.
Qed.

Lemma act_keeps_invariant (t : Tab) (a : Action) :
  invariant t -> invariant (act API_BASE decodeURIComponent t a).
Proof.
  intros (Hd & Hhd & Hcount & Hbal & Hcon & Hreq & Hread & Hco).
  pose proof (balanced_total _ Hbal) as Htot.
  destruct a as [form cookie|i a| |].
  - (* the form is submitted *)
    destruct (Validation.quoteSchema form) as [values|] eqn:Hparse;
      [|cbn [act]; rewrite Hparse; repeat split; assumption].
    rewrite (act_submit API_BASE decodeURIComponent t form values cookie
               Hparse), start_run.
    unfold invariant, coherent.
    cbn [world waiting uncaught fst snd console requests body_reads
         dataLayer status result events_of].
    rewrite !count_snoc, !length_app, fetching_app. cbn [is_submit is_outcome].
    split; [reflexivity|]. split; [apply hd_error_snoc; exact Hhd|].
    split; [cbn [List.length]; lia|].
    split; [apply balanced_snoc; [exact Hbal|];
            rewrite !count_snoc; cbn [is_submit is_outcome]; lia|].
    split; [cbn [List.length]; lia|].
    destruct (getCsrfToken decodeURIComponent cookie) as [token|err];
      cbn [List.length fetching filter];
      (split; [lia|]); (split; [lia | reflexivity]).
  - (* a suspended call goes on *)
    cbn [act].
    destruct (nth_error (waiting t) i) as [h|] eqn:Hnth;
      [|repeat split; assumption].
    destruct (resume h a) as [go_on|] eqn:Hres;
      [|repeat split; assumption].
    destruct (splice_at _ _ _ Hnth) as (l1 & l2 & Hl & Hsplice).
    rewrite Hl in Hcount, Hread.
    rewrite length_app in Hcount. cbn [List.length] in Hcount.
    rewrite fetching_app in Hread.
    change (h :: l2) with ([h] ++ l2) in Hread.
    rewrite fetching_app in Hread.
    destruct (resume_cases h a go_on Hres)
      as [(-> & r & h' & -> & Hh')|(res & ->)].
    + (* to the read of the body *)
      unfold bind, record_read, ret.
      unfold invariant, coherent.
      cbn [world waiting uncaught console requests body_reads dataLayer
           status result events_of].
      rewrite Hsplice, !length_app, !fetching_app, Hh'.
      cbn [List.length] in *. unfold events_of in *.
      change (fetching [for_fetch]) with 1%nat in Hread.
      repeat split; try assumption; try lia.
    + (* to the end of the handler *)
      assert (Hfetch : (fetching (l1 ++ [] ++ l2)
                        <= fetching l1 + fetching [h] + fetching l2)%nat)
        by (rewrite !fetching_app; cbn; lia).
      destruct (outcome_event_counts res) as [Hout Hsub].
      destruct (finish_run res (world t)) as [[-> ->]|[Hnull ->]].
      * unfold invariant.
        cbn [world waiting uncaught].
        rewrite Hsplice, !length_app. cbn [List.length app].
        split; [exact Hd|]. split; [exact Hhd|]. split; [lia|].
        split; [exact Hbal|]. split; [exact Hcon|]. split; [exact Hreq|].
        split; [cbn [app] in Hfetch; lia | exact Hco].
      * unfold invariant, coherent.
        cbn [world waiting uncaught console requests body_reads dataLayer
             status result events_of].
        rewrite Hsplice, !count_snoc, Hout, Hsub, !length_app.
        cbn [List.length app].
        split; [reflexivity|].
        split; [apply hd_error_snoc; exact Hhd|].
        split; [lia|].
        split; [apply balanced_snoc; [exact Hbal|];
                rewrite !count_snoc, Hout, Hsub; lia|].
        split; [lia|]. split; [lia|].
        split; [cbn [app] in Hfetch; lia|].
        destruct (truthy (member Ok res)); [reflexivity|].
        split; [exact Hnull | reflexivity].
  - (* the retry button *)
    cbn [act]. destruct (retry_button (render (world t)));
      [|repeat split; assumption].
    unfold invariant, coherent, onRetry, bind, setStatus, setResult.
    cbn [world waiting uncaught snd console requests body_reads dataLayer
         status result events_of].
    unfold events_of in *. repeat split; assumption.
  - (* the download link *)
    cbn [act]. destruct (result_slot (render (world t)));
      [|repeat split; assumption].
    unfold invariant, coherent, onLinkClick, pushEvent.
    cbn [world waiting uncaught snd console requests body_reads dataLayer
         status result events_of].
    fold (events_of (world t)). rewrite !count_snoc.
    cbn [is_submit is_outcome].
    split; [reflexivity|]. split; [apply hd_error_snoc; exact Hhd|].
    split; [lia|].
    split; [apply balanced_snoc; [exact Hbal|];
            rewrite !count_snoc; cbn [is_submit is_outcome]; lia|].
    repeat split; try lia; exact Hco.
Qed.

(** The two buttons.  The retry button is there in the error state only;
    pressing it clears the state and the result and nothing else: a call
    that is still suspended stays so.  The download link is there with the
    result card only; following it pushes [cpq_pdf_link_click]. *)
Lemma retry_and_link (t : Tab) :
  (status (world t) = error ->
   act API_BASE decodeURIComponent t Retry
   = {| world :=
          {| console := console (world t); requests := requests (world t);
             body_reads := body_reads (world t);
             dataLayer := dataLayer (world t);
             status := idle; result := JsonNull |};
        waiting := waiting t; uncaught := uncaught t |})
  /\ (status (world t) <> error ->
      act API_BASE decodeURIComponent t Retry = t)
  /\ (forall card,
        result_slot (render (world t)) = Card card ->
        act API_BASE decodeURIComponent t LinkClick
        = {| world :=
               {| console := console (world t);
                  requests := requests (world t);
                  body_reads := body_reads (world t);
                  dataLayer :=
                    Some (events_of (world t) ++ [cpq_pdf_link_click]);
                  status := status (world t); result := result (world t) |};
             waiting := waiting t; uncaught := uncaught t |})
  /\ (forall falsy,
        result_slot (render (world t)) = NoCard falsy ->
        act API_BASE decodeURIComponent t LinkClick = t).
Proof.
  cbn [act render retry_button]. split; [|split; [|split]].
  - intros ->. reflexivity.
  - intros H. destruct (status (world t)); try reflexivity. contradiction.
  - intros card ->. reflexivity.
  - intros falsy ->. reflexivity.
Qed.

Lemma run_invariant (actions : list Action) :
  invariant (run API_BASE decodeURIComponent actions).
Proof.
  unfold run. generalize invariant_loaded.
  generalize {| world := loaded; waiting := []; uncaught := 0 |}.
  induction actions as [|a actions IH]; intros t Ht; [exact Ht|].
  simpl. apply IH. apply act_keeps_invariant. exact Ht.
Qed.

(** X14: from the moment main.tsx has run, [window.dataLayer] starts with
    [cpq_form_view].  After any sequence of submissions, answers of the
    network, retries and clicks on the link, however the calls of the
    handler overlap, the number of [cpq_form_submit] events is the number
    of [cpq_api_ok] and [cpq_api_error] events plus the calls still
    suspended plus the calls that ended with an uncaught error; and no
    initial segment of the events holds more outcome events than
    [cpq_form_submit] events. *)
Theorem analytics_events_of_a_session (actions : list Action) :
  exists events,
    dataLayer (world (run API_BASE decodeURIComponent actions))
      = Some (cpq_form_view :: events)
    /\ List.length (filter is_submit events)
       = (List.length (filter is_outcome events)
          + List.length (waiting (run API_BASE decodeURIComponent actions))
          + uncaught (run API_BASE decodeURIComponent actions))%nat
    /\ forall n,
         (List.length (filter is_outcome (firstn n events))
          <= List.length (filter is_submit (firstn n events)))%nat.
Proof.
  destruct (run_invariant actions) as (Hd & Hhd & Hcount & Hbal & _).
  destruct (events_of (world (run API_BASE decodeURIComponent actions)))
    as [|first events] eqn:E; [discriminate|].
  inversion Hhd; subst first. exists events.
  split; [exact Hd|]. split; [exact Hcount|].
  intros n. specialize (Hbal (S n)). exact Hbal.
Qed.

(** X17: after any such sequence the console holds exactly two records
    for each [cpq_form_submit] event, at most one request was sent for
    each, and no more bodies were read than requests were sent. *)
Theorem session_counts (actions : list Action) :
  exists events,
    dataLayer (world (run API_BASE decodeURIComponent actions))
      = Some (cpq_form_view :: events)
    /\ List.length (console (world (run API_BASE decodeURIComponent actions)))
       = (2 * List.length (filter is_submit events))%nat
    /\ (List.length
          (requests (world (run API_BASE decodeURIComponent actions)))
        <= List.length (filter is_submit events))%nat
    /\ (List.length
          (body_reads (world (run API_BASE decodeURIComponent actions)))
        <= List.length
             (requests (world (run API_BASE decodeURIComponent actions))))%nat.
Proof.
  destruct (run_invariant actions)
    as (Hd & Hhd & _ & _ & Hcon & Hreq & Hread & _).
  destruct (events_of (world (run API_BASE decodeURIComponent actions)))
    as [|first events] eqn:E; [discriminate|].
  inversion Hhd; subst first. exists events.
  split; [exact Hd|]. split; [exact Hcon|]. split; [exact Hreq | lia].
Qed.

(** X18: after any such sequence the form shows one of four views.  Idle:
    no result, an empty status bar, no link, no retry button.  Loading: no
    result, the loading text, no link, no retry button.  Success: a
    result whose [ok] is truthy, the success text and the link to what
    the result holds as [pdf_url], with what it holds as [lead_id], and no
    retry button.  Error: a result other than null whose [ok] is not
    truthy, the retry button, no link, and as the text of the status bar
    the [error] of the result when that is truthy and the empty string
    otherwise. *)
Theorem session_view_is_coherent (actions : list Action) :
  (status (world (run API_BASE decodeURIComponent actions)) = idle
   /\ result (world (run API_BASE decodeURIComponent actions)) = JsonNull
   /\ render (world (run API_BASE decodeURIComponent actions))
      = {| status_text := JsonString (lit "");
           retry_button := false;
           result_slot := NoCard (Some JsonNull) |})
  \/ (status (world (run API_BASE decodeURIComponent actions)) = loading
      /\ result (world (run API_BASE decodeURIComponent actions)) = JsonNull
      /\ render (world (run API_BASE decodeURIComponent actions))
         = {| status_text := JsonString (lit "Отправляем запрос…");
              retry_button := false;
              result_slot := NoCard (Some JsonNull) |})
  \/ (exists okv u l,
        status (world (run API_BASE decodeURIComponent actions)) = success
        /\ Member (result (world (run API_BASE decodeURIComponent actions)))
             (lit "ok") (Some okv)
        /\ Truthy okv
        /\ Member (result (world (run API_BASE decodeURIComponent actions)))
             (lit "pdf_url") u
        /\ Member (result (world (run API_BASE decodeURIComponent actions)))
             (lit "lead_id") l
        /\ render (world (run API_BASE decodeURIComponent actions))
           = {| status_text :=
                  JsonString (lit "Готово. PDF отправлен в Telegram.");
                retry_button := false;
                result_slot := Card {| pdfUrl := u; leadId := l |} |})
  \/ (status (world (run API_BASE decodeURIComponent actions)) = error
      /\ result (world (run API_BASE decodeURIComponent actions)) <> JsonNull
      /\ (forall okv,
            Member (result (world (run API_BASE decodeURIComponent actions)))
              (lit "ok") (Some okv) -> ~ Truthy okv)
      /\ retry_button
           (render (world (run API_BASE decodeURIComponent actions))) = true
      /\ (forall card,
            result_slot
              (render (world (run API_BASE decodeURIComponent actions)))
            <> Card card)
      /\ (forall m,
            Member (result (world (run API_BASE decodeURIComponent actions)))
              (lit "error") (Some m) ->
            Truthy m ->
            status_text
              (render (world (run API_BASE decodeURIComponent actions)))
            = m)
      /\ ((forall m,
             Member (result (world (run API_BASE decodeURIComponent actions)))
               (lit "error") (Some m) -> ~ Truthy m) ->
          status_text
            (render (world (run API_BASE decodeURIComponent actions)))
          = JsonString (lit ""))).
Proof.
  destruct (run_invariant actions) as (_ & _ & _ & _ & _ & _ & _ & Hco).
  unfold coherent in Hco. unfold render.
  change (lit "ok") with (name Ok).
  change (lit "pdf_url") with (name PdfUrl).
  change (lit "lead_id") with (name LeadId).
  change (lit "error") with (name Error).
  destruct (status (world (run API_BASE decodeURIComponent actions)));
    set (r := result (world (run API_BASE decodeURIComponent actions))) in *.
  - left. rewrite Hco. repeat split.
  - right; left. rewrite Hco. repeat split.
  - right; right; left.
    assert (Hex : exists okv, member Ok r = Some okv)
      by (destruct (member Ok r); [eauto | discriminate]).
    destruct Hex as [okv Hok].
    exists okv, (member PdfUrl r), (member LeadId r).
    split; [reflexivity|]. split; [apply member_spec; exact Hok|].
    split; [apply truthy_spec; rewrite <- Hok; exact Hco|].
    split; [apply member_spec; reflexivity|].
    split; [apply member_spec; reflexivity|].
    rewrite (truthy_member_object Ok r Hco), Hco. reflexivity.
  - right; right; right. destruct Hco as [Hnull Hok].
    split; [reflexivity|]. split; [exact Hnull|].
    cbn [retry_button result_slot status_text]. rewrite Hok.
    split; [|split; [reflexivity|split; [|split]]].
    + intros okv Hm Ht. apply member_spec in Hm. apply truthy_spec in Ht.
      rewrite Hm in Hok. congruence.
    + intros card. destruct (truthy (Some r)); discriminate.
    + intros m Hm Ht. apply member_spec in Hm. apply truthy_spec in Ht.
      rewrite (truthy_member_object Error r) by (rewrite Hm; exact Ht).
      cbn [andb negb StatusBar]. rewrite Hm, Ht. reflexivity.
    + intros Hno. unfold StatusBar.
      destruct (truthy (Some r) && negb false); [|reflexivity].
      destruct (member Error r) as [m|] eqn:Hm; [|reflexivity].
      destruct (truthy (Some m)) eqn:Ht; [|reflexivity].
      exfalso. apply (Hno m); [apply member_spec; exact Hm|].
      apply truthy_spec. exact Ht.
Qed.

End PageRuns.

(* ================================================================== *)
(** * App.tsx: a call of the handler that runs alone *)
(* ================================================================== *)

Section PageAlone.

Import Browser Cookie Page.

Variable API_BASE : jsstring.
Variable decodeURIComponent : jsstring -> Completion jsstring.

(** The answers one call gets when the network behaves as [network]. *)
Definition answers_of (cookie : jsstring)
  (network : Request -> Promise Response) (values : QuoteFormData)
  : list Answer :=
  match getCsrfToken decodeURIComponent cookie with
  | Throws _ => [rejection_handled]
  | Normal token =>
      match network (Api.quote_request API_BASE token
                       (Validation.toPayload values)) with
      | Rejected err => [fetch_fails err]
      | Resolved res =>
          [ headers_arrive (content_type res) (statusText res);
            if includes (or_else (content_type res) (lit ""))
                 (lit "application/json")
            then json_read (json res)
            else text_read (text res) ]
      end
  end.

Lemma nth_error_last (l : list Waiting) (h : Waiting) :
  nth_error (l ++ [h]) (List.length l) = Some h.
Proof. induction l as [|x l IH]; [reflexivity | exact IH]. Qed.

Lemma splice_last (l now : list Waiting) (h : Waiting) :
  splice (List.length l) now (l ++ [h]) = l ++ now.
Proof.
  unfold splice. induction l as [|x l IH]; cbn [List.length firstn skipn app].
  - apply app_nil_r.
  - f_equal. exact IH.
Qed.

(** Submitting the form and letting the call go on with the answers of the
    network, nothing else happening in between, is [onSubmit]: the split
    of the handler at its awaits and the handler read from its first line
    to its last agree. *)
Lemma submission_alone (t : Tab) (form : QuoteFields) (cookie : jsstring)
  (network : Request -> Promise Response) :
  fold_left (act API_BASE decodeURIComponent)
    (Submit form cookie
     :: map (Settle (List.length (waiting t)))
          (match Validation.quoteSchema form with
           | Some values => answers_of cookie network values
           | None => []
           end))
    t
  = {| world := snd (onSubmit API_BASE decodeURIComponent cookie network
                       form (world t));
       waiting := waiting t;
       uncaught :=
         match fst (onSubmit API_BASE decodeURIComponent cookie network
                      form (world t)) with
         | Returned => uncaught t
         | Uncaught => S (uncaught t)
         end |}.
Proof.
  destruct (Validation.quoteSchema form) as [values|] eqn:Hparse.
  - rewrite (onSubmit_run API_BASE decodeURIComponent cookie network
               form values (world t) Hparse).
    cbn [fold_left map].
    rewrite (act_submit API_BASE decodeURIComponent t form values cookie
               Hparse), start_run.
    unfold answers_of, submitted, call_summary. cbn [fst snd].
    destruct (getCsrfToken decodeURIComponent cookie) as [token|err].
    + destruct (network (Api.quote_request API_BASE token
                           (Validation.toPayload values))) as [res|err].
      * cbn [map fold_left act waiting world uncaught].
        rewrite nth_error_last. cbn [resume].
        destruct (includes (or_else (content_type res) (lit ""))
                    (lit "application/json"));
          cbn [negb bind record_read ret world waiting uncaught fst snd];
          rewrite splice_last; cbn [act waiting world uncaught];
          rewrite nth_error_last; cbn [resume].
        -- unfold finish, bind. cbn [console requests body_reads dataLayer
                                     status result].
           destruct (settle _ _) as [[|] w] eqn:E; cbn [ret];
             rewrite splice_last, app_nil_r; reflexivity.
        -- unfold finish, bind. cbn [console requests body_reads dataLayer
                                     status result caught].
           replace (or_else
                      (Some match text res with
                            | Resolved t0 => t0
                            | Rejected _ => lit ""
                            end) (statusText res))
             with (match text res with
                   | Resolved (c :: t0) => c :: t0
                   | _ => statusText res
                   end)
             by (destruct (text res) as [[|c t0]|e]; reflexivity).
           destruct (settle _ _) as [[|] w] eqn:E; cbn [ret];
             rewrite splice_last, app_nil_r; reflexivity.
      * cbn [map fold_left act waiting world uncaught].
        rewrite nth_error_last. cbn [resume caught].
        unfold finish, bind. rewrite app_nil_r.
        destruct (settle _ _) as [[|] w] eqn:E; cbn [ret];
          rewrite splice_last, app_nil_r; reflexivity.
    + cbn [map fold_left act waiting world uncaught].
      rewrite nth_error_last. cbn [resume caught].
      unfold finish, bind. rewrite !app_nil_r.
      destruct (settle _ _) as [[|] w] eqn:E; cbn [ret];
        rewrite splice_last, app_nil_r; reflexivity.
  - cbn [map fold_left act]. rewrite Hparse.
    rewrite (onSubmit_unparsed API_BASE decodeURIComponent cookie network
               form (world t) Hparse).
    destruct t; reflexivity.
Qed.

End PageAlone.

(* ================================================================== *)
(** * Overlapping submissions, run on the model *)
(* ================================================================== *)

Section OverlappingSubmissions.

Import Page.

Let aborted : Browser.Thrown :=
  {| Browser.String_of := lit "AbortError: signal is aborted without reason" |}.

(** The form is submitted a second time while the first request is in
    flight.  The second call aborts the first request, whose call then
    reports the abort as its error while the second is still waiting; the
    answer to the second request ends in the success state. *)
Example second_submission_aborts_the_first :
  dataLayer
    (world
       (run (lit "") decode_sample
          [ Submit base (lit ""); Submit base (lit "");
            Settle 0 (fetch_fails aborted) ]))
  = Some [ cpq_form_view; cpq_form_submit; cpq_form_submit;
           cpq_api_error
             (Some (JsonString
                      (lit "AbortError: signal is aborted without reason"))) ]
  /\ Page.status
       (world
          (run (lit "") decode_sample
             [ Submit base (lit ""); Submit base (lit "");
               Settle 0 (fetch_fails aborted) ]))
     = Browser.error
  /\ waiting
       (run (lit "") decode_sample
          [ Submit base (lit ""); Submit base (lit "");
            Settle 0 (fetch_fails aborted) ])
     = [for_fetch]
  /\ Page.status
       (world
          (run (lit "") decode_sample
             [ Submit base (lit ""); Submit base (lit "");
               Settle 0 (fetch_fails aborted);
               Settle 0 (headers_arrive (Some (lit "application/json"))
                           (lit "OK"));
               Settle 0 (json_read
                           (Browser.Resolved
                              (success_body (lit "https://x/pdf/web-123.pdf")
                                 (lit "web-123")))) ]))
     = Browser.success.
Proof. repeat split; vm_compute; reflexivity. Qed.

End OverlappingSubmissions.

(* ================================================================== *)
(** * The typed definitions inside the page *)
(* ================================================================== *)

(** [Browser], [Api] and [App] take the body of a response at its declared
    type and the token as given.  On such inputs they are the definitions
    of [Page]: a world of the former, read as a world of the latter,
    goes through a submission in the same way. *)
Section TypedSubmission.

Import Browser.

Variable API_BASE : jsstring.
Variable decodeURIComponent : jsstring -> Cookie.Completion jsstring.
Variable cookie : jsstring.
Variable csrfToken : option jsstring.
Variable network : Request -> Promise Response.

Definition body_of (r : ApiResponse) : Page.Json :=
  match r with
  | ApiSuccess u l => success_body u l
  | ApiError e => error_body e
  end.

Definition response_of (res : Response) : Page.Response :=
  {| Page.content_type := content_type res;
     Page.statusText := statusText res;
     Page.text := text res;
     Page.json := match json res with
                  | Resolved r => Resolved (body_of r)
                  | Rejected err => Rejected err
                  end |}.

Definition answer_of (p : Promise Response) : Promise Page.Response :=
  match p with
  | Resolved res => Resolved (response_of res)
  | Rejected err => Rejected err
  end.

Definition event_of (e : Event) : Page.Event :=
  match e with
  | cpq_form_submit => Page.cpq_form_submit
  | cpq_api_ok l => Page.cpq_api_ok (Some (Page.JsonString l))
  | cpq_api_error m => Page.cpq_api_error (Some (Page.JsonString m))
  | cpq_pdf_link_click => Page.cpq_pdf_link_click
  end.

Definition world_of (w : World) : Page.World :=
  {| Page.console := console w;
     Page.requests := requests w;
     Page.body_reads := body_reads w;
     Page.dataLayer := Some (Page.cpq_form_view :: map event_of (dataLayer w));
     Page.status := status w;
     Page.result := match result w with
                    | Some r => body_of r
                    | None => Page.JsonNull
                    end |}.

Lemma members_of_success (u l : jsstring) :
  Page.member Page.Ok (success_body u l) = Some (Page.JsonBool true)
  /\ Page.member Page.PdfUrl (success_body u l) = Some (Page.JsonString u)
  /\ Page.member Page.LeadId (success_body u l) = Some (Page.JsonString l).
Proof. repeat split; vm_compute; reflexivity. Qed.

Lemma members_of_error (e : jsstring) :
  Page.member Page.Ok (error_body e) = Some (Page.JsonBool false)
  /\ Page.member Page.Error (error_body e) = Some (Page.JsonString e).
Proof. repeat split; vm_compute; reflexivity. Qed.

(** The final part of the handler on a result of the declared type. *)
Lemma settle_typed (r : ApiResponse) (w : Page.World) :
  Page.settle (body_of r) w
  = (Page.Returned,
     {| Page.console := Page.console w;
        Page.requests := Page.requests w;
        Page.body_reads := Page.body_reads w;
        Page.dataLayer :=
          Some (events_of w
                ++ [event_of (match r with
                              | ApiSuccess _ l => cpq_api_ok l
                              | ApiError e => cpq_api_error e
                              end)]);
        Page.status := if ok r then success else error;
        Page.result := body_of r |}).
Proof.
  rewrite settle_run. unfold outcome_event.
  destruct r as [u l|e]; cbn [body_of ok event_of].
  - destruct (members_of_success u l) as (-> & _ & ->). reflexivity.
  - destruct (members_of_error e) as (-> & ->). reflexivity.
Qed.

Lemma typed_submission (form : QuoteFields) (w : World) :
  Cookie.getCsrfToken decodeURIComponent cookie = Cookie.Normal csrfToken ->
  Page.onSubmit API_BASE decodeURIComponent cookie
    (fun r => answer_of (network r)) form (world_of w)
  = (Page.Returned,
     world_of (snd (App.onSubmit API_BASE csrfToken network form w))).
Proof.
  intros Htoken.
  destruct (Validation.quoteSchema form) as [values|] eqn:Hparse.
  - rewrite (onSubmit_run _ _ _ _ form values _ Hparse).
    unfold submitted, call_summary. rewrite Htoken.
    run. rewrite Hparse. cbv beta iota.
    destruct (network (Api.quote_request API_BASE csrfToken
                         (Validation.toPayload values))) as [res|err];
      cbv beta iota delta [answer_of].
    + cbv beta iota delta [response_of Page.content_type Page.statusText
                           Page.text Page.json].
      destruct (includes (or_else (content_type res) (lit ""))
                  (lit "application/json")); cbv beta iota delta [fst snd].
      * destruct (json res) as [r|err]; cbv beta iota delta [Page.caught].
        -- rewrite settle_typed. unfold world_of, events_of.
           destruct r as [u l|e]; cbv beta iota delta [ok];
             cbn [console requests body_reads dataLayer status result
                  Page.console Page.requests Page.body_reads Page.dataLayer
                  Page.status Page.result body_of];
             rewrite !map_app, <- !app_assoc; reflexivity.
        -- change (Page.failure (String_of err))
             with (body_of (ApiError (String_of err))).
           rewrite settle_typed. unfold world_of, events_of.
           cbn [ok console requests body_reads dataLayer status result
                Page.console Page.requests Page.body_reads Page.dataLayer
                Page.status Page.result body_of].
           rewrite !map_app, <- !app_assoc. reflexivity.
      * cbv beta iota delta [Page.caught].
        replace (or_else
                   (Some match text res with
                         | Resolved t => t
                         | Rejected _ => lit ""
                         end) (statusText res))
          with (match text res with
                | Resolved (c :: t) => c :: t
                | _ => statusText res
                end)
          by (destruct (text res) as [[|c t]|e]; reflexivity).
        match goal with
        | |- Page.settle (Page.failure ?m) _ = _ =>
            change (Page.failure m) with (body_of (ApiError m))
        end.
        rewrite settle_typed. unfold world_of, events_of.
        cbn [ok console requests body_reads dataLayer status result
             Page.console Page.requests Page.body_reads Page.dataLayer
             Page.status Page.result body_of].
        rewrite !map_app, <- !app_assoc. reflexivity.
    + cbv beta iota delta [fst snd Page.caught].
      change (Page.failure (String_of err))
        with (body_of (ApiError (String_of err))).
      rewrite settle_typed. unfold world_of, events_of.
      cbn [ok console requests body_reads dataLayer status result
           Page.console Page.requests Page.body_reads Page.dataLayer
           Page.status Page.result body_of].
      rewrite !map_app, <- !app_assoc, !app_nil_r. reflexivity.
  - rewrite (onSubmit_unparsed _ _ _ _ form _ Hparse).
    unfold App.onSubmit. rewrite Hparse. reflexivity.
Qed.

Lemma typed_view (w : World) :
  Page.status_text (Page.render (world_of w))
    = Page.JsonString (App.status_text (App.render w))
  /\ Page.retry_button (Page.render (world_of w))
     = App.retry_button (App.render w)
  /\ Page.result_slot (Page.render (world_of w))
     = match App.result_card (App.render w) with
       | Some card =>
           Page.Card
             {| Page.pdfUrl := Some (Page.JsonString (App.href card));
                Page.leadId := Some (Page.JsonString (App.leadId card)) |}
       | None =>
           Page.NoCard
             (match result w with
              | Some _ => Some (Page.JsonBool false)
              | None => Some Page.JsonNull
              end)
       end.
Proof.
  unfold Page.render, App.render, world_of.
  cbn [Page.status Page.result Page.status_text Page.retry_button
       Page.result_slot App.status_text App.retry_button App.result_card].
  destruct (result w) as [[u l|e]|]; cbn [body_of].
  - destruct (members_of_success u l) as (-> & -> & ->).
    cbn [success_body Page.truthy andb negb App.href App.leadId].
    repeat split.
    destruct (status w);
      cbv beta iota delta [Page.StatusBar App.StatusBar or_else];
      reflexivity.
  - destruct (members_of_error e) as (-> & ->).
    cbn [error_body Page.truthy andb negb].
    repeat split.
    destruct (status w), e;
      cbv beta iota delta [Page.StatusBar App.StatusBar or_else Page.truthy];
      reflexivity.
  - cbn [Page.truthy andb]. repeat split.
    destruct (status w);
      cbv beta iota delta [Page.StatusBar App.StatusBar or_else];
      reflexivity.
Qed.

End TypedSubmission.

(* ================================================================== *)
(** * Instances at the inputs of the tests *)
(* ================================================================== *)

Lemma base_accepted : Validation.accepts base = true.
Proof. vm_compute. reflexivity. Qed.

Lemma tg_username_accepted_iff_witness :
  Validation.accepts (with_tg (JString (lit "@valid_123")) base) = true.
Proof.
  apply (tg_username_accepted_iff base (lit "@valid_123") base_accepted).
  right. vm_compute. reflexivity.
Defined.

Lemma email_accepted_iff_witness :
  Validation.accepts (with_email (JString (lit "a@b.c")) base) = true.
Proof.
  destruct (email_accepted_iff base (lit "a@b.c") base_accepted) as [Hiff _].
  apply Hiff. right. exists [97%N], [98%N], [99%N].
  unfold address_parts.
  split; [vm_compute; reflexivity|].
  repeat split; try discriminate; vm_compute; reflexivity.
Defined.

Lemma text_fields_accepted_iff_witness :
  Validation.accepts
    (with_contacts (JString (lit "ООО Ромашка")) JUndefined (JString (lit ""))
       (JString (lit "не телефон")) (email base) (tg_username base) base)
  = true.
Proof.
  apply (text_fields_accepted_iff base (JString (lit "ООО Ромашка"))
           JUndefined (JString (lit "")) (JString (lit "не телефон"))
           base_accepted).
  split; [|split; [|split]].
  - right. exists (lit "ООО Ромашка"). split; [reflexivity|].
    vm_compute. discriminate.
  - left. reflexivity.
  - right. exists (lit ""). split; [reflexivity|]. vm_compute. discriminate.
  - right. exists (lit "не телефон"). reflexivity.
Defined.

Lemma required_select_accepted_iff_witness :
  Validation.accepts (with_sla (JString (lit "срочно")) base) = true.
Proof.
  destruct (required_select_accepted_iff base (lit "срочно") base_accepted)
    as (_ & _ & Hsla).
  apply Hsla.
  - unfold Selects.sla_values, Options.slaOptions. cbn [map In]. tauto.
  - vm_compute. discriminate.
Defined.

Lemma print_select_outcome_witness :
  exists out,
    Validation.quoteSchema (with_print (JString (lit "4+4")) base) = Some out
    /\ print out <> JString (lit "без печати")
    /\ (print out = JUndefined <-> lit "4+4" = lit "")
    /\ (lit "4+4" <> lit "" -> print out = JString (lit "4+4")).
Proof.
  apply (print_select_outcome base (lit "4+4") base_accepted).
  rewrite print_values_listed. cbn [map In]. tauto.
Defined.

Lemma parse_output_and_reparse_witness :
  exists out,
    Validation.quoteSchema blank_form = Some out
    /\ out = blanks_dropped blank_form
    /\ Validation.quoteSchema out = Some out.
Proof.
  assert (E : exists out, Validation.quoteSchema blank_form = Some out)
    by (eexists; vm_compute; reflexivity).
  destruct E as [out E]. exists out. split; [exact E|].
  exact (parse_output_and_reparse blank_form out E).
Defined.

Lemma copy_accepts_less_witness : Validation.accepts contact_form = true.
Proof.
  apply (copy_accepts_less (Regex.test Validation.email_re) contact_form).
  - intros s H. exact H.
  - vm_compute. reflexivity.
Defined.

Lemma copy_payload_has_no_blank_witness :
  Part001.quoteSchema (Regex.test Validation.email_re) blank_company_form
    = Some blank_company_form
  /\ ~ In (lit "company", JString (lit ""))
         (Browser.JSON_stringify (Part001.toPayload blank_company_form)).
Proof.
  assert (E : Part001.quoteSchema (Regex.test Validation.email_re)
                blank_company_form = Some blank_company_form)
    by (vm_compute; reflexivity).
  split; [exact E|].
  exact (copy_payload_has_no_blank (Regex.test Validation.email_re)
           blank_company_form blank_company_form E (lit "company")).
Defined.

Lemma submitted_request_body_witness :
  exists r,
    Page.requests
      (Page.world
         (Page.act (lit "https://api.example.com") decode_sample
            {| Page.world := Page.loaded; Page.waiting := [];
               Page.uncaught := 0 |}
            (Page.Submit base (lit "theme=dark; csrftoken=abc123"))))
    = Page.requests
        (Page.world {| Page.world := Page.loaded; Page.waiting := [];
                       Page.uncaught := 0 |}) ++ [r]
    /\ Browser.url r = lit "https://api.example.com" ++ lit "/api/quote"
    /\ In (lit "X-CSRF-Token", lit "abc123") (Browser.headers r)
    /\ In (lit "qty", qty base) (Browser.body r).
Proof.
  pose proof (submitted_request_body (lit "https://api.example.com")
                decode_sample
                {| Page.world := Page.loaded; Page.waiting := [];
                   Page.uncaught := 0 |}
                base base (lit "theme=dark; csrftoken=abc123")
                (Some (lit "abc123")) base_parses) as H.
  feed H. destruct H as (r & Hreq & _ & Hurl & Htoken & Hreqd & _).
  exists r. split; [exact Hreq|]. split; [exact Hurl|].
  split; [exact Htoken|]. apply Hreqd. cbn [In]. tauto.
Defined.

Lemma null_body_leaves_loading_witness :
  fst (Page.onSubmit (lit "") decode_sample (lit "")
         (fun _ => Browser.Resolved (json_response Page.JsonNull))
         base Page.loaded)
  = Page.Uncaught
  /\ Page.status
       (snd (Page.onSubmit (lit "") decode_sample (lit "")
               (fun _ => Browser.Resolved (json_response Page.JsonNull))
               base Page.loaded))
     = Browser.loading.
Proof.
  pose proof (null_body_leaves_loading (lit "") decode_sample (lit "")
                (fun _ => Browser.Resolved (json_response Page.JsonNull))
                base base Page.loaded None (json_response Page.JsonNull)
                base_parses) as H.
  feed H. destruct H as (Hend & Hstatus & _).
  split; [exact Hend | exact Hstatus].
Defined.

Lemma undecodable_token_blocks_submission_witness :
  Page.requests
    (snd (Page.onSubmit (lit "") decode_sample (lit "csrftoken=%")
            (fun _ =>
               Browser.Resolved
                 (json_response
                    (success_body (lit "https://x/pdf/web-123.pdf")
                       (lit "web-123"))))
            base Page.loaded))
  = Page.requests Page.loaded
  /\ Page.status_text
       (Page.render
          (snd (Page.onSubmit (lit "") decode_sample (lit "csrftoken=%")
                  (fun _ =>
                     Browser.Resolved
                       (json_response
                          (success_body (lit "https://x/pdf/web-123.pdf")
                             (lit "web-123"))))
                  base Page.loaded)))
     = Page.JsonString
         (Browser.String_of
            {| Browser.String_of := lit "URIError: URI malformed" |}).
Proof.
  pose proof (undecodable_token_blocks_submission (lit "") decode_sample
                (lit "csrftoken=%")
                (fun _ =>
                   Browser.Resolved
                     (json_response
                        (success_body (lit "https://x/pdf/web-123.pdf")
                           (lit "web-123"))))
                base base Page.loaded
                {| Browser.String_of := lit "URIError: URI malformed" |}
                base_parses) as H.
  feed H. destruct H as (Hreq & _ & Htext & _).
  split; [exact Hreq | exact Htext].
Defined.

